(** * PickAParlay front end: polling loops, summary statistics, slip grouping

    A shallow embedding of the client-side logic of the PickAParlay web
    front end (Next.js / React, TypeScript):

    - [JS]          the fragment of JavaScript the pages compute with:
                    numbers, [Array.prototype.sort], objects used as maps;
    - [Timers]      [setInterval] and [clearInterval];
    - [AutoCheck]   the [autoCheck] poll loop, shared by two pages;
    - [Analytics]   [pct] of [app/analytics/page.tsx];
    - [PropResults] [computeMarketStats], [computePlayerStats] and the
                    [autoCheck] copy of [app/prop-results/page.tsx];
    - [History]     the [autoCheck] copy of the history page;
    - [Ladder]      the poll effect, [runLadder], the singles/multis split
                    and [cardKey] of [app/ladder/page.tsx];
    - [Dashboard]   [handleRefresh] and the refresh poll effect of
                    [app/page.tsx];
    - [Examples]    sample data;
    - [Order], [ResultsPage]  the summary line of the prop-results page
                    and the rollups written group by group;
    - [Expected]    the rollup figures as the claims describe them, written
                    without the page's helpers;
    - [LadderCards] the detail toggle of the ladder's cards and the
                    invariants of its start button and timers;
    - [RefreshLoop], [DashboardTable]  schedules of the dashboard's refresh
                    and the sorted props table of [app/page.tsx];
    - [Copies]      the two copies of [autoCheck] side by side;
    - [AnalyticsPage]  [factorSummary] of [app/analytics/page.tsx];
    - [OutcomeForm], [MarkOutcome], [Text]  [toggleLeg], [markOutcome] and
                    [formatDate] of the history page;
    - [Bookmakers]  [bookmakerLabel];
    - [SlipsPage]   the cards of [app/slips/page.tsx] under a leg filter;
    - [Query]       the search parameters of [api.propResults] as [load()]
                    calls it;
    - [Terminal]    the replies that end a poll loop.

    The properties follow the definitions: first the facts about numbers,
    containers, rollups, timers and the three pages, then the claims
    C1 to C10, each with the statement it is about, then further
    properties of the same code, X1 onwards.

    Numbers.  JavaScript numbers are IEEE-754 doubles.  Here a finite number
    is a rational ([Q]), and [NaN] and the two infinities are separate
    constructors.  A sum, a product and a quotient of finite numbers are
    rounded as binary64 rounds them: to the nearest double, ties to the
    even significand, with gradual underflow and with overflow to an
    infinity ([JS.round64]).  So [23 / 40 * 100] is 57.49999999999999 and
    rounds to 57, as in the browser.  The sign of zero is not represented:
    no expression of the pages divides by a zero it has computed.

    Asynchrony.  A page is a transition system.  Its state holds the React
    state cells and refs the code reads and writes, the table of live
    interval timers, the list of requests in flight (each with the
    continuation that awaits it), the reloads of the page's table that are
    under way, the one-shot timers that are pending, and a log of the calls
    the code has made.  The environment drives it with events: a click, a
    timer firing, a request settling (fulfilled or rejected), the
    component unmounting. *)

From Stdlib Require Import QArith Qround Qpower Qabs Lqa.
From stdpp Require Import base list strings gmap sorting.

(* ================================================================= *)
(** ** JavaScript numbers *)

Module JS.

Inductive number := Fin (q : Q) | PosInf | NegInf | NaN.

Definition of_nat (n : nat) : number := Fin (inject_Z (Z.of_nat n)).
Definition of_Z (z : Z) : number := Fin (inject_Z z).

Definition neg (x : number) : number :=
  match x with
  | Fin q => Fin (- q)
  | PosInf => NegInf
  | NegInf => PosInf
  | NaN => NaN
  end.

(** An infinity scaled by a finite factor. *)
Definition scale_inf (inf : number) (b : Q) : number :=
  if Qeq_bool b 0 then NaN else if Qle_bool 0 b then inf else neg inf.

(** *** Rounding to binary64

    A double is [m * 2^k] for whole [m] and [k] with [|m| < 2^53] and
    [-1074 <= k <= 971].  The result of an arithmetic operation is the
    double nearest to the exact result; of two doubles equally near, the
    one with the even [m]; a result of magnitude [2^1024] or more after
    rounding is an infinity. *)

Definition pow2 (e : Z) : Q := Qpower (2 # 1) e.

(** The integer nearest to [x], the even one of two equally near. *)
Definition rne (x : Q) : Z :=
  let f := Qfloor x in
  match Qcompare (x - inject_Z f)%Q (1 # 2)%Q with
  | Lt => f
  | Gt => (f + 1)%Z
  | Eq => if Z.even f then f else (f + 1)%Z
  end.

(** For [q > 0], the [e] with [2^e <= q < 2^(e+1)]. *)
Definition ilog2 (q : Q) : Z :=
  let e := (Z.log2 (Qnum q) - Z.log2 (Z.pos (Qden q)))%Z in
  if Qle_bool (pow2 e) q then e else (e - 1)%Z.

(** The exponent [k] of the doubles around [q]: 53 significant bits, and
    no exponent below that of the subnormal numbers. *)
Definition quantum (q : Q) : Z := Z.max (ilog2 (Qabs q) - 52) (-1074).

(** [q] rounded to a whole multiple of [2^k]. *)
Definition at_quantum (k : Z) (q : Q) : Q :=
  (inject_Z (rne (q / pow2 k)) * pow2 k)%Q.

(** [q] rounded to 53 significant bits, the exponent not yet bounded
    above. *)
Definition nearest (q : Q) : Q := Qred (at_quantum (quantum q) q).

(** The double an exact result [q] is rounded to. *)
Definition round64 (q : Q) : number :=
  let v := nearest q in
  if Qle_bool (pow2 1024) v then PosInf
  else if Qle_bool v (- pow2 1024) then NegInf
  else Fin v.

(** The Number that a JSON number (or a decimal literal) of value [q]
    denotes: the double nearest to [q]. *)
Definition literal (q : Q) : number := round64 q.

(** [x >= y] *)
Definition ge (x y : number) : bool :=
  match x, y with
  | NaN, _ | _, NaN => false
  | Fin a, Fin b => Qle_bool b a
  | PosInf, _ | _, NegInf => true
  | _, _ => false
  end.

(** [x / y] *)
Definition div (x y : number) : number :=
  match x, y with
  | NaN, _ | _, NaN => NaN
  | Fin a, Fin b =>
      if Qeq_bool b 0
      then (if Qeq_bool a 0 then NaN
            else if Qle_bool 0 a then PosInf else NegInf)
      else round64 (a / b)
  | Fin _, _ => Fin 0
  | inf, Fin b => if Qle_bool 0 b then inf else neg inf
  | _, _ => NaN
  end.

(** [x * y] *)
Definition mul (x y : number) : number :=
  match x, y with
  | NaN, _ | _, NaN => NaN
  | Fin a, Fin b => round64 (a * b)
  | Fin a, inf => scale_inf inf a
  | inf, Fin b => scale_inf inf b
  | PosInf, PosInf | NegInf, NegInf => PosInf
  | _, _ => NegInf
  end.

(** [x + y] *)
Definition add (x y : number) : number :=
  match x, y with
  | NaN, _ | _, NaN => NaN
  | Fin a, Fin b => round64 (a + b)
  | PosInf, NegInf | NegInf, PosInf => NaN
  | Fin _, inf => inf
  | inf, _ => inf
  end.

(** [x - y].  The pages subtract only in sort comparators, where the sign
    of the difference is all that is used.  The difference of two doubles
    has the sign of their exact difference (with gradual underflow it is
    zero only when they are equal, and an overflow keeps the sign), so the
    finite case is left unrounded. *)
Definition sub (x y : number) : number :=
  match x, y with
  | NaN, _ | _, NaN => NaN
  | Fin a, Fin b => Fin (a - b)
  | PosInf, PosInf | NegInf, NegInf => NaN
  | Fin _, PosInf => NegInf
  | Fin _, NegInf => PosInf
  | inf, _ => inf
  end.

(** [Math.round]: nearest integer, ties towards +infinity. *)
Definition round (x : number) : number :=
  match x with
  | Fin q => Fin (inject_Z (Qfloor (q + (1 # 2))))
  | other => other
  end.

(** Truthiness of a number: everything but zero and [NaN]. *)
Definition truthy (x : number) : bool :=
  match x with
  | Fin q => negb (Qeq_bool q 0)
  | NaN => false
  | _ => true
  end.

(** [x > 0], as a sort comparator's result is tested. *)
Definition positive (x : number) : bool :=
  match x with
  | Fin q => negb (Qle_bool q 0)
  | PosInf => true
  | _ => false
  end.

(** [x || y] on numbers. *)
Definition or (x y : number) : number := if truthy x then x else y.

Definition is_finite (x : number) : Prop :=
  match x with Fin _ => True | _ => False end.

(** [Array.prototype.sort] with a comparator: a stable sort, written as
    insertion from the right.  [insert x l] puts [x], which stood before
    every element of [l], after exactly the leading elements [y] with
    [cmp x y > 0].  This is the result of [sort] for a comparator that is
    a consistent ordering, as the differences of finite numbers used by
    the pages are. *)
Section Sort.
Context {A : Type} (cmp : A → A → number).

Fixpoint insert (x : A) (l : list A) : list A :=
  match l with
  | [] => [x]
  | y :: l' => if positive (cmp x y) then y :: insert x l' else x :: l
  end.

Fixpoint sort (l : list A) : list A :=
  match l with
  | [] => []
  | x :: l' => insert x (sort l')
  end.
End Sort.

(** Names every object inherits from [Object.prototype]: for an object
    literal [acc], [acc[k]] is truthy at these keys although [acc] has no
    own property [k]. *)
Definition inherited_keys : list string :=
  ["constructor"; "__proto__"; "hasOwnProperty"; "isPrototypeOf";
   "propertyIsEnumerable"; "toLocaleString"; "toString"; "valueOf";
   "__defineGetter__"; "__defineSetter__"; "__lookupGetter__";
   "__lookupSetter__"].

(** An object literal used as a string-keyed record, as the list of its
    own properties in insertion order (the order [Object.entries] and
    [Object.values] follow for keys that are not array indices).  A key
    that is an array index, such as a market label ["7"], is listed before
    the others by JavaScript and in its place of insertion here; the
    rollups sort their entries, and what is proved of them (which entries
    there are, their figures, that they are sorted) does not depend on the
    order before the sort. *)
Section Obj.
Context {V : Type}.

Fixpoint get (k : string) (o : list (string * V)) : option V :=
  match o with
  | [] => None
  | (k', v) :: o' => if decide (k' = k) then Some v else get k o'
  end.

(** [if (!o[k]) o[k] = d; o[k] = f(o[k])] for object values [d]:
    an existing property is updated in place, a new one goes last. *)
Fixpoint upsert (k : string) (d : V) (f : V → V) (o : list (string * V))
  : list (string * V) :=
  match o with
  | [] => [(k, f d)]
  | (k', v) :: o' =>
      if decide (k' = k) then (k', f v) :: o'
      else (k', v) :: upsert k d f o'
  end.
End Obj.

End JS.

(* ================================================================= *)
(** ** Interval timers *)

Module Timers.

(** The browser's table of live interval timers: handle to period in
    milliseconds.  Handles are positive integers, handed out in increasing
    order and never reused; a handle is therefore truthy. *)
Record table := { live : gmap positive Z; next : positive }.

Definition empty : table := {| live := ∅; next := 1%positive |}.

(** [setInterval(callback, ms)]: the new handle and the new table. *)
Definition setInterval (ms : Z) (tb : table) : positive * table :=
  (next tb, {| live := <[next tb := ms]> (live tb); next := Pos.succ (next tb) |}).

(** [clearInterval(h)]: a handle that is not live, or [null], changes
    nothing. *)
Definition clearInterval (h : option positive) (tb : table) : table :=
  match h with
  | Some id => {| live := delete id (live tb); next := next tb |}
  | None => tb
  end.

Definition is_live (id : positive) (tb : table) : bool :=
  bool_decide (is_Some (live tb !! id)).

End Timers.

(* ================================================================= *)
(** ** autoCheck: the results-check poll loop

    [autoCheck] exists twice, in the prop-results page and in the history
    page.  The two copies differ in one statement: on a terminal status the
    prop-results copy also executes [checkPollRef.current = null].  The
    section variable [nulls_ref] selects the copy. *)

Module AutoCheck.

(** [ResultsStatus["status"]] *)
Inductive Phase := idle | running | done | error.

(** [ResultsStatus] (lib/api.ts) *)
Record ResultsStatus := {
  status : Phase;
  game_date : option string;
  started_at : option string;
  finished_at : option string;
  checked : nat;
  hit : nat;
  miss : nat;
  no_data : nat;
  slips_resolved : nat;
  error_message : option string;
}.

(** Calls the code makes, in the order it makes them. *)
Inductive Call :=
| call_check                                   (* api.results.check(checkDate) *)
| call_status                                  (* api.results.status() *)
| call_setCheckStatus (s : option ResultsStatus)
| call_setChecking (b : bool)
| call_load                                    (* load() *)
| call_load_rest (ok : bool)
    (* the rest of load(), run when its request has settled *)
| call_console_error.                          (* console.error(e) *)

(** Where an [async] function is suspended. *)
Inductive Await :=
| AwaitCheck      (* autoCheck, at [await api.results.check(checkDate)] *)
| AwaitInitial    (* autoCheck, at [const initial = await api.results.status()] *)
| AwaitPoll.      (* an interval callback, at [const s = await api.results.status()] *)

Record State := {
  checkStatus : option ResultsStatus;      (* useState<ResultsStatus | null>(null) *)
  checking : bool;                         (* useState(false) *)
  checkPollRef : option positive;          (* useRef(null) *)
  timers : Timers.table;
  inflight : list Await;
  loads : nat;
    (* runs of [load()] whose request has not settled, whoever called it:
       [autoCheck], the page's own buttons, the history page's mount
       effect or [markOutcome] *)
  mounted : bool;
  log : list Call;
}.

Inductive Event :=
| ClickCheck                               (* the "Check Results" button *)
| Tick (id : positive)                     (* interval timer [id] fires *)
| Settle (i : nat) (r : option ResultsStatus)
    (* request [i] in flight settles: [Some body] fulfilled, [None] rejected;
       the body of the POST's answer is not read *)
| LoadSettled (ok : bool)
    (* the request of a run of [load()] settles, fulfilled or rejected *)
| Unmount.

(** The page once mounted, before anything has called [load()]. *)
Definition init : State :=
  {| checkStatus := None; checking := false; checkPollRef := None;
     timers := Timers.empty; inflight := []; loads := 0; mounted := true;
     log := [] |}.

(** *** Primitive actions *)

Definition emit (c : Call) (st : State) : State :=
  {| checkStatus := checkStatus st; checking := checking st;
     checkPollRef := checkPollRef st; timers := timers st;
     inflight := inflight st; loads := loads st; mounted := mounted st;
     log := log st ++ [c] |}.

Definition suspend (k : Await) (st : State) : State :=
  {| checkStatus := checkStatus st; checking := checking st;
     checkPollRef := checkPollRef st; timers := timers st;
     inflight := inflight st ++ [k]; loads := loads st; mounted := mounted st;
     log := log st |}.

(** A state setter: the call is made; React stores the value only while
    the component is mounted. *)
Definition setCheckStatus (v : option ResultsStatus) (st : State) : State :=
  emit (call_setCheckStatus v)
    {| checkStatus := if mounted st then v else checkStatus st;
       checking := checking st;
       checkPollRef := checkPollRef st; timers := timers st;
       inflight := inflight st; loads := loads st; mounted := mounted st; log := log st |}.

Definition setChecking (b : bool) (st : State) : State :=
  emit (call_setChecking b)
    {| checkStatus := checkStatus st;
       checking := if mounted st then b else checking st;
       checkPollRef := checkPollRef st; timers := timers st;
       inflight := inflight st; loads := loads st; mounted := mounted st; log := log st |}.

Definition set_ref (h : option positive) (st : State) : State :=
  {| checkStatus := checkStatus st; checking := checking st;
     checkPollRef := h; timers := timers st;
     inflight := inflight st; loads := loads st; mounted := mounted st; log := log st |}.

Definition set_timers (tb : Timers.table) (st : State) : State :=
  {| checkStatus := checkStatus st; checking := checking st;
     checkPollRef := checkPollRef st; timers := tb;
     inflight := inflight st; loads := loads st; mounted := mounted st; log := log st |}.

(** [load()], called without [await]: the page's reload.  It sets the
    page's busy flag and sends its request ([api.propResults] on the
    prop-results page, [api.history] on the history page); the caller goes
    on at once, and nothing load() does can throw into it.  What the model
    keeps of it is the call, the request in flight and, when that has
    settled, the run of its continuation. *)
Definition load (st : State) : State :=
  emit call_load
    {| checkStatus := checkStatus st; checking := checking st;
       checkPollRef := checkPollRef st; timers := timers st;
       inflight := inflight st; loads := S (loads st);
       mounted := mounted st; log := log st |}.

(** The rest of [load()]: on success the page stores the rows (or slips)
    it fetched, on failure it does not; in both cases it clears its busy
    flag.  No cancellation flag is tested. *)
Definition load_rest (ok : bool) (st : State) : State :=
  match loads st with
  | 0 => st
  | S n =>
      emit (call_load_rest ok)
        {| checkStatus := checkStatus st; checking := checking st;
           checkPollRef := checkPollRef st; timers := timers st;
           inflight := inflight st; loads := n;
           mounted := mounted st; log := log st |}
  end.

#[global] Instance results_phase_eq_dec : EqDecision Phase.
Proof. solve_decision. Defined.
#[global] Instance ResultsStatus_eq_dec : EqDecision ResultsStatus.
Proof. solve_decision. Defined.
#[global] Instance results_call_eq_dec : EqDecision Call.
Proof. solve_decision. Defined.

Section Copy.
Variable nulls_ref : bool.

(** [autoCheck()], up to its first [await]. *)
Definition autoCheck (st : State) : State :=
  suspend AwaitCheck
    (emit call_check (setCheckStatus None (setChecking true st))).

(** The interval callback, up to its [await]. *)
Definition poll (st : State) : State :=
  suspend AwaitPoll (emit call_status st).

(** [catch (e) { console.error(e); setChecking(false); }] *)
Definition autoCheck_catch (st : State) : State :=
  setChecking false (emit call_console_error st).

(** [if (x.status === "done") load();] *)
Definition load_if_done (s : ResultsStatus) (st : State) : State :=
  if decide (status s = done) then load st else st.

(** The continuation of a suspended function when its request settles. *)
Definition resume (k : Await) (r : option ResultsStatus) (st : State) : State :=
  match k, r with
  | AwaitCheck, Some _ =>
      suspend AwaitInitial (emit call_status st)
  | AwaitCheck, None => autoCheck_catch st
  | AwaitInitial, Some initial =>
      let st := setCheckStatus (Some initial) st in
      if decide (status initial = running) then
        let '(id, tb) := Timers.setInterval 2000 (timers st) in
        set_ref (Some id) (set_timers tb st)
      else
        load_if_done initial (setChecking false st)
  | AwaitInitial, None => autoCheck_catch st
  | AwaitPoll, Some s =>
      let st := setCheckStatus (Some s) st in
      if decide (status s ≠ running) then
        let st := set_timers (Timers.clearInterval (checkPollRef st) (timers st)) st in
        let st := if nulls_ref then set_ref None st else st in
        load_if_done s (setChecking false st)
      else st
  | AwaitPoll, None => st                      (* catch { /* ignore */ } *)
  end.

Definition drop_request (i : nat) (st : State) : State :=
  {| checkStatus := checkStatus st; checking := checking st;
     checkPollRef := checkPollRef st; timers := timers st;
     inflight := delete i (inflight st); loads := loads st;
     mounted := mounted st;
     log := log st |}.

(** The unmount cleanup:
    [if (checkPollRef.current) clearInterval(checkPollRef.current)] *)
Definition unmount (st : State) : State :=
  {| checkStatus := checkStatus st; checking := checking st;
     checkPollRef := checkPollRef st;
     timers := Timers.clearInterval (checkPollRef st) (timers st);
     inflight := inflight st; loads := loads st; mounted := false;
     log := log st |}.

(** One event.  An event that cannot occur in the state (the button is
    disabled while [checking], a dead timer does not fire, there is no such
    request, no reload is under way, the component is already gone) leaves
    it as it is. *)
Definition step (st : State) (e : Event) : State :=
  match e with
  | ClickCheck =>
      if mounted st && negb (checking st) then autoCheck st else st
  | Tick id =>
      if Timers.is_live id (timers st) then poll st else st
  | Settle i r =>
      match inflight st !! i with
      | Some k => resume k r (drop_request i st)
      | None => st
      end
  | LoadSettled ok => load_rest ok st
  | Unmount =>
      if mounted st then unmount st else st
  end.

Definition run (st : State) (evs : list Event) : State :=
  fold_left step evs st.

End Copy.

(** The calls made between two states of one run. *)
Definition calls_since (st0 st1 : State) : list Call :=
  drop (length (log st0)) (log st1).

Definition count (c : Call) (l : list Call) : nat :=
  length (filter (λ x, x = c) l).

(** *** States and schedules used to state properties *)

(** A page at rest: mounted, not checking, nothing in flight, no timer. *)
Definition resting (cs : option ResultsStatus) (ref : option positive)
    (nx : positive) (lg : list Call) : State :=
  {| checkStatus := cs; checking := false; checkPollRef := ref;
     timers := {| Timers.live := ∅; Timers.next := nx |};
     inflight := []; loads := 0; mounted := true; log := lg |}.

(** A page whose poll loop runs on timer [t], between two ticks. *)
Definition polling (t : positive) (s : ResultsStatus) (nx : positive)
    (lg : list Call) : State :=
  {| checkStatus := Some s; checking := true; checkPollRef := Some t;
     timers := {| Timers.live := {[t := 2000%Z]}; Timers.next := nx |};
     inflight := []; loads := 0; mounted := true; log := lg |}.

(** A start attempt whose trigger succeeds (answer body [ack]) and whose
    first status fetch yields [r]; nothing else happens in between. *)
Definition attempt (ack r : ResultsStatus) : list Event :=
  [ClickCheck; Settle 0 (Some ack); Settle 0 (Some r)].

(** One poll round: timer [t] fires and the request it sends is answered
    with [r] before anything else happens. *)
Definition round (t : positive) (r : ResultsStatus) : list Event :=
  [Tick t; Settle 0 (Some r)].

Definition rounds (t : positive) (rs : list ResultsStatus) : list Event :=
  rs ≫= round t.

(** The status source answers the successive fetches of one attempt with
    [replies], each before the next tick; [t] is the handle the attempt's
    timer gets. *)
Definition served (t : positive) (ack : ResultsStatus)
    (replies : list ResultsStatus) : list Event :=
  match replies with
  | [] => [ClickCheck; Settle 0 (Some ack)]
  | r :: rest => attempt ack r ++ rounds t rest
  end.

(** The state with [n] reloads under way. *)
Definition loading (n : nat) (st : State) : State :=
  {| checkStatus := checkStatus st; checking := checking st;
     checkPollRef := checkPollRef st; timers := timers st;
     inflight := inflight st; loads := n;
     mounted := mounted st; log := log st |}.

(** Only the timer held in [checkPollRef] is live. *)
Definition owns_timers (st : State) : Prop :=
  ∀ id, is_Some (Timers.live (timers st) !! id) → checkPollRef st = Some id.

End AutoCheck.

(* ================================================================= *)
(** ** app/analytics/page.tsx *)

Module Analytics.

(** [function pct(hits, total)
      { return total ? Math.round((hits / total) * 100) : 0; }] *)
Definition pct (hits total : JS.number) : JS.number :=
  if JS.truthy total
  then JS.round (JS.mul (JS.div hits total) (JS.of_Z 100))
  else JS.of_Z 0.

End Analytics.

(* ================================================================= *)
(** ** app/prop-results/page.tsx: summary computations *)

Module PropResults.

Inductive LegResult := HIT | MISS.

(** The fields of [PropResult] (lib/api.ts) the summaries read, as the
    server's JSON gives them.  [value_score] is declared [number]; the code
    guards it with [?? 0], so a missing value ([null] or [undefined]) is
    [None] here, as is a missing [leg_result].  A score that is present is
    the value of the JSON number; the page computes with the double it is
    parsed to ([JS.literal]). *)
Record PropResult := {
  player_name : string;
  market_label : string;
  value_score : option Q;
  leg_result : option LegResult;
}.

Record MarketStat := {
  ms_label : string; ms_total : nat; ms_hits : nat; ms_pct : JS.number;
}.

Record PlayerStat := {
  ps_player : string; ps_market : string;
  ps_total : nat; ps_hits : nat; ps_hit_pct : JS.number;
  ps_avg_score : JS.number;
  ps_pending : nat;
}.

(** [s.total ? Math.round(s.hits / s.total * 100) : 0] *)
Definition rate (hits total : nat) : JS.number :=
  if JS.truthy (JS.of_nat total)
  then JS.round (JS.mul (JS.div (JS.of_nat hits) (JS.of_nat total)) (JS.of_Z 100))
  else JS.of_Z 0.

(** *** computeMarketStats *)

Record MarketAcc := { ma_total : nat; ma_hits : nat }.

(** One iteration of [for (const r of rows)].  At a label that names an
    inherited property, [!acc[m]] is false and the two increments land on
    the inherited object: [acc] gets no own property. *)
Definition market_step (acc : list (string * MarketAcc)) (r : PropResult)
  : list (string * MarketAcc) :=
  match leg_result r with
  | None => acc                                   (* skip ungraded *)
  | Some res =>
      let m := market_label r in
      if decide (m ∈ JS.inherited_keys) then acc
      else
        JS.upsert m {| ma_total := 0; ma_hits := 0 |}
          (λ s, {| ma_total := S (ma_total s);
                   ma_hits := match res with
                              | HIT => S (ma_hits s)
                              | MISS => ma_hits s
                              end |})
          acc
  end.

Definition market_stat (e : string * MarketAcc) : MarketStat :=
  {| ms_label := e.1;
     ms_total := ma_total e.2;
     ms_hits := ma_hits e.2;
     ms_pct := rate (ma_hits e.2) (ma_total e.2) |}.

Definition computeMarketStats (rows : list PropResult) : list MarketStat :=
  JS.sort (λ a b, JS.sub (ms_pct b) (ms_pct a))
    (market_stat <$> fold_left market_step rows []).

(** *** computePlayerStats *)

Record PlayerAcc := {
  pa_player : string; pa_market : string;
  pa_graded : nat; pa_hits : nat; pa_scores : list JS.number;
  pa_pending : nat;
}.

(** [`${r.player_name}||${r.market_label}`] *)
Definition player_key (r : PropResult) : string :=
  player_name r +:+ "||" +:+ market_label r.

(** [r.value_score ?? 0] *)
Definition score_or_zero (r : PropResult) : JS.number :=
  match value_score r with Some q => JS.literal q | None => JS.Fin 0 end.

(** The body of the loop after [acc[key]] exists: push the score, then
    either count the row as pending and [continue], or count it as
    graded and, on a hit, as a hit. *)
Definition player_bump (r : PropResult) (v : PlayerAcc) : PlayerAcc :=
  let scores := pa_scores v ++ [score_or_zero r] in
  match leg_result r with
  | None =>
      {| pa_player := pa_player v; pa_market := pa_market v;
         pa_graded := pa_graded v; pa_hits := pa_hits v;
         pa_scores := scores; pa_pending := S (pa_pending v) |}
  | Some res =>
      {| pa_player := pa_player v; pa_market := pa_market v;
         pa_graded := S (pa_graded v);
         pa_hits := match res with
                    | HIT => S (pa_hits v)
                    | MISS => pa_hits v
                    end;
         pa_scores := scores; pa_pending := pa_pending v |}
  end.

(** The record a new key starts from. *)
Definition player_fresh (r : PropResult) : PlayerAcc :=
  {| pa_player := player_name r; pa_market := market_label r;
     pa_graded := 0; pa_hits := 0; pa_scores := []; pa_pending := 0 |}.

(** One iteration.  Every key contains ["||"], which no inherited
    property name does, so [!acc[key]] tests for an own property. *)
Definition player_step (acc : list (string * PlayerAcc)) (r : PropResult)
  : list (string * PlayerAcc) :=
  JS.upsert (player_key r) (player_fresh r) (player_bump r) acc.

(** [v.scores.reduce((a, b) => a + b, 0)]: the scores are added from the
    left, each sum rounded to a double. *)
Definition sum_scores (scores : list JS.number) : JS.number :=
  fold_left JS.add scores (JS.Fin 0).

(** [Math.round(sum / v.scores.length)] *)
Definition mean_score (scores : list JS.number) : JS.number :=
  JS.round (JS.div (sum_scores scores) (JS.of_nat (length scores))).

Definition player_stat (v : PlayerAcc) : PlayerStat :=
  {| ps_player := pa_player v;
     ps_market := pa_market v;
     ps_total := pa_graded v;               (* graded count for hit-rate calc *)
     ps_hits := pa_hits v;
     ps_hit_pct := rate (pa_hits v) (pa_graded v);
     ps_avg_score := mean_score (pa_scores v);
     ps_pending := pa_pending v |}.

(** [(a, b) => b.total - a.total || b.hit_pct - a.hit_pct] *)
Definition player_order (a b : PlayerStat) : JS.number :=
  JS.or (JS.sub (JS.of_nat (ps_total b)) (JS.of_nat (ps_total a)))
        (JS.sub (ps_hit_pct b) (ps_hit_pct a)).

Definition computePlayerStats (rows : list PropResult) : list PlayerStat :=
  JS.sort player_order
    (player_stat <$> (snd <$> fold_left player_step rows [])).

(** *** What the rollup is meant to be, group by group *)

(** The rows of one key, in input order. *)
Definition group (k : string) (rows : list PropResult) : list PropResult :=
  filter (λ r, player_key r = k) rows.

Definition is_pending (r : PropResult) : Prop := leg_result r = None.
Definition is_graded (r : PropResult) : Prop := leg_result r ≠ None.
Definition is_hit (r : PropResult) : Prop := leg_result r = Some HIT.

#[global] Instance LegResult_eq_dec : EqDecision LegResult.
Proof. solve_decision. Defined.
#[global] Instance is_pending_dec r : Decision (is_pending r).
Proof. unfold is_pending. apply _. Defined.
#[global] Instance is_graded_dec r : Decision (is_graded r).
Proof. unfold is_graded. apply _. Defined.
#[global] Instance is_hit_dec r : Decision (is_hit r).
Proof. unfold is_hit. apply _. Defined.

(** The statistics of a non-empty group [g], written from its rows:
    names from the first row, the three counters as counts, the hit rate
    over graded rows only, the mean over every row with a missing score
    read as zero. *)
Definition group_stat (g : list PropResult) : option PlayerStat :=
  match g with
  | [] => None
  | r0 :: _ =>
      let graded := length (filter is_graded g) in
      let hits := length (filter is_hit g) in
      Some {| ps_player := player_name r0;
              ps_market := market_label r0;
              ps_total := graded;
              ps_hits := hits;
              ps_hit_pct := rate hits graded;
              ps_avg_score :=
                JS.round (JS.div (sum_scores (score_or_zero <$> g))
                                 (JS.of_nat (length g)));
              ps_pending := length (filter is_pending g) |}
  end.

(** *** The "Check Results" control

    This page's [autoCheck] is the copy that also resets
    [checkPollRef.current] to [null] on a terminal status. *)

Definition step := AutoCheck.step true.
Definition run := AutoCheck.run true.

(** *** Auxiliary notions for reasoning about the two loops *)

(** Every group the market loop has built holds at least one graded row
    and no more hits than rows. *)
Definition market_ok (s : MarketAcc) : Prop :=
  ma_hits s ≤ ma_total s ∧ 0 < ma_total s.

(** The accumulator of one key, followed through the loop on its own. *)
Definition bump_group (o : option PlayerAcc) (r : PropResult) : option PlayerAcc :=
  Some (player_bump r (default (player_fresh r) o)).

(** What the loop has added to an accumulator after the rows [g]. *)
Definition grown (a : PlayerAcc) (g : list PropResult) : PlayerAcc :=
  {| pa_player := pa_player a; pa_market := pa_market a;
     pa_graded := pa_graded a + length (filter is_graded g);
     pa_hits := pa_hits a + length (filter is_hit g);
     pa_scores := pa_scores a ++ (score_or_zero <$> g);
     pa_pending := pa_pending a + length (filter is_pending g) |}.

End PropResults.

(* ================================================================= *)
(** ** The history page

    Its [autoCheck] is the copy that leaves [checkPollRef.current] set. *)

Module History.

Definition step := AutoCheck.step false.
Definition run := AutoCheck.run false.

(** The history page once mounted: [useEffect(load, [])] has called
    [load()].  (The prop-results page loads its table only on request.) *)
Definition init : AutoCheck.State := AutoCheck.load AutoCheck.init.

End History.

(* ================================================================= *)
(** ** app/ladder/page.tsx *)

Module Ladder.

(** [LadderStatus["status"]] *)
Inductive Phase := idle | running | done | no_games | no_props | error.

(** [LadderStatus] (lib/api.ts) *)
Record LadderStatus := {
  running_flag : bool;                       (* the field [running] *)
  started_at : option string;
  finished_at : option string;
  status : Phase;
  props_graded : nat;
  error_message : option string;
}.

Inductive SlipType := single | multi.

(** Of [SlipLeg], what a card's summary line shows. *)
Record SlipLeg := {
  leg_player_name : string;
  leg_market_label : string;
  leg_line : Q;
  leg_value_score : Q;
}.

(** [Slip] (lib/api.ts); [type] is optional there. *)
Record Slip := {
  combined_odds : Q;
  avg_value_score : Q;
  has_correlated_legs : bool;
  summary : string;
  legs : list SlipLeg;
  type : option SlipType;
}.

(** *** Singles, multis and card keys *)

#[global] Instance SlipType_eq_dec : EqDecision SlipType.
Proof. solve_decision. Defined.

(** [slips.filter(s => s.type === "single")] *)
Definition singles (slips : list Slip) : list Slip :=
  filter (λ s, type s = Some single) slips.

(** [slips.filter(s => s.type !== "single")] *)
Definition multis (slips : list Slip) : list Slip :=
  filter (λ s, type s ≠ Some single) slips.

(** [const cardKey = prefix === "s" ? -(idx + 1) : idx;] *)
Definition cardKey (prefix : string) (idx : Z) : Z :=
  if decide (prefix = "s") then (- (idx + 1))%Z else idx.

(** [singles.map((slip, idx) => <SlipCard ... idx={idx} prefix="s" />)] and
    the same for [multis] with prefix ["m"]: every card with its key. *)
Definition keyed (prefix : string) (group : list Slip) : list (Z * Slip) :=
  imap (λ idx slip, (cardKey prefix (Z.of_nat idx), slip)) group.

Definition single_cards (slips : list Slip) : list (Z * Slip) :=
  keyed "s" (singles slips).

Definition multi_cards (slips : list Slip) : list (Z * Slip) :=
  keyed "m" (multis slips).

(** [const isExpanded = expanded === cardKey;] *)
Definition isExpanded (expanded : option Z) (key : Z) : bool :=
  bool_decide (expanded = Some key).

(** *** The poll effect and runLadder *)

Inductive Call :=
| call_trigger                                 (* api.ladder.trigger() *)
| call_status                                  (* api.ladder.status() *)
| call_results                                 (* api.ladder.results() *)
| call_setStatus (s : LadderStatus)
| call_setSlips (l : list Slip)
| call_setExpanded (k : option Z)
| call_setTriggering (b : bool)
| call_console_error.

Inductive Await :=
| MountStatus     (* [api.ladder.status().then(setStatus).catch(() => {})] *)
| MountResults    (* [api.ladder.results().then(setSlips).catch(() => {})] *)
| RunTrigger      (* runLadder, at [await api.ladder.trigger()] *)
| RunStatus       (* runLadder, at [const s = await api.ladder.status()] *)
| PollStatus      (* the interval callback, at [await api.ladder.status()] *)
| PollResults.    (* the interval callback, at [await api.ladder.results()] *)

(** How a request settles. *)
Inductive Reply :=
| Rejected
| Accepted                                     (* the POST's [{status}] *)
| StatusBody (s : LadderStatus)
| SlipsBody (l : list Slip).

Record State := {
  page_status : option LadderStatus;           (* [status] *)
  slips : list Slip;
  expanded : option Z;
  triggering : bool;
  pollRef : option positive;
  effect_dep : option Phase;
    (* [status?.status] as it was when the poll effect last ran *)
  timers : Timers.table;
  inflight : list Await;
  mounted : bool;
  log : list Call;
}.

Inductive Event :=
| ClickRun                                     (* the "Run Ladder" button *)
| Tick (id : positive)
| Settle (i : nat) (r : Reply)
| Unmount.

(** The page once mounted: the mount effect has sent its two requests; the
    poll effect has run with no status and so has set no timer. *)
Definition init : State :=
  {| page_status := None; slips := []; expanded := None; triggering := false;
     pollRef := None; effect_dep := None;
     timers := Timers.empty; inflight := [MountStatus; MountResults];
     mounted := true; log := [call_status; call_results] |}.

Definition emit (c : Call) (st : State) : State :=
  {| page_status := page_status st; slips := slips st; expanded := expanded st;
     triggering := triggering st; pollRef := pollRef st;
     effect_dep := effect_dep st; timers := timers st;
     inflight := inflight st; mounted := mounted st; log := log st ++ [c] |}.

Definition suspend (k : Await) (st : State) : State :=
  {| page_status := page_status st; slips := slips st; expanded := expanded st;
     triggering := triggering st; pollRef := pollRef st;
     effect_dep := effect_dep st; timers := timers st;
     inflight := inflight st ++ [k]; mounted := mounted st; log := log st |}.

Definition setStatus (s : LadderStatus) (st : State) : State :=
  emit (call_setStatus s)
    {| page_status := if mounted st then Some s else page_status st;
       slips := slips st; expanded := expanded st;
       triggering := triggering st; pollRef := pollRef st;
       effect_dep := effect_dep st; timers := timers st;
       inflight := inflight st; mounted := mounted st; log := log st |}.

Definition setSlips (l : list Slip) (st : State) : State :=
  emit (call_setSlips l)
    {| page_status := page_status st;
       slips := if mounted st then l else slips st; expanded := expanded st;
       triggering := triggering st; pollRef := pollRef st;
       effect_dep := effect_dep st; timers := timers st;
       inflight := inflight st; mounted := mounted st; log := log st |}.

Definition setExpanded (k : option Z) (st : State) : State :=
  emit (call_setExpanded k)
    {| page_status := page_status st; slips := slips st;
       expanded := if mounted st then k else expanded st;
       triggering := triggering st; pollRef := pollRef st;
       effect_dep := effect_dep st; timers := timers st;
       inflight := inflight st; mounted := mounted st; log := log st |}.

Definition setTriggering (b : bool) (st : State) : State :=
  emit (call_setTriggering b)
    {| page_status := page_status st; slips := slips st; expanded := expanded st;
       triggering := if mounted st then b else triggering st;
       pollRef := pollRef st;
       effect_dep := effect_dep st; timers := timers st;
       inflight := inflight st; mounted := mounted st; log := log st |}.

Definition set_timers (tb : Timers.table) (st : State) : State :=
  {| page_status := page_status st; slips := slips st; expanded := expanded st;
     triggering := triggering st; pollRef := pollRef st;
     effect_dep := effect_dep st; timers := tb;
     inflight := inflight st; mounted := mounted st; log := log st |}.

Definition set_ref (h : option positive) (st : State) : State :=
  {| page_status := page_status st; slips := slips st; expanded := expanded st;
     triggering := triggering st; pollRef := h;
     effect_dep := effect_dep st; timers := timers st;
     inflight := inflight st; mounted := mounted st; log := log st |}.

Definition set_dep (d : option Phase) (st : State) : State :=
  {| page_status := page_status st; slips := slips st; expanded := expanded st;
     triggering := triggering st; pollRef := pollRef st;
     effect_dep := d; timers := timers st;
     inflight := inflight st; mounted := mounted st; log := log st |}.

Definition drop_request (i : nat) (st : State) : State :=
  {| page_status := page_status st; slips := slips st; expanded := expanded st;
     triggering := triggering st; pollRef := pollRef st;
     effect_dep := effect_dep st; timers := timers st;
     inflight := delete i (inflight st); mounted := mounted st; log := log st |}.

Definition set_unmounted (st : State) : State :=
  {| page_status := page_status st; slips := slips st; expanded := expanded st;
     triggering := triggering st; pollRef := pollRef st;
     effect_dep := effect_dep st; timers := timers st;
     inflight := inflight st; mounted := false; log := log st |}.

#[global] Instance ladder_phase_eq_dec : EqDecision Phase.
Proof. solve_decision. Defined.
#[global] Instance LadderStatus_eq_dec : EqDecision LadderStatus.
Proof. solve_decision. Defined.
#[global] Instance Q_eq_dec : EqDecision Q.
Proof. solve_decision. Defined.
#[global] Instance SlipLeg_eq_dec : EqDecision SlipLeg.
Proof. solve_decision. Defined.
#[global] Instance Slip_eq_dec : EqDecision Slip.
Proof. solve_decision. Defined.
#[global] Instance ladder_call_eq_dec : EqDecision Call.
Proof. solve_decision. Defined.

(** [status?.status] *)
Definition current_dep (st : State) : option Phase :=
  status <$> page_status st.

(** [const isRunning = status?.status === "running";] *)
Definition isRunning (st : State) : bool :=
  bool_decide (current_dep st = Some running).

(** The poll effect's cleanup:
    [if (pollRef.current) clearInterval(pollRef.current)] *)
Definition cleanup (st : State) : State :=
  set_timers (Timers.clearInterval (pollRef st) (timers st)) st.

(** The poll effect's body:
    [if (status?.status === "running") pollRef.current = setInterval(..., 2000)] *)
Definition effect (st : State) : State :=
  if isRunning st then
    let '(id, tb) := Timers.setInterval 2000 (timers st) in
    set_ref (Some id) (set_timers tb st)
  else st.

(** React after a handler has run: when the dependency [status?.status]
    differs from the one the effect last saw, the previous cleanup runs,
    then the effect. *)
Definition commit (st : State) : State :=
  if mounted st && negb (bool_decide (current_dep st = effect_dep st))
  then effect (set_dep (current_dep st) (cleanup st))
  else st.

(** [runLadder()], up to its first [await]. *)
Definition runLadder (st : State) : State :=
  suspend RunTrigger
    (emit call_trigger
       (setExpanded None (setSlips [] (setTriggering true st)))).

(** [catch (e) { console.error(e); } finally { setTriggering(false); }] *)
Definition runLadder_catch (st : State) : State :=
  setTriggering false (emit call_console_error st).

(** The interval callback, up to its first [await]. *)
Definition poll (st : State) : State :=
  suspend PollStatus (emit call_status st).

(** The continuation of a suspended function; [None] when the reply is not
    one the request can get. *)
Definition resume (k : Await) (r : Reply) (st : State) : option State :=
  match k, r with
  | MountStatus, StatusBody s => Some (setStatus s st)
  | MountStatus, Rejected => Some st
  | MountResults, SlipsBody l => Some (setSlips l st)
  | MountResults, Rejected => Some st
  | RunTrigger, Accepted => Some (suspend RunStatus (emit call_status st))
  | RunTrigger, Rejected => Some (runLadder_catch st)
  | RunStatus, StatusBody s => Some (setTriggering false (setStatus s st))
  | RunStatus, Rejected => Some (runLadder_catch st)
  | PollStatus, StatusBody s =>
      let st := setStatus s st in
      if decide (status s ≠ running) then
        let st := set_timers (Timers.clearInterval (pollRef st) (timers st)) st in
        if decide (status s = done)
        then Some (suspend PollResults (emit call_results st))
        else Some st
      else Some st
  | PollStatus, Rejected => Some st            (* catch { /* ignore */ } *)
  | PollResults, SlipsBody l => Some (setSlips l st)
  | PollResults, Rejected => Some st           (* the same catch *)
  | _, _ => None
  end.

(** One event; an event that cannot occur leaves the state as it is.  The
    button is disabled while [isRunning || triggering]. *)
Definition step (st : State) (e : Event) : State :=
  match e with
  | ClickRun =>
      if mounted st && negb (isRunning st || triggering st)
      then commit (runLadder st) else st
  | Tick id =>
      if Timers.is_live id (timers st) then commit (poll st) else st
  | Settle i r =>
      match inflight st !! i with
      | Some k =>
          match resume k r (drop_request i st) with
          | Some st' => commit st'
          | None => st
          end
      | None => st
      end
  | Unmount =>
      if mounted st then set_unmounted (cleanup st) else st
  end.

Definition run (st : State) (evs : list Event) : State :=
  fold_left step evs st.

Definition calls_since (st0 st1 : State) : list Call :=
  drop (length (log st0)) (log st1).

Definition count (c : Call) (l : list Call) : nat :=
  length (filter (λ x, x = c) l).

(** *** States and schedules used to state properties *)

(** The poll effect has run for the status on display. *)
Definition stable (st : State) : Prop :=
  mounted st = true → effect_dep st = current_dep st.

(** A page at rest: mounted, no search being started, nothing in flight,
    no timer, the poll effect up to date. *)
Definition resting (s : option LadderStatus) (sl : list Slip) (ex : option Z)
    (ref : option positive) (nx : positive) (lg : list Call) : State :=
  {| page_status := s; slips := sl; expanded := ex; triggering := false;
     pollRef := ref; effect_dep := status <$> s;
     timers := {| Timers.live := ∅; Timers.next := nx |};
     inflight := []; mounted := true; log := lg |}.

(** A page whose poll effect has set timer [t] for a running status, between
    two ticks. *)
Definition polling (t : positive) (s : LadderStatus) (sl : list Slip)
    (ex : option Z) (nx : positive) (lg : list Call) : State :=
  {| page_status := Some s; slips := sl; expanded := ex; triggering := false;
     pollRef := Some t; effect_dep := Some running;
     timers := {| Timers.live := {[t := 2000%Z]}; Timers.next := nx |};
     inflight := []; mounted := true; log := lg |}.

(** One poll round: timer [t] fires and its status request is answered
    with [r] before anything else happens. *)
Definition round (t : positive) (r : LadderStatus) : list Event :=
  [Tick t; Settle 0 (StatusBody r)].

Definition rounds (t : positive) (rs : list LadderStatus) : list Event :=
  rs ≫= round t.

(** After a round that saw [tm], the results request of a finished search
    is answered with [res]. *)
Definition results_served (tm : LadderStatus) (res : list Slip) : list Event :=
  if decide (status tm = done) then [Settle 0 (SlipsBody res)] else [].

(** A start attempt whose trigger succeeds and whose status fetch yields
    [r]; [n] requests were in flight before it. *)
Definition attempt (n : nat) (r : LadderStatus) : list Event :=
  [ClickRun; Settle n Accepted; Settle n (StatusBody r)].

(** Only the timer held in [pollRef] is live. *)
Definition owns_timers (st : State) : Prop :=
  ∀ id, is_Some (Timers.live (timers st) !! id) → pollRef st = Some id.

(** The one-leg slips are exactly those tagged ["single"], and no slip is
    without legs. *)
Definition well_tagged (slips : list Slip) : Prop :=
  Forall (λ s, legs s ≠ [] ∧ (type s = Some single ↔ length (legs s) = 1)) slips.

End Ladder.

(* ================================================================= *)
(** ** app/page.tsx: the dashboard's refresh *)

Module Dashboard.

(** [RefreshStatus] (lib/api.ts) *)
Record RefreshStatus := {
  running : bool;
  started_at : option string;
  finished_at : option string;
  status : string;
  props_graded : nat;
  props_total : nat;
  run_id : option nat;
  error_message : option string;
}.

Inductive Call :=
| call_refresh                                 (* api.refresh() *)
| call_refreshStatus                           (* api.refreshStatus() *)
| call_setRefreshing (b : bool)
| call_setError (e : option string)
| call_setRefreshStatus (s : RefreshStatus)
| call_setTimeout_fetchData (ms : Z)           (* setTimeout(fetchData, ms) *)
| call_fetchData                               (* fetchData() *)
| call_fetchData_rest (failure : option string)
    (* the rest of fetchData(), run when its requests have settled *)
| unhandled_rejection.
    (* an async function without [try] ends on a rejected [await] *)

Inductive Await :=
| AwaitRefresh                 (* handleRefresh, at [await api.refresh()] *)
| AwaitFirstStatus             (* handleRefresh, at [await api.refreshStatus()] *)
| AwaitPoll (id : positive).   (* the callback of timer [id], at its [await] *)

Inductive Reply :=
| Rejected
| Accepted
| StatusBody (s : RefreshStatus).

Record State := {
  refreshing : bool;                           (* useState(false) *)
  refreshStatus : option RefreshStatus;
  error : option string;
  effect_refreshing : bool;
    (* [refreshing] as it was when the poll effect last ran *)
  effect_timer : option positive;
    (* the [id] the last run of the poll effect created, which its cleanup
       closes over; [None] when that run returned early *)
  timers : Timers.table;
  inflight : list Await;
  fetching : nat;
    (* runs of [fetchData()] whose requests have not settled *)
  timeouts : nat;
    (* one-shot timers [setTimeout(fetchData, 500)] that have not fired;
       the page keeps none of their handles *)
  mounted : bool;
  log : list Call;
}.

Inductive Event :=
| ClickRefresh                                 (* the refresh button *)
| FiltersChanged                               (* [fetchData] gets a new identity *)
| Tick (id : positive)
| Settle (i : nat) (r : Reply)
| Timeout                                      (* a one-shot timer fires *)
| FetchSettled (failure : option string)
    (* the requests of a run of [fetchData()] settle: all fulfilled, or
       one rejected with an error of the given message *)
| Unmount.

(** The page once mounted: [useEffect(() => { fetchData(); }, [fetchData])]
    has run, and the requests of that [fetchData()] are in flight; the
    poll effect has returned early. *)
Definition init : State :=
  {| refreshing := false; refreshStatus := None; error := None;
     effect_refreshing := false; effect_timer := None;
     timers := Timers.empty; inflight := []; fetching := 1; timeouts := 0;
     mounted := true; log := [call_fetchData] |}.

Definition emit (c : Call) (st : State) : State :=
  {| refreshing := refreshing st; refreshStatus := refreshStatus st;
     error := error st; effect_refreshing := effect_refreshing st;
     effect_timer := effect_timer st; timers := timers st;
     inflight := inflight st; fetching := fetching st;
     timeouts := timeouts st; mounted := mounted st; log := log st ++ [c] |}.

Definition suspend (k : Await) (st : State) : State :=
  {| refreshing := refreshing st; refreshStatus := refreshStatus st;
     error := error st; effect_refreshing := effect_refreshing st;
     effect_timer := effect_timer st; timers := timers st;
     inflight := inflight st ++ [k]; fetching := fetching st;
     timeouts := timeouts st; mounted := mounted st; log := log st |}.

Definition setRefreshing (b : bool) (st : State) : State :=
  emit (call_setRefreshing b)
    {| refreshing := if mounted st then b else refreshing st;
       refreshStatus := refreshStatus st;
       error := error st; effect_refreshing := effect_refreshing st;
       effect_timer := effect_timer st; timers := timers st;
       inflight := inflight st; fetching := fetching st;
     timeouts := timeouts st; mounted := mounted st; log := log st |}.

Definition setRefreshStatus (s : RefreshStatus) (st : State) : State :=
  emit (call_setRefreshStatus s)
    {| refreshing := refreshing st;
       refreshStatus := if mounted st then Some s else refreshStatus st;
       error := error st; effect_refreshing := effect_refreshing st;
       effect_timer := effect_timer st; timers := timers st;
       inflight := inflight st; fetching := fetching st;
     timeouts := timeouts st; mounted := mounted st; log := log st |}.

Definition setError (e : option string) (st : State) : State :=
  emit (call_setError e)
    {| refreshing := refreshing st; refreshStatus := refreshStatus st;
       error := if mounted st then e else error st;
       effect_refreshing := effect_refreshing st;
       effect_timer := effect_timer st; timers := timers st;
       inflight := inflight st; fetching := fetching st;
     timeouts := timeouts st; mounted := mounted st; log := log st |}.

Definition set_timers (tb : Timers.table) (st : State) : State :=
  {| refreshing := refreshing st; refreshStatus := refreshStatus st;
     error := error st; effect_refreshing := effect_refreshing st;
     effect_timer := effect_timer st; timers := tb;
     inflight := inflight st; fetching := fetching st;
     timeouts := timeouts st; mounted := mounted st; log := log st |}.

Definition set_effect (dep : bool) (h : option positive) (st : State) : State :=
  {| refreshing := refreshing st; refreshStatus := refreshStatus st;
     error := error st; effect_refreshing := dep;
     effect_timer := h; timers := timers st;
     inflight := inflight st; fetching := fetching st;
     timeouts := timeouts st; mounted := mounted st; log := log st |}.

Definition drop_request (i : nat) (st : State) : State :=
  {| refreshing := refreshing st; refreshStatus := refreshStatus st;
     error := error st; effect_refreshing := effect_refreshing st;
     effect_timer := effect_timer st; timers := timers st;
     inflight := delete i (inflight st); fetching := fetching st;
     timeouts := timeouts st; mounted := mounted st; log := log st |}.

Definition set_unmounted (st : State) : State :=
  {| refreshing := refreshing st; refreshStatus := refreshStatus st;
     error := error st; effect_refreshing := effect_refreshing st;
     effect_timer := effect_timer st; timers := timers st;
     inflight := inflight st; fetching := fetching st;
     timeouts := timeouts st; mounted := false; log := log st |}.

(** [fetchData()], up to its [await]: the page's load of the table.  It
    sets the busy flag, clears the error message ([setError(null)]) and
    sends its three requests at once ([Promise.all]).  What the model keeps
    of it is the call, the cleared message and the requests in flight. *)
Definition fetchData (st : State) : State :=
  emit call_fetchData
    {| refreshing := refreshing st; refreshStatus := refreshStatus st;
       error := if mounted st then None else error st;
       effect_refreshing := effect_refreshing st;
       effect_timer := effect_timer st; timers := timers st;
       inflight := inflight st; fetching := S (fetching st);
       timeouts := timeouts st; mounted := mounted st; log := log st |}.

(** The rest of [fetchData()]: when all three requests are fulfilled the
    page stores what they returned; when one is rejected it stores the
    error's message ([setError((e as Error).message)]); in both cases it
    clears the busy flag.  No cancellation flag is tested. *)
Definition fetchData_rest (failure : option string) (st : State) : State :=
  match fetching st with
  | 0 => st
  | S n =>
      emit (call_fetchData_rest failure)
        {| refreshing := refreshing st; refreshStatus := refreshStatus st;
           error := match failure with
                    | Some msg => if mounted st then Some msg else error st
                    | None => error st
                    end;
           effect_refreshing := effect_refreshing st;
           effect_timer := effect_timer st; timers := timers st;
           inflight := inflight st; fetching := n;
           timeouts := timeouts st; mounted := mounted st; log := log st |}
  end.

(** [setTimeout(fetchData, ms)]: one more one-shot timer is pending. *)
Definition setTimeout_fetchData (ms : Z) (st : State) : State :=
  emit (call_setTimeout_fetchData ms)
    {| refreshing := refreshing st; refreshStatus := refreshStatus st;
       error := error st; effect_refreshing := effect_refreshing st;
       effect_timer := effect_timer st; timers := timers st;
       inflight := inflight st; fetching := fetching st;
       timeouts := S (timeouts st); mounted := mounted st; log := log st |}.

(** A pending one-shot timer fires and calls [fetchData]; nothing ever
    cancels it, the unmount included. *)
Definition timeout (st : State) : State :=
  match timeouts st with
  | 0 => st
  | S n =>
      fetchData
        {| refreshing := refreshing st; refreshStatus := refreshStatus st;
           error := error st; effect_refreshing := effect_refreshing st;
           effect_timer := effect_timer st; timers := timers st;
           inflight := inflight st; fetching := fetching st;
           timeouts := n; mounted := mounted st; log := log st |}
  end.

(** The poll effect's cleanup, [() => clearInterval(id)], if the last run
    of the effect returned one. *)
Definition cleanup (st : State) : State :=
  set_timers (Timers.clearInterval (effect_timer st) (timers st)) st.

(** The poll effect's body:
    [if (!refreshing) return; const id = setInterval(..., 1500);
     return () => clearInterval(id);] *)
Definition effect (st : State) : State :=
  if refreshing st then
    let '(id, tb) := Timers.setInterval 1500 (timers st) in
    set_effect true (Some id) (set_timers tb st)
  else set_effect false None st.

(** Cleanup, then the effect again. *)
Definition rerun_effect (st : State) : State := effect (cleanup st).

(** React after a handler has run: the poll effect runs again when
    [refreshing] differs from the value it last saw. *)
Definition commit (st : State) : State :=
  if mounted st && negb (bool_decide (refreshing st = effect_refreshing st))
  then rerun_effect st
  else st.

(** [handleRefresh()], up to its first [await]. *)
Definition handleRefresh (st : State) : State :=
  suspend AwaitRefresh
    (emit call_refresh (setError None (setRefreshing true st))).

(** The callback of timer [id], up to its [await]. *)
Definition poll (id : positive) (st : State) : State :=
  suspend (AwaitPoll id) (emit call_refreshStatus st).

(** The continuation of a suspended function; [None] when the reply is not
    one the request can get.  Neither function has a [try]. *)
Definition resume (k : Await) (r : Reply) (st : State) : option State :=
  match k, r with
  | AwaitRefresh, Accepted =>
      Some (suspend AwaitFirstStatus (emit call_refreshStatus st))
  | AwaitFirstStatus, StatusBody s => Some (setRefreshStatus s st)
  | AwaitPoll id, StatusBody s =>
      let st := setRefreshStatus s st in
      if running s then Some st
      else
        let st := setRefreshing false st in
        let st := set_timers (Timers.clearInterval (Some id) (timers st)) st in
        Some (setTimeout_fetchData 500 st)
  | _, Rejected => Some (emit unhandled_rejection st)
  | _, _ => None
  end.

(** One event; an event that cannot occur leaves the state as it is.  The
    button is disabled while [refreshing].  A change of the filters gives
    [fetchData] a new identity, so both effects that depend on it run: the
    one calls [fetchData()], the other restarts the poll timer. *)
Definition step (st : State) (e : Event) : State :=
  match e with
  | ClickRefresh =>
      if mounted st && negb (refreshing st)
      then commit (handleRefresh st) else st
  | FiltersChanged =>
      if mounted st then rerun_effect (fetchData st) else st
  | Tick id =>
      if Timers.is_live id (timers st) then commit (poll id st) else st
  | Settle i r =>
      match inflight st !! i with
      | Some k =>
          match resume k r (drop_request i st) with
          | Some st' => commit st'
          | None => st
          end
      | None => st
      end
  | Timeout => commit (timeout st)
  | FetchSettled failure => commit (fetchData_rest failure st)
  | Unmount =>
      if mounted st then set_unmounted (cleanup st) else st
  end.

Definition run (st : State) (evs : list Event) : State :=
  fold_left step evs st.

#[global] Instance RefreshStatus_eq_dec : EqDecision RefreshStatus.
Proof. solve_decision. Defined.
#[global] Instance refresh_call_eq_dec : EqDecision Call.
Proof. solve_decision. Defined.

Definition calls_since (st0 st1 : State) : list Call :=
  drop (length (log st0)) (log st1).

Definition count (c : Call) (l : list Call) : nat :=
  length (filter (λ x, x = c) l).

(** *** States used to state properties *)

(** The poll effect has run for the current value of [refreshing]. *)
Definition stable (st : State) : Prop :=
  mounted st = true → effect_refreshing st = refreshing st.

(** A page at rest: mounted, not refreshing, nothing in flight, no timer. *)
Definition resting (rs : option RefreshStatus) (err : option string)
    (nx : positive) (lg : list Call) : State :=
  {| refreshing := false; refreshStatus := rs; error := err;
     effect_refreshing := false; effect_timer := None;
     timers := {| Timers.live := ∅; Timers.next := nx |};
     inflight := []; fetching := 0; timeouts := 0; mounted := true;
     log := lg |}.

(** A page that is refreshing: the poll effect has set timer [t]; the
    requests [fl] of the handler are in flight. *)
Definition polling (t : positive) (rs : option RefreshStatus)
    (err : option string) (fl : list Await) (nx : positive) (lg : list Call)
    : State :=
  {| refreshing := true; refreshStatus := rs; error := err;
     effect_refreshing := true; effect_timer := Some t;
     timers := {| Timers.live := {[t := 1500%Z]}; Timers.next := nx |};
     inflight := fl; fetching := 0; timeouts := 0; mounted := true;
     log := lg |}.

(** A start attempt whose trigger succeeds and whose status fetch yields
    [r]; [n] requests were in flight before it. *)
Definition attempt (n : nat) (r : RefreshStatus) : list Event :=
  [ClickRefresh; Settle n Accepted; Settle n (StatusBody r)].

(** The state with [f] runs of [fetchData] under way and [n] one-shot
    timers pending. *)
Definition busy (f n : nat) (st : State) : State :=
  {| refreshing := refreshing st; refreshStatus := refreshStatus st;
     error := error st; effect_refreshing := effect_refreshing st;
     effect_timer := effect_timer st; timers := timers st;
     inflight := inflight st; fetching := f; timeouts := n;
     mounted := mounted st; log := log st |}.

(** Only the timer of the poll effect's last run is live. *)
Definition owns_timers (st : State) : Prop :=
  ∀ id, is_Some (Timers.live (timers st) !! id) → effect_timer st = Some id.

End Dashboard.

(* ================================================================= *)
(** ** Sample data *)

Module Examples.

Definition results_status (p : AutoCheck.Phase) : AutoCheck.ResultsStatus :=
  {| AutoCheck.status := p;
     AutoCheck.game_date := Some "2025-01-14";
     AutoCheck.started_at := Some "2025-01-15T09:00:00";
     AutoCheck.finished_at :=
       match p with
       | AutoCheck.done | AutoCheck.error => Some "2025-01-15T09:00:07"
       | _ => None
       end;
     AutoCheck.checked := 12; AutoCheck.hit := 7; AutoCheck.miss := 4;
     AutoCheck.no_data := 1; AutoCheck.slips_resolved := 2;
     AutoCheck.error_message := None |}.

Definition ladder_status (p : Ladder.Phase) (graded : nat) : Ladder.LadderStatus :=
  {| Ladder.running_flag := bool_decide (p = Ladder.running);
     Ladder.started_at := Some "2025-01-15T18:30:00";
     Ladder.finished_at := None;
     Ladder.status := p;
     Ladder.props_graded := graded;
     Ladder.error_message := None |}.

Definition refresh_status (r : bool) (graded : nat) : Dashboard.RefreshStatus :=
  {| Dashboard.running := r;
     Dashboard.started_at := Some "2025-01-15T18:00:00";
     Dashboard.finished_at := None;
     Dashboard.status := if r then "running" else "done";
     Dashboard.props_graded := graded; Dashboard.props_total := 100;
     Dashboard.run_id := Some 3; Dashboard.error_message := None |}.

Definition leg (player : string) : Ladder.SlipLeg :=
  {| Ladder.leg_player_name := player; Ladder.leg_market_label := "Points";
     Ladder.leg_line := 24 # 1; Ladder.leg_value_score := 71 # 1 |}.

Definition slip (tag : option Ladder.SlipType) (players : list string) : Ladder.Slip :=
  {| Ladder.combined_odds := 2 # 1; Ladder.avg_value_score := 71 # 1;
     Ladder.has_correlated_legs := false; Ladder.summary := "";
     Ladder.legs := leg <$> players; Ladder.type := tag |}.

(** A ladder result as the endpoint tags it. *)
Definition ladder_slips : list Ladder.Slip :=
  [slip (Some Ladder.multi) ["Jokic"; "Murray"];
   slip (Some Ladder.single) ["Tatum"];
   slip (Some Ladder.multi) ["Brunson"; "Hart"; "Towns"];
   slip (Some Ladder.single) ["Edwards"]].



Definition row (player market : string) (score : option Q)
    (result : option PropResults.LegResult) : PropResults.PropResult :=
  {| PropResults.player_name := player; PropResults.market_label := market;
     PropResults.value_score := score; PropResults.leg_result := result |}.

Definition pending_row : PropResults.PropResult :=
  row "Jokic" "Points" (Some (64 # 1)) None.

Definition unscored_row : PropResults.PropResult :=
  row "Jokic" "Points" None (Some PropResults.MISS).

Definition rows : list PropResults.PropResult :=
  [row "Jokic" "Points" (Some (80 # 1)) (Some PropResults.HIT);
   pending_row;
   row "Murray" "Assists" (Some (61 # 2)) (Some PropResults.MISS);
   unscored_row].

End Examples.

(* ================================================================= *)
(** ** Comparing numbers *)

Module Order.

(** [x <= y] on numbers; [NaN] compares with nothing. *)
Definition le (x y : JS.number) : Prop :=
  match x, y with
  | JS.Fin a, JS.Fin b => (a <= b)%Q
  | JS.NaN, _ | _, JS.NaN => False
  | JS.NegInf, _ | _, JS.PosInf => True
  | _, _ => False
  end.

End Order.

(* ================================================================= *)
(** ** app/prop-results/page.tsx: the page's summary line *)

Module ResultsPage.
Import PropResults.

(** [r.leg_result === "MISS"] *)
Definition is_miss (r : PropResult) : Prop := leg_result r = Some MISS.

#[global] Instance is_miss_dec r : Decision (is_miss r).
Proof. unfold is_miss. apply _. Defined.

(** The summary stats of [PropResultsPage]. *)
Record Stats := {
  total : nat;                  (* [rows.length] *)
  graded : nat;                 (* [rows.filter(r => r.leg_result != null).length] *)
  hits : nat;                   (* [rows.filter(r => r.leg_result === "HIT").length] *)
  misses : nat;                 (* [rows.filter(r => r.leg_result === "MISS").length] *)
  pending : Z;                  (* [total - graded] *)
  hitPct : JS.number;           (* [graded ? Math.round(hits / graded * 100) : 0] *)
}.

Definition stats (rows : list PropResult) : Stats :=
  let total := length rows in
  let graded := length (filter is_graded rows) in
  let hits := length (filter is_hit rows) in
  let misses := length (filter is_miss rows) in
  {| total := total; graded := graded; hits := hits; misses := misses;
     pending := (Z.of_nat total - Z.of_nat graded)%Z;
     hitPct := rate hits graded |}.

(** *** What the market rollup is meant to be, label by label *)

(** The graded rows of one market label, in input order. *)
Definition market_rows (m : string) (rows : list PropResult) : list PropResult :=
  filter (λ r, market_label r = m ∧ is_graded r) rows.

(** The entry of label [m], written from its graded rows [g]. *)
Definition market_entry (m : string) (g : list PropResult) : MarketStat :=
  {| ms_label := m;
     ms_total := length g;
     ms_hits := length (filter is_hit g);
     ms_pct := rate (length (filter is_hit g)) (length g) |}.

(** The accumulator of one label, followed through the loop on its own. *)
Definition market_bump (o : option MarketAcc) (r : PropResult) : option MarketAcc :=
  let s := default {| ma_total := 0; ma_hits := 0 |} o in
  Some {| ma_total := S (ma_total s);
          ma_hits := if decide (is_hit r) then S (ma_hits s) else ma_hits s |}.

(** The order [computePlayerStats] sorts by: more graded rows first, and
    among entries with equally many, the higher hit rate first. *)
Definition player_before (a b : PlayerStat) : Prop :=
  ps_total b < ps_total a ∨
  (ps_total a = ps_total b ∧ Order.le (ps_hit_pct b) (ps_hit_pct a)).

(** The character [|] (code 124). *)
Definition bar : Ascii.ascii := Ascii.ascii_of_nat 124.

(** No vertical bar occurs in the string. *)
Fixpoint no_bar (s : string) : bool :=
  match s with
  | EmptyString => true
  | String c s' => negb (Ascii.eqb c bar) && no_bar s'
  end.

(** The rows of one player and market, in input order. *)
Definition pair_rows (p m : string) (rows : list PropResult) : list PropResult :=
  filter (λ r, player_name r = p ∧ market_label r = m) rows.

End ResultsPage.

(* ================================================================= *)
(** ** The player rollup as it is described

    What the rollup of [computePlayerStats] is said to hold for a row,
    written down without the page's helper functions, to compare the code
    with. *)

Module Expected.
Import PropResults.

(** The score a row enters the mean with: its [value_score] (as a
    double), and 0 when it has none. *)
Definition score (r : PropResult) : JS.number :=
  match value_score r with
  | Some v => JS.literal v
  | None => JS.Fin 0
  end.

(** The scores of the rows [g] added to [acc] one after the other, in row
    order, in double precision. *)
Fixpoint add_up (acc : JS.number) (g : list PropResult) : JS.number :=
  match g with
  | [] => acc
  | r :: g' => add_up (JS.add acc (score r)) g'
  end.

(** The mean score of the rows [g], graded and pending alike, rounded to a
    whole number. *)
Definition mean (g : list PropResult) : JS.number :=
  JS.round (JS.div (add_up (JS.Fin 0) g) (JS.of_nat (length g))).

(** The hit rate in percent, rounded to a whole number: hits over graded
    rows, and 0 when no row is graded. *)
Definition hit_rate (hits graded : nat) : JS.number :=
  match graded with
  | 0 => JS.Fin 0
  | S _ => JS.round (JS.mul (JS.div (JS.of_nat hits) (JS.of_nat graded))
                            (JS.Fin 100))
  end.

(** The rows that share a group with [r]: the page joins player name and
    market label with ["||"] and groups by the joined string. *)
Definition grouped_with (r r' : PropResult) : Prop :=
  player_name r' +:+ "||" +:+ market_label r'
  = player_name r +:+ "||" +:+ market_label r.

(** The rows of the player and market of [r]. *)
Definition same_pair (r r' : PropResult) : Prop :=
  player_name r' = player_name r ∧ market_label r' = market_label r.

#[global] Instance grouped_with_dec r r' : Decision (grouped_with r r').
Proof. unfold grouped_with. apply _. Defined.
#[global] Instance same_pair_dec r r' : Decision (same_pair r r').
Proof. unfold same_pair. apply _. Defined.

End Expected.

(* ================================================================= *)
(** ** app/ladder/page.tsx: the cards and the start button *)

Module LadderCards.
Import Ladder.

(** The argument of [setExpanded] in a card's "View detail" button:
    [isExpanded ? null : cardKey]. *)
Definition toggle (expanded : option Z) (cardKey : Z) : option Z :=
  if isExpanded expanded cardKey then None else Some cardKey.

(** Every card the page renders: the singles, then the multis. *)
Definition cards (slips : list Slip) : list (Z * Slip) :=
  single_cards slips ++ multi_cards slips.

(** The cards that show their detail. *)
Definition open_cards (expanded : option Z) (slips : list Slip) : list (Z * Slip) :=
  filter (λ c, isExpanded expanded c.1 = true) (cards slips).

(** A request of [runLadder]. *)
Definition is_attempt (k : Await) : Prop := k = RunTrigger ∨ k = RunStatus.

#[global] Instance ladder_await_eq_dec : EqDecision Await.
Proof. solve_decision. Defined.

#[global] Instance is_attempt_dec k : Decision (is_attempt k).
Proof. unfold is_attempt. apply _. Defined.

(** The start attempts that are under way. *)
Definition attempts_in_flight (st : State) : nat :=
  length (filter is_attempt (inflight st)).

(** No timer but the one in [pollRef] is live, and none at all once the
    page is unmounted. *)
Definition timers_kept (st : State) : Prop :=
  owns_timers st ∧ (mounted st = false → Timers.live (timers st) = ∅).

(** At most one start attempt is under way, and on a mounted page
    [triggering] says whether one is. *)
Definition one_attempt (st : State) : Prop :=
  attempts_in_flight st ≤ 1 ∧
  (mounted st = true → (triggering st = true ↔ attempts_in_flight st = 1)).

End LadderCards.

(* ================================================================= *)
(** ** app/page.tsx: the refresh loop's schedules and the props table *)

Module RefreshLoop.
Import Dashboard.

(** No timer but the one of the poll effect's last run is live, and none
    at all once the page is unmounted. *)
Definition timers_kept (st : State) : Prop :=
  owns_timers st ∧ (mounted st = false → Timers.live (timers st) = ∅).

(** One poll round: timer [t] fires and its status request is answered
    with [r] before anything else happens. *)
Definition round (t : positive) (r : RefreshStatus) : list Event :=
  [Tick t; Settle 0 (StatusBody r)].

Definition rounds (t : positive) (rs : list RefreshStatus) : list Event :=
  rs ≫= round t.

End RefreshLoop.

Module DashboardTable.

(** Of [Prop] (lib/api.ts), the fields the table can be sorted by. *)
Record PropRow := {
  player_name : string;
  line : Q;
  over_odds : Q;
  value_score : Q;
}.

(** [sortKey] *)
Inductive SortKey := by_value_score | by_line | by_over_odds | by_player_name.

(** [p[sortKey]] for the numeric keys. *)
Definition field (k : SortKey) (p : PropRow) : Q :=
  match k with
  | by_line => line p
  | by_over_odds => over_odds p
  | _ => value_score p
  end.

Section Sorted.
(** [String.prototype.localeCompare] depends on the locale of the browser. *)
Variable localeCompare : string → string → JS.number.

(** The comparator:
    [sortKey === "player_name" ? a.player_name.localeCompare(b.player_name)
     : sortKey === "line" || sortKey === "over_odds" ? a[sortKey] - b[sortKey]
     : b[sortKey] - a[sortKey]] *)
Definition order (sortKey : SortKey) (a b : PropRow) : JS.number :=
  match sortKey with
  | by_player_name => localeCompare (player_name a) (player_name b)
  | by_line | by_over_odds =>
      JS.sub (JS.Fin (field sortKey a)) (JS.Fin (field sortKey b))
  | by_value_score =>
      JS.sub (JS.Fin (field sortKey b)) (JS.Fin (field sortKey a))
  end.

(** [const sorted = [...props].sort(...)] *)
Definition sorted (sortKey : SortKey) (props : list PropRow) : list PropRow :=
  JS.sort (order sortKey) props.

End Sorted.

(** The order the table is in for a numeric key: score falling, line and
    odds rising. *)
Definition in_order (sortKey : SortKey) (a b : PropRow) : Prop :=
  match sortKey with
  | by_value_score => (value_score b <= value_score a)%Q
  | by_line => (line a <= line b)%Q
  | by_over_odds => (over_odds a <= over_odds b)%Q
  | by_player_name => True
  end.

End DashboardTable.

(* ================================================================= *)
(** ** The two copies of autoCheck side by side *)

Module Copies.
Import AutoCheck.

(** Two states show the same page: they agree in everything but the
    content of [checkPollRef]. *)
Definition same_page (s1 s2 : State) : Prop :=
  checkStatus s1 = checkStatus s2 ∧ checking s1 = checking s2 ∧
  timers s1 = timers s2 ∧ inflight s1 = inflight s2 ∧
  loads s1 = loads s2 ∧ mounted s1 = mounted s2 ∧ log s1 = log s2.

(** Every handle in use was handed out before [next]. *)
Definition handed_out (tb : Timers.table) : Prop :=
  ∀ id, is_Some (Timers.live tb !! id) → (id < Timers.next tb)%positive.

(** The refs of the two copies: the same, or the copy that resets its ref
    holds [null] where the other still holds a handle that is dead. *)
Definition refs_agree (r1 r2 : option positive) (tb : Timers.table) : Prop :=
  (∀ t, r2 = Some t → (t < Timers.next tb)%positive) ∧
  (r1 = r2 ∨ (r1 = None ∧ ∃ t, r2 = Some t ∧ Timers.live tb !! t = None)).

(** What the two copies keep in step with each other. *)
Definition in_step (s1 s2 : State) : Prop :=
  same_page s1 s2 ∧ handed_out (timers s2) ∧
  refs_agree (checkPollRef s1) (checkPollRef s2) (timers s2).

End Copies.

(* ================================================================= *)
(** ** app/analytics/page.tsx: the factor summary *)

Module AnalyticsPage.

(** A row of [factor_calibration[name]] (lib/api.ts), as the server's JSON
    gives it; the page computes with the doubles the three numbers are
    parsed to ([JS.literal]). *)
Record Bucket := { bucket : Q; total : Q; hits : Q }.

Definition FACTOR_ORDER : list string :=
  ["Consistency"; "vs Opponent"; "Home/Away"; "Injury";
   "Team Context"; "Season Avg"; "Blowout Risk"; "Volume & Usage"].

Record FactorRow := {
  name : string;
  overall_pct : JS.number;
  overall_n : JS.number;
  high_pct : JS.number;
  high_n : JS.number;
}.

(** [xs.reduce((s, b) => s + b.f, 0)]: added from the left, each sum
    rounded to a double. *)
Definition sum (f : Bucket → Q) (xs : list Bucket) : JS.number :=
  fold_left (λ s b, JS.add s (JS.literal (f b))) xs (JS.Fin 0).

(** [b.bucket >= 60] *)
Definition is_high (b : Bucket) : Prop :=
  JS.ge (JS.literal (bucket b)) (JS.Fin 60) = true.

#[global] Instance is_high_dec b : Decision (is_high b).
Proof. unfold is_high. apply _. Defined.

(** The body of [FACTOR_ORDER.map(name => ...)].  [factor_calibration] is
    the object the server sent, as the list of its properties; none of
    the names in [FACTOR_ORDER] is an inherited property name, so
    [factor_calibration[name] ?? []] reads an own property or gives
    [[]]. *)
Definition factorRow (factor_calibration : list (string * list Bucket))
    (name : string) : FactorRow :=
  let buckets := default [] (JS.get name factor_calibration) in
  let highBuckets := filter is_high buckets in
  let totalHigh := sum total highBuckets in
  let hitsHigh := sum hits highBuckets in
  let allTotal := sum total buckets in
  let allHits := sum hits buckets in
  {| name := name;
     overall_pct := Analytics.pct allHits allTotal;
     overall_n := allTotal;
     high_pct := Analytics.pct hitsHigh totalHigh;
     high_n := totalHigh |}.

Definition factorSummary (factor_calibration : list (string * list Bucket))
    : list FactorRow :=
  factorRow factor_calibration <$> FACTOR_ORDER.

(** A bucket as the server counts it: no more hits than picks. *)
Definition counted (b : Bucket) : Prop := (0 <= hits b)%Q ∧ (hits b <= total b)%Q.

(** [x] is below [y]: both are sums of counts, doubles that are not
    negative, and [x] is not the greater. *)
Definition below (x y : JS.number) : Prop :=
  match x, y with
  | JS.Fin a, JS.Fin b => (0 <= a /\ JS.nearest a == a /\ JS.nearest b == b /\ a <= b)%Q
  | JS.Fin a, JS.PosInf => (0 <= a /\ JS.nearest a == a)%Q
  | JS.PosInf, JS.PosInf => True
  | _, _ => False
  end.

End AnalyticsPage.

(* ================================================================= *)
(** ** The history page: marking legs and recording an outcome *)

Module OutcomeForm.
Import PropResults.

(** [legResults], a [Record<string, "HIT" | "MISS">] keyed by
    [String(leg.id)], is a [gmap Z LegResult] here: a leg's number stands
    for its string, two numbers having different strings. *)


(** The updater of [toggleLeg(id, result)]:
    [const next = { ...r };
     if (next[String(id)] === result) delete next[String(id)];
     else next[String(id)] = result;
     return next;] *)
Definition toggleLeg (id : Z) (result : LegResult) (r : gmap Z LegResult)
  : gmap Z LegResult :=
  if decide (r !! id = Some result) then delete id r else <[id := result]> r.

(** The third argument of [onSave]:
    [Object.keys(legResults).length ? legResults : undefined] *)
Definition legs_arg (r : gmap Z LegResult) : option (gmap Z LegResult) :=
  if decide (size r = 0) then None else Some r.

End OutcomeForm.

Module MarkOutcome.

Inductive Call :=
| call_setPending (slip : Z) (b : bool)   (* setPending(p => ({ ...p, [slip.id]: b })) *)
| call_recordOutcome (slip : Z)           (* api.recordOutcome(slip.id, ...) *)
| call_load                               (* load() *)
| unhandled_rejection.                    (* markOutcome has no [catch] *)

(** The part of the history page [markOutcome] works on: [pending], and
    the slips whose [recordOutcome] request is in flight. *)
Record State := {
  pending : gmap Z bool;
  inflight : list Z;
  mounted : bool;
  log : list Call;
}.

Inductive Event :=
| Save (slip : Z)                         (* "Save Result" in the form of [slip] *)
| Settle (i : nat) (ok : bool)            (* request [i] is fulfilled or rejected *)
| Unmount.

Definition init : State :=
  {| pending := ∅; inflight := []; mounted := true; log := [] |}.

Definition emit (c : Call) (st : State) : State :=
  {| pending := pending st; inflight := inflight st; mounted := mounted st;
     log := log st ++ [c] |}.

Definition setPending (slip : Z) (b : bool) (st : State) : State :=
  emit (call_setPending slip b)
    {| pending := if mounted st then <[slip := b]> (pending st) else pending st;
       inflight := inflight st; mounted := mounted st; log := log st |}.

(** [disabled={pending[slip.id]}] *)
Definition disabled (slip : Z) (st : State) : bool :=
  bool_decide (pending st !! slip = Some true).

(** [markOutcome(slip, ...)], up to its [await]. *)
Definition markOutcome (slip : Z) (st : State) : State :=
  let st := emit (call_recordOutcome slip) (setPending slip true st) in
  {| pending := pending st; inflight := inflight st ++ [slip];
     mounted := mounted st; log := log st |}.

(** After the [await]: [load()] on success; [finally] in both cases; a
    rejection is not caught. *)
Definition resume (slip : Z) (ok : bool) (st : State) : State :=
  if ok then setPending slip false (emit call_load st)
  else emit unhandled_rejection (setPending slip false st).

Definition drop_request (i : nat) (st : State) : State :=
  {| pending := pending st; inflight := delete i (inflight st);
     mounted := mounted st; log := log st |}.

Definition step (st : State) (e : Event) : State :=
  match e with
  | Save slip =>
      if mounted st && negb (disabled slip st) then markOutcome slip st else st
  | Settle i ok =>
      match inflight st !! i with
      | Some slip => resume slip ok (drop_request i st)
      | None => st
      end
  | Unmount =>
      {| pending := pending st; inflight := inflight st; mounted := false;
         log := log st |}
  end.

Definition run (st : State) (evs : list Event) : State := fold_left step evs st.

(** On the mounted page a slip's button is disabled exactly while its
    request is in flight, and no slip has two requests in flight. *)
Definition one_request_each (st : State) : Prop :=
  NoDup (inflight st) ∧
  (mounted st = true → ∀ slip, disabled slip st = true ↔ slip ∈ inflight st).

End MarkOutcome.

(* ================================================================= *)
(** ** formatDate *)

Module Text.

(** A JavaScript string is a sequence of UTF-16 code units. *)
Definition units := list N.

(** The code units of a string of ASCII characters. *)
Definition ascii (s : string) : units :=
  (λ c, N.of_nat (Ascii.nat_of_ascii c)) <$> String.list_ascii_of_string s.

Definition T : N := 84.        (* "T" *)
Definition space : N := 32.    (* " " *)
Definition dash : N := 8212.   (* the em dash U+2014 *)

(** [s.replace(x, y)] for one-unit strings [x] and [y]: the first
    occurrence only. *)
Fixpoint replace (x y : N) (s : units) : units :=
  match s with
  | [] => []
  | c :: s' => if decide (c = x) then y :: s' else c :: replace x y s'
  end.

(** [function formatDate(s) { return s ? s.slice(0, 16).replace("T", " ") : "—"; }] *)
Definition formatDate (s : units) : units :=
  match s with
  | [] => [dash]
  | _ => replace T space (take 16 s)
  end.

End Text.

(* ================================================================= *)
(** ** bookmakerLabel *)

Module Bookmakers.

(** What [m[b] ?? b] evaluates to: a string, or for a key that names a
    property inherited from [Object.prototype], that property's value,
    which is not a string. *)
Inductive Looked := text (s : string) | inherited (k : string).

(** The table of the copies in the ladder and prop-results pages. *)
Definition labels : list (string * string) :=
  [("paddypower", "Paddy Power"); ("draftkings", "DraftKings");
   ("fanduel", "FanDuel"); ("betmgm", "BetMGM")].

(** The table of the dashboard's copy. *)
Definition dashboard_labels : list (string * string) :=
  [("paddypower", "Paddy Power"); ("draftkings", "DraftKings");
   ("fanduel", "FanDuel"); ("betmgm", "BetMGM"); ("bovada", "Bovada")].

(** [return m[b] ?? b;] *)
Definition lookup_or_self (m : list (string * string)) (b : string) : Looked :=
  match JS.get b m with
  | Some label => text label
  | None => if decide (b ∈ JS.inherited_keys) then inherited b else text b
  end.

Definition bookmakerLabel : string → Looked := lookup_or_self labels.

Definition dashboard_bookmakerLabel : string → Looked :=
  lookup_or_self dashboard_labels.

End Bookmakers.

(* ================================================================= *)
(** ** app/slips/page.tsx: the cards under a leg filter *)

Module SlipsPage.
Import Ladder.

(** [legFilter] *)
Inductive LegFilter := all | two | three | four.

(** [Number(legFilter)] for the three numerals. *)
Definition legs_wanted (f : LegFilter) : nat :=
  match f with two => 2 | three => 3 | four => 4 | all => 0 end.

(** [legFilter === "all" || slip.legs.length === Number(legFilter)] *)
Definition passes (f : LegFilter) (slip : Slip) : Prop :=
  f = all ∨ length (legs slip) = legs_wanted f.

#[global] Instance LegFilter_eq_dec : EqDecision LegFilter.
Proof. solve_decision. Defined.

#[global] Instance passes_dec f slip : Decision (passes f slip).
Proof. unfold passes. apply _. Defined.

(** [legFilter === "all" ? slips
     : slips.filter(s => s.legs.length === Number(legFilter))] *)
Definition filteredSlips (f : LegFilter) (slips : list Slip) : list Slip :=
  match f with
  | all => slips
  | _ => filter (λ s, length (legs s) = legs_wanted f) slips
  end.

(** [slips.map((slip, originalIdx) => ({ slip, originalIdx }))
         .filter(({ slip }) => legFilter === "all" || ...)]:
    the cards, each with the index it saves and expands by. *)
Definition cards (f : LegFilter) (slips : list Slip) : list (nat * Slip) :=
  filter (λ c, passes f c.2) (imap (λ originalIdx slip, (originalIdx, slip)) slips).

End SlipsPage.

(* ================================================================= *)
(** ** The query of the prop-results table *)

Module Query.

(** The value of a search parameter: a string as it is, or [String(n)]
    for a number [n]. *)
Inductive Value := text (s : string) | numeral (n : Q).

(** [qs.set(k, v)] on a [URLSearchParams] that holds no key twice: the
    parameters in the order they were first set. *)
Definition set (k : string) (v : Value) (qs : list (string * Value))
  : list (string * Value) :=
  JS.upsert k v (λ _, v) qs.

(** Truthiness of a string. *)
Definition nonempty (s : string) : bool := negb (bool_decide (s = "")).

(** [if (params?.k) qs.set(k, params.k)] for a string. *)
Definition set_text (k : string) (o : option string) (qs : list (string * Value))
  : list (string * Value) :=
  match o with
  | Some s => if nonempty s then set k (text s) qs else qs
  | None => qs
  end.

(** [if (params?.k != null) qs.set(k, String(params.k))] for a number. *)
Definition set_number (k : string) (o : option Q) (qs : list (string * Value))
  : list (string * Value) :=
  match o with Some n => set k (numeral n) qs | None => qs end.

(** [if (params?.k) qs.set(k, "true")] *)
Definition set_flag (k : string) (o : option bool) (qs : list (string * Value))
  : list (string * Value) :=
  match o with Some true => set k (text "true") qs | _ => qs end.

(** [if (params?.k != null) qs.set(k, String(params.k))] for a boolean. *)
Definition set_boolean (k : string) (o : option bool) (qs : list (string * Value))
  : list (string * Value) :=
  match o with
  | Some b => set k (text (if b then "true" else "false")) qs
  | None => qs
  end.

(** The argument of [api.propResults]. *)
Record Params := {
  market : option string; player : option string;
  date_from : option string; date_to : option string;
  min_score : option Q; result : option string;
  side : option string; limit : option Q;
  picks_only : option bool; active_only : option bool;
  graded_only : option bool;
}.

(** The search parameters [api.propResults(params)] builds (lib/api.ts). *)
Definition propResults (p : Params) : list (string * Value) :=
  set_boolean "graded_only" (graded_only p)
    (set_flag "active_only" (active_only p)
      (set_flag "picks_only" (picks_only p)
        (set_number "limit" (limit p)
          (set_text "side" (side p)
            (set_text "result" (result p)
              (set_number "min_score" (min_score p)
                (set_text "date_to" (date_to p)
                  (set_text "date_from" (date_from p)
                    (set_text "player" (player p)
                      (set_text "market" (market p) [])))))))))).

(** The filter state of [PropResultsPage]. *)
Record Filters := {
  dateFrom : string; dateTo : string; playerFilter : string;
  marketFilter : string; minScore : Q; sideFilter : string;
  resultFilter : string;
  picksOnly : bool; activeOnly : bool; gradedOnly : bool;
}.

(** [x || undefined] for a string. *)
Definition or_undefined (s : string) : option string :=
  if nonempty s then Some s else None.

(** The object [load()] passes to [api.propResults]. *)
Definition load_params (f : Filters) : Params :=
  {| date_from := or_undefined (dateFrom f);
     date_to := or_undefined (dateTo f);
     player := or_undefined (playerFilter f);
     market := or_undefined (marketFilter f);
     min_score := if Qle_bool (minScore f) 0 then None else Some (minScore f);
     side := or_undefined (sideFilter f);
     result := or_undefined (resultFilter f);
     picks_only := if picksOnly f then Some true else None;
     active_only := if activeOnly f then Some true else None;
     graded_only := Some (gradedOnly f);
     limit := Some (500 # 1) |}.

(** The query [load()] sends. *)
Definition load_query (f : Filters) : list (string * Value) :=
  propResults (load_params f).

(** No key occurs twice and no value is the empty string. *)
Definition filled (qs : list (string * Value)) : Prop :=
  NoDup qs.*1 ∧ Forall (λ e, e.2 ≠ text "") qs.

End Query.

(* ================================================================= *)
(** ** Replies that end a loop *)

Module Terminal.

(** How many elements of a list pass a test. *)
Definition occurrences {A : Type} (p : A → bool) (l : list A) : nat :=
  length (filter (λ x, p x = true) l).

(** A status request of the results check is answered [done]. *)
Definition check_done (e : AutoCheck.Event) : bool :=
  match e with
  | AutoCheck.Settle _ (Some r) => bool_decide (AutoCheck.status r = AutoCheck.done)
  | _ => false
  end.

(** A status request of the ladder is answered [done]. *)
Definition ladder_done (e : Ladder.Event) : bool :=
  match e with
  | Ladder.Settle _ (Ladder.StatusBody r) =>
      bool_decide (Ladder.status r = Ladder.done)
  | _ => false
  end.

(** A status request of the refresh is answered "not running". *)
Definition refresh_over (e : Dashboard.Event) : bool :=
  match e with
  | Dashboard.Settle _ (Dashboard.StatusBody r) => negb (Dashboard.running r)
  | _ => false
  end.

End Terminal.

(* ================================================================= *)
(** * Properties *)

(** ** Rounding to binary64 *)

Section Rounding.
Import JS.
Local Open Scope Q_scope.

Lemma pow2_pos e : 0 < pow2 e.
Proof. unfold pow2. apply Qpower_0_lt. reflexivity. Qed.

Lemma pow2_plus a b : pow2 (a + b) == pow2 a * pow2 b.
Proof. unfold pow2. apply Qpower_plus. discriminate. Qed.

Lemma pow2_succ a : pow2 (a + 1) == 2 * pow2 a.
Proof. rewrite pow2_plus. change (pow2 1) with (2#1). ring. Qed.

Lemma pow2_le a b : (a <= b)%Z -> pow2 a <= pow2 b.
Proof.
  intros H. unfold pow2. apply Qpower_le_compat_l; [exact H|]. discriminate.
Qed.

Lemma pow2_lt a b : (a < b)%Z -> pow2 a < pow2 b.
Proof.
  intros H. replace b with (a + (b - a))%Z by lia.
  rewrite pow2_plus. 
  assert (1 < pow2 (b - a)).
  { replace (b - a)%Z with ((b - a - 1) + 1)%Z by lia. rewrite pow2_succ.
    assert (1 <= pow2 (b - a - 1)).
    { change 1 with (pow2 0). apply pow2_le. lia. }
    lra. }
  pose proof (pow2_pos a). nra.
Qed.

Lemma pow2_le_inv a b : pow2 a <= pow2 b -> (a <= b)%Z.
Proof.
  intros H. destruct (Z.le_gt_cases a b) as [|Hlt]; [done|].
  apply pow2_lt in Hlt. lra.
Qed.

Lemma pow2_Z (n : Z) : (0 <= n)%Z -> pow2 n == inject_Z (2 ^ n).
Proof.
  intros H. unfold pow2. rewrite Zpower_Qpower by exact H. reflexivity.
Qed.


Lemma rne_comp x y : x == y -> rne x = rne y.
Proof.
  intros E. unfold rne. rewrite (Qfloor_comp _ _ E).
  assert ((x - inject_Z (Qfloor y) ?= 1 # 2) = (y - inject_Z (Qfloor y) ?= 1 # 2)) as ->.
  { apply Qcompare_comp; [|reflexivity]. by rewrite E. }
  done.
Qed.

Lemma rne_floor x : (Qfloor x <= rne x <= Qfloor x + 1)%Z.
Proof.
  unfold rne. destruct (_ ?= _); [destruct (Z.even _)| |]; lia.
Qed.

Lemma rne_Z (z : Z) : rne (inject_Z z) = z.
Proof.
  unfold rne. rewrite Qfloor_Z.
  destruct (Qcompare_spec (inject_Z z - inject_Z z) (1 # 2)) as [C|C|C];
    [exfalso; lra|done|exfalso; lra].
Qed.

Lemma rne_mono x y : x <= y -> (rne x <= rne y)%Z.
Proof.
  intros H. pose proof (Qfloor_resp_le _ _ H) as Hf.
  destruct (Z.eq_dec (Qfloor x) (Qfloor y)) as [E|E].
  - unfold rne. rewrite E.
    destruct (Qcompare_spec (x - inject_Z (Qfloor y)) (1 # 2)) as [Cx|Cx|Cx];
      destruct (Qcompare_spec (y - inject_Z (Qfloor y)) (1 # 2)) as [Cy|Cy|Cy];
      try destruct (Z.even _); try lia; exfalso; lra.
  - pose proof (rne_floor x). pose proof (rne_floor y). lia.
Qed.

Lemma rne_near x : inject_Z (rne x) - (1 # 2) <= x /\ x <= inject_Z (rne x) + (1 # 2).
Proof.
  pose proof (Qfloor_le x) as H1. pose proof (Qlt_floor x) as H2.
  rewrite inject_Z_plus in H2. change (inject_Z 1) with 1 in H2.
  unfold rne. destruct (Qcompare_spec (x - inject_Z (Qfloor x)) (1 # 2)) as [C|C|C].
  - destruct (Z.even _); rewrite ?inject_Z_plus; change (inject_Z 1) with 1;
      split; lra.
  - split; lra.
  - rewrite inject_Z_plus. change (inject_Z 1) with 1. split; lra.
Qed.

(** ilog2 *)
Lemma ilog2_spec q : 0 < q -> pow2 (ilog2 q) <= q /\ q < pow2 (ilog2 q + 1).
Proof.
  intros Hq. destruct q as [n d]. unfold ilog2. cbn [Qnum Qden].
  assert (0 < n)%Z as Hn.
  { unfold Qlt in Hq. cbn in Hq. lia. }
  set (a := Z.log2 n). set (b := Z.log2 (Z.pos d)).
  destruct (Z.log2_spec n Hn) as [Ha1 Ha2]. fold a in Ha1, Ha2.
  destruct (Z.log2_spec (Z.pos d) (Pos2Z.is_pos d)) as [Hb1 Hb2]. fold b in Hb1, Hb2.
  assert (0 <= a)%Z as Ha0 by apply Z.log2_nonneg.
  assert (0 <= b)%Z as Hb0 by apply Z.log2_nonneg.
  assert (n # d == inject_Z n / inject_Z (Z.pos d)) as Enq by apply Qmake_Qdiv.
  assert (0 < inject_Z (Z.pos d)) as Hdpos.
  { change 0 with (inject_Z 0). rewrite <- Zlt_Qlt. lia. }
  assert (pow2 a <= inject_Z n) as Pa1.
  { rewrite pow2_Z by done. by rewrite <- Zle_Qle. }
  assert (inject_Z n < pow2 (a + 1)) as Pa2.
  { rewrite pow2_Z by lia. rewrite <- Zlt_Qlt. by rewrite <- Z.add_1_r in Ha2. }
  assert (pow2 b <= inject_Z (Z.pos d)) as Pb1.
  { rewrite pow2_Z by done. by rewrite <- Zle_Qle. }
  assert (inject_Z (Z.pos d) < pow2 (b + 1)) as Pb2.
  { rewrite pow2_Z by lia. rewrite <- Zlt_Qlt. by rewrite <- Z.add_1_r in Hb2. }
  assert (pow2 (a - b - 1) < n # d) as Lo.
  { rewrite Enq. apply Qlt_shift_div_l; [done|].
    assert (pow2 a == pow2 (a - b - 1) * pow2 (b + 1)) as E.
    { rewrite <- pow2_plus. by replace (a - b - 1 + (b + 1))%Z with a by lia. }
    pose proof (pow2_pos (a - b - 1)). nra. }
  assert (n # d < pow2 (a - b + 1)) as Hi.
  { rewrite Enq. apply Qlt_shift_div_r; [done|].
    assert (pow2 (a + 1) == pow2 (a - b + 1) * pow2 b) as E.
    { rewrite <- pow2_plus. by replace (a - b + 1 + b)%Z with (a + 1)%Z by lia. }
    pose proof (pow2_pos (a - b + 1)). nra. }
  destruct (Qle_bool (pow2 (a - b)) (n # d)) eqn:T.
  - apply Qle_bool_iff in T. done.
  - assert (n # d < pow2 (a - b)) as T'.
    { apply Qnot_le_lt. intros C. apply Qle_bool_iff in C. congruence. }
    replace (a - b - 1 + 1)%Z with (a - b)%Z by lia. split; [lra|done].
Qed.

Lemma ilog2_unique q e : pow2 e <= q -> q < pow2 (e + 1) -> ilog2 q = e.
Proof.
  intros H1 H2.
  assert (0 < q) as Hq by (pose proof (pow2_pos e); lra).
  destruct (ilog2_spec q Hq) as [S1 S2].
  assert (pow2 e < pow2 (ilog2 q + 1)) as A by lra.
  assert (pow2 (ilog2 q) < pow2 (e + 1)) as B by lra.
  destruct (Z.lt_trichotomy (ilog2 q) e) as [C|[C|C]]; [|done|].
  - assert (pow2 (ilog2 q + 1) <= pow2 e) by (apply pow2_le; lia). lra.
  - assert (pow2 (e + 1) <= pow2 (ilog2 q)) by (apply pow2_le; lia). lra.
Qed.

Lemma ilog2_mono x y : 0 < x -> x <= y -> (ilog2 x <= ilog2 y)%Z.
Proof.
  intros Hx Hxy.
  destruct (ilog2_spec x Hx) as [X1 X2].
  destruct (ilog2_spec y) as [Y1 Y2]; [lra|].
  destruct (Z.le_gt_cases (ilog2 x) (ilog2 y)) as [|C]; [done|].
  assert (pow2 (ilog2 y + 1) <= pow2 (ilog2 x)) by (apply pow2_le; lia). lra.
Qed.


Lemma at_quantum_mono k x y : x <= y -> at_quantum k x <= at_quantum k y.
Proof.
  intros H. unfold at_quantum. pose proof (pow2_pos k) as Hk.
  apply Qmult_le_compat_r; [|lra].
  rewrite <- Zle_Qle. apply rne_mono.
  apply Qmult_le_compat_r; [done|].
  apply Qlt_le_weak, Qinv_lt_0_compat, Hk.
Qed.

Lemma at_quantum_exact k q z : q == inject_Z z * pow2 k -> at_quantum k q == q.
Proof.
  intros E. unfold at_quantum. pose proof (pow2_pos k) as Hk.
  assert (q / pow2 k == inject_Z z) as E'.
  { rewrite E. field. lra. }
  rewrite (rne_comp _ _ E'), rne_Z. by rewrite E.
Qed.

Lemma at_quantum_pow2 k e : (k <= e)%Z -> at_quantum k (pow2 e) == pow2 e.
Proof.
  intros H. apply (at_quantum_exact k _ (2 ^ (e - k))).
  rewrite <- pow2_Z by lia. rewrite <- pow2_plus.
  by replace (e - k + k)%Z with e by lia.
Qed.

Lemma ilog2_comp x y : 0 < x -> x == y -> ilog2 x = ilog2 y.
Proof.
  intros Hx E. destruct (ilog2_spec x Hx) as [H1 H2].
  symmetry. apply ilog2_unique; by rewrite <- E.
Qed.

Lemma quantum_pos x : 0 < x -> quantum x = Z.max (ilog2 x - 52) (-1074).
Proof.
  intros Hx. unfold quantum. f_equal. f_equal.
  apply ilog2_comp; [|apply Qabs_pos; lra].
  rewrite Qabs_pos; lra.
Qed.

Lemma nearest_eq q : nearest q == at_quantum (quantum q) q.
Proof. unfold nearest. apply Qred_correct. Qed.

Lemma nearest_mono_pos x y : 0 < x -> x <= y -> nearest x <= nearest y.
Proof.
  intros Hx Hxy. assert (0 < y) as Hy by lra.
  rewrite !nearest_eq, (quantum_pos x Hx), (quantum_pos y Hy).
  pose proof (ilog2_mono x y Hx Hxy) as He.
  destruct (ilog2_spec x Hx) as [X1 X2]. destruct (ilog2_spec y Hy) as [Y1 Y2].
  set (ex := ilog2 x) in *. set (ey := ilog2 y) in *.
  destruct (Z.eq_dec (Z.max (ex - 52) (-1074)) (Z.max (ey - 52) (-1074))) as [E|E].
  - rewrite E. by apply at_quantum_mono.
  - assert (ex < ey)%Z as Hlt by lia.
    assert (Z.max (ey - 52) (-1074) = ey - 52)%Z as Ey by lia.
    assert (x <= pow2 ey) as Hb.
    { assert (pow2 (ex + 1) <= pow2 ey) by (apply pow2_le; lia). lra. }
    apply Qle_trans with (pow2 ey).
    + rewrite <- (at_quantum_pow2 (Z.max (ex - 52) (-1074)) ey) by lia.
      by apply at_quantum_mono.
    + rewrite <- (at_quantum_pow2 (Z.max (ey - 52) (-1074)) ey) at 1 by lia.
      by apply at_quantum_mono.
Qed.

Lemma at_quantum_zero k q : q == 0 -> at_quantum k q == 0.
Proof.
  intros E. rewrite (at_quantum_exact k q 0); [done|]. rewrite E. ring.
Qed.

Lemma nearest_zero q : q == 0 -> nearest q = 0.
Proof.
  intros E. unfold nearest.
  change 0 with (Qred 0). apply Qred_complete. by apply at_quantum_zero.
Qed.

Lemma nearest_nonneg q : 0 <= q -> 0 <= nearest q.
Proof.
  intros H. rewrite nearest_eq.
  rewrite <- (at_quantum_zero (quantum q) 0) by reflexivity.
  by apply at_quantum_mono.
Qed.

Lemma nearest_mono x y : 0 <= x -> x <= y -> nearest x <= nearest y.
Proof.
  intros Hx Hxy. destruct (Qlt_le_dec 0 x) as [H|H].
  - by apply nearest_mono_pos.
  - rewrite (nearest_zero x) by lra. apply nearest_nonneg. lra.
Qed.

Lemma nearest_comp x y : x == y -> nearest x = nearest y.
Proof.
  intros E. destruct (Qeq_dec x 0) as [Z|NZ].
  - rewrite (nearest_zero x Z), (nearest_zero y); [done|]. by rewrite <- E.
  - unfold nearest. apply Qred_complete.
    assert (quantum x = quantum y) as ->.
    { unfold quantum. f_equal. f_equal. apply ilog2_comp; [|by rewrite E].
      apply Qabs_case; intros H; lra. }
    unfold at_quantum.
    rewrite (rne_comp (x / pow2 (quantum y)) (y / pow2 (quantum y)));
      [reflexivity|by rewrite E].
Qed.


Lemma Qred_inject_Z z : Qred (inject_Z z) = inject_Z z.
Proof.
  unfold Qred, inject_Z.
  pose proof (Z.ggcd_gcd z 1) as Hg. pose proof (Z.ggcd_correct_divisors z 1) as Hd.
  destruct (Z.ggcd z 1) as [g [a b]]. cbn in Hg, Hd.
  rewrite Z.gcd_1_r in Hg. subst g. destruct Hd as [-> Hb].
  assert (b = 1%Z) as -> by lia. cbn. f_equal. lia.
Qed.

(** Whole numbers up to 2^53 are doubles. *)
Lemma nearest_Z (z : Z) : (0 <= z <= 2 ^ 53)%Z -> nearest (inject_Z z) = inject_Z z.
Proof.
  intros [H0 H53]. destruct (Z.eq_dec z 0%Z) as [->|NZ]; [by apply nearest_zero|].
  assert (0 < inject_Z z) as Hpos.
  { change 0 with (inject_Z 0). rewrite <- Zlt_Qlt. lia. }
  rewrite <- (Qred_inject_Z z) at 2. unfold nearest. apply Qred_complete.
  rewrite (quantum_pos _ Hpos).
  destruct (ilog2_spec _ Hpos) as [S1 S2]. set (e := ilog2 (inject_Z z)) in *.
  assert (e <= 53)%Z as He.
  { apply pow2_le_inv. rewrite (pow2_Z 53) by lia.
    apply Qle_trans with (inject_Z z); [done|]. by rewrite <- Zle_Qle. }
  destruct (Z.eq_dec e 53%Z) as [E53|N53].
  - assert (z = 2 ^ 53)%Z as ->.
    { rewrite E53, (pow2_Z 53) in S1 by lia. rewrite <- Zle_Qle in S1. lia. }
    apply (at_quantum_exact _ _ (2 ^ 52)). rewrite E53. reflexivity.
  - set (k := Z.max (e - 52) (-1074)). assert (k <= 0)%Z as Hk by lia.
    apply (at_quantum_exact k _ (z * 2 ^ (- k))).
    rewrite inject_Z_mult, <- pow2_Z by lia.
    rewrite <- Qmult_assoc, <- pow2_plus.
    replace (- k + k)%Z with 0%Z by lia. change (pow2 0) with 1. ring.
Qed.

Lemma nearest_between a b q :
  0 <= a -> nearest a == a -> nearest b == b -> a <= q -> q <= b ->
  a <= nearest q /\ nearest q <= b.
Proof.
  intros H0 Ha Hb H1 H2. split.
  - rewrite <- Ha. by apply nearest_mono.
  - rewrite <- Hb. apply nearest_mono; lra.
Qed.

(** Between two doubles, a result is rounded to a double between them. *)
Lemma round64_between a b q :
  0 <= a -> nearest a == a -> nearest b == b -> b < pow2 1024 ->
  a <= q -> q <= b ->
  exists v, round64 q = Fin v /\ a <= v /\ v <= b.
Proof.
  intros H0 Ha Hb Hmax H1 H2.
  destruct (nearest_between a b q H0 Ha Hb H1 H2) as [L U].
  exists (nearest q). split; [|done]. unfold round64.
  assert (Qle_bool (pow2 1024) (nearest q) = false) as ->.
  { apply not_true_iff_false. rewrite Qle_bool_iff. lra. }
  assert (Qle_bool (nearest q) (- pow2 1024) = false) as ->; [|done].
  apply not_true_iff_false. rewrite Qle_bool_iff.
  pose proof (pow2_pos 1024). lra.
Qed.

Lemma round64_Z (z : Z) :
  (0 <= z <= 2 ^ 53)%Z -> round64 (inject_Z z) = Fin (inject_Z z).
Proof.
  intros Hz. unfold round64. rewrite (nearest_Z z Hz).
  assert (inject_Z z <= inject_Z (2 ^ 53)) as Hle by (rewrite <- Zle_Qle; lia).
  assert (inject_Z (2 ^ 53) < pow2 1024) as Hlt by reflexivity.
  assert (0 <= inject_Z z) as Hpos.
  { change 0 with (inject_Z 0). rewrite <- Zle_Qle. lia. }
  assert (Qle_bool (pow2 1024) (inject_Z z) = false) as ->.
  { apply not_true_iff_false. rewrite Qle_bool_iff. lra. }
  assert (Qle_bool (inject_Z z) (- pow2 1024) = false) as ->; [|done].
  apply not_true_iff_false. rewrite Qle_bool_iff.
  pose proof (pow2_pos 1024). lra.
Qed.

Lemma quantum_min q : (-1074 <= quantum q)%Z.
Proof. unfold quantum. lia. Qed.

Lemma nearest_idem q : 0 <= q -> nearest (nearest q) == nearest q.
Proof.
  intros H0. pose proof (nearest_nonneg q H0) as Hv0.
  destruct (Qlt_le_dec 0 (nearest q)) as [Hv|Hv].
  2: { assert (nearest q == 0) as E0 by lra.
       rewrite (nearest_zero (nearest q) E0). by rewrite E0. }
  destruct (Qlt_le_dec 0 q) as [Hq|Hq].
  2: { rewrite (nearest_zero q) in Hv by lra. lra. }
  pose proof (nearest_eq q) as Ev.
  set (v := nearest q) in *. set (k := quantum q) in *.
  pose proof (quantum_pos q Hq) as Ek. fold k in Ek.
  destruct (ilog2_spec q Hq) as [Q1 Q2]. set (e := ilog2 q) in *.
  set (U := Z.max (e + 1) k).
  assert (v <= pow2 U) as HU.
  { rewrite Ev, <- (at_quantum_pow2 k U) by lia.
    apply at_quantum_mono.
    assert (pow2 (e + 1) <= pow2 U) by (apply pow2_le; lia). lra. }
  rewrite (nearest_eq v), (quantum_pos v Hv).
  destruct (ilog2_spec v Hv) as [V1 V2]. set (e' := ilog2 v) in *.
  destruct (Qlt_le_dec v (pow2 U)) as [Hlt|Hge].
  - assert (e' < U)%Z as He'.
    { destruct (Z.lt_ge_cases e' U) as [|C]; [done|].
      assert (pow2 U <= pow2 e') by (apply pow2_le; lia). lra. }
    set (k' := Z.max (e' - 52) (-1074)).
    assert (k' <= k)%Z as Hk by lia.
    apply (at_quantum_exact k' v (rne (q / pow2 k) * 2 ^ (k - k'))).
    rewrite Ev. unfold at_quantum.
    rewrite inject_Z_mult, <- pow2_Z by lia.
    rewrite <- Qmult_assoc, <- pow2_plus.
    by replace (k - k' + k')%Z with k by lia.
  - assert (v == pow2 U) as EvU by lra.
    assert (e' = U) as EU.
    { apply ilog2_unique; [lra|].
      assert (pow2 U < pow2 (U + 1)) by (apply pow2_lt; lia). lra. }
    rewrite EU.
    apply (at_quantum_exact _ v (2 ^ (U - Z.max (U - 52) (-1074)))).
    rewrite <- pow2_Z by lia. rewrite <- pow2_plus.
    by replace (U - Z.max (U - 52) (-1074) + Z.max (U - 52) (-1074))%Z with U by lia.
Qed.

Lemma round64_nonneg q :
  0 <= q ->
  (round64 q = PosInf /\ pow2 1024 <= nearest q)
  \/ (round64 q = Fin (nearest q) /\ nearest q < pow2 1024).
Proof.
  intros H0. unfold round64. pose proof (nearest_nonneg q H0) as Hv.
  destruct (Qle_bool (pow2 1024) (nearest q)) eqn:E1;
    [left; split; [done|by apply Qle_bool_iff]|right].
  assert (~ pow2 1024 <= nearest q) as Hlt.
  { intros C. apply Qle_bool_iff in C. congruence. }
  destruct (Qle_bool (nearest q) (- pow2 1024)) eqn:E2.
  - apply Qle_bool_iff in E2. pose proof (pow2_pos 1024). lra.
  - split; [done|]. lra.
Qed.

End Rounding.

(** ** Numbers *)

Section Numbers.

(** Rounding a percentage that lies between 0 and 100. *)
Lemma round_percent (q : Q) :
  (0 <= q)%Q → (q <= 100)%Q →
  (0 ≤ Qfloor (q + (1 # 2)) ≤ 100)%Z.
Proof.
  intros H0 H100. split.
  - change 0%Z with (Qfloor 0). apply Qfloor_resp_le.
    apply Qle_trans with q; [done|].
    rewrite <- (Qplus_0_r q) at 1. apply Qplus_le_r. done.
  - change 100%Z with (Qfloor (100 + (1 # 2))). apply Qfloor_resp_le.
    apply Qplus_le_l. done.
Qed.

Lemma ratio_percent (h t : Q) :
  (0 <= h)%Q → (h <= t)%Q → ¬ (t == 0)%Q →
  (0 <= h / t * 100)%Q ∧ (h / t * 100 <= 100)%Q.
Proof.
  intros Hh Hht Ht.
  assert (0 < t)%Q as Hpos.
  { apply Qle_lt_or_eq in Hh as [?|?].
    - eapply Qlt_le_trans; eauto.
    - destruct (Qle_lt_or_eq 0 t) as [?|E]; [by rewrite H|done|].
      exfalso. apply Ht. by rewrite <- E. }
  split.
  - apply Qmult_le_0_compat; [|done].
    apply Qle_shift_div_l; [done|]. by rewrite Qmult_0_l.
  - rewrite <- (Qmult_1_l 100) at 2.
    apply Qmult_le_compat_r; [|done].
    apply Qle_shift_div_r; [done|]. by rewrite Qmult_1_l.
Qed.

(** A ratio between 0 and 1, times 100, rounded: a whole percentage. *)
Lemma percent_bounded (hits total : Q) :
  (0 <= hits)%Q → (hits <= total)%Q → ¬ (total == 0)%Q →
  ∃ z : Z,
    JS.round (JS.mul (JS.round64 (hits / total)) (JS.of_Z 100)) = JS.of_Z z ∧
    (0 ≤ z ≤ 100)%Z.
Proof.
  intros H0 Hle Hnz.
  assert (0 < total)%Q as Hpos by lra.
  assert (0 <= hits / total)%Q as Hq0.
  { apply Qle_shift_div_l; [done|]. lra. }
  assert (hits / total <= 1)%Q as Hq1.
  { apply Qle_shift_div_r; [done|]. lra. }
  destruct (round64_between 0 1 (hits / total)) as (v & -> & Hv0 & Hv1);
    [lra|reflexivity|reflexivity|reflexivity|done|done|].
  unfold JS.mul, JS.of_Z.
  destruct (round64_between 0 100 (v * inject_Z 100)) as (w & -> & Hw0 & Hw1);
    [lra|reflexivity|reflexivity|reflexivity| | |].
  - change (inject_Z 100) with 100%Q. nra.
  - change (inject_Z 100) with 100%Q. nra.
  - cbn [JS.round]. eexists. split; [reflexivity|]. by apply round_percent.
Qed.

(** [pct] is 0 when [total] is 0, and a whole percentage between 0 and
    100 when [0 <= hits <= total]. *)
Lemma pct_finite (hits total : Q) :
  ((total == 0)%Q → Analytics.pct (JS.Fin hits) (JS.Fin total) = JS.of_Z 0) ∧
  ((0 <= hits)%Q → (hits <= total)%Q →
   ∃ z : Z, Analytics.pct (JS.Fin hits) (JS.Fin total) = JS.of_Z z ∧
            (0 ≤ z ≤ 100)%Z ∧ ((total == 0)%Q → z = 0%Z)).
Proof.
  unfold Analytics.pct, JS.truthy, JS.div.
  destruct (Qeq_bool total 0) eqn:E; cbn [negb].
  - split; [done|]. intros _ _. exists 0%Z. split; [done|]. split; [lia|done].
  - apply Qeq_bool_neq in E. split; [done|].
    intros H0 Hle.
    destruct (percent_bounded hits total H0 Hle E) as (z & Hz & Hrange).
    exists z. done.
Qed.

Lemma rate_is_pct (hits total : nat) :
  PropResults.rate hits total =
  Analytics.pct (JS.of_nat hits) (JS.of_nat total).
Proof. reflexivity. Qed.

Lemma rate_zero (hits : nat) : PropResults.rate hits 0 = JS.of_Z 0.
Proof. reflexivity. Qed.

Lemma rate_finite (hits total : nat) :
  hits ≤ total →
  ∃ z : Z,
    PropResults.rate hits total = JS.of_Z z ∧
    (total = 0 → z = 0%Z) ∧
    (0 ≤ z ≤ 100)%Z.
Proof.
  intros Hle. rewrite rate_is_pct. unfold JS.of_nat.
  destruct (pct_finite (inject_Z (Z.of_nat hits)) (inject_Z (Z.of_nat total)))
    as [_ Hrange].
  destruct Hrange as (z & Hz & Hr & Hzero).
  - change 0%Q with (inject_Z 0). rewrite <- Zle_Qle. lia.
  - rewrite <- Zle_Qle. lia.
  - exists z. split; [done|]. split; [|done].
    intros ->. by apply Hzero.
Qed.

End Numbers.

(** ** Sorting and objects *)

Section Containers.
Context {A : Type}.

Lemma insert_perm (cmp : A → A → JS.number) (x : A) (l : list A) :
  JS.insert cmp x l ≡ₚ x :: l.
Proof.
  induction l as [|y l IH]; cbn [JS.insert]; [done|].
  destruct (JS.positive (cmp x y)); [|done].
  rewrite IH. apply Permutation_swap.
Qed.

Lemma sort_perm (cmp : A → A → JS.number) (l : list A) :
  JS.sort cmp l ≡ₚ l.
Proof.
  induction l as [|x l IH]; cbn [JS.sort]; [done|].
  by rewrite insert_perm, IH.
Qed.

Lemma elem_of_sort (cmp : A → A → JS.number) (x : A) (l : list A) :
  x ∈ JS.sort cmp l ↔ x ∈ l.
Proof. by rewrite sort_perm. Qed.

Lemma get_upsert_eq (k : string) (d : A) (f : A → A) (o : list (string * A)) :
  JS.get k (JS.upsert k d f o) = Some (f (default d (JS.get k o))).
Proof.
  induction o as [|[k' v] o IH]; cbn [JS.get JS.upsert].
  - by rewrite decide_True.
  - destruct (decide (k' = k)) as [->|Hne]; cbn [JS.get].
    + by rewrite decide_True.
    + by rewrite decide_False.
Qed.

Lemma get_upsert_ne (k k' : string) (d : A) (f : A → A) (o : list (string * A)) :
  k ≠ k' → JS.get k' (JS.upsert k d f o) = JS.get k' o.
Proof.
  intros Hne.
  induction o as [|[k0 v] o IH]; cbn [JS.get JS.upsert].
  - by rewrite decide_False.
  - destruct (decide (k0 = k)) as [->|Hne0]; cbn [JS.get].
    + by rewrite !decide_False.
    + by rewrite IH.
Qed.

Lemma get_Some_elem_of (k : string) (v : A) (o : list (string * A)) :
  JS.get k o = Some v → (k, v) ∈ o.
Proof.
  induction o as [|[k' v'] o IH]; cbn [JS.get]; [done|].
  destruct (decide (k' = k)) as [->|Hne].
  - intros [= ->]. left.
  - intros H. right. by apply IH.
Qed.

Lemma elem_of_get (k : string) (v : A) (o : list (string * A)) :
  NoDup o.*1 → (k, v) ∈ o → JS.get k o = Some v.
Proof.
  induction o as [|[k' v'] o IH]; cbn [JS.get].
  - intros _ H. by apply elem_of_nil in H.
  - rewrite fmap_cons. cbn [fst]. intros [Hk Hnd]%NoDup_cons Hin.
    apply elem_of_cons in Hin as [[= -> ->]|Hin].
    + by rewrite decide_True.
    + destruct (decide (k' = k)) as [->|Hne].
      * exfalso. apply Hk. apply list_elem_of_fmap. by exists (k, v).
      * by apply IH.
Qed.

Lemma upsert_keys (k : string) (d : A) (f : A → A) (o : list (string * A)) :
  (JS.upsert k d f o).*1 =
  if decide (k ∈ o.*1) then o.*1 else o.*1 ++ [k].
Proof.
  induction o as [|[k' v] o IH]; cbn [JS.upsert].
  - by rewrite decide_False by apply not_elem_of_nil.
  - destruct (decide (k' = k)) as [->|Hne].
    + rewrite !fmap_cons. cbn [fst]. rewrite decide_True; [done|left].
    + rewrite !fmap_cons, IH. cbn [fst].
      destruct (decide (k ∈ o.*1)) as [Hin|Hnin].
      * rewrite decide_True; [done|by right].
      * rewrite decide_False; [done|].
        apply not_elem_of_cons. by split.
Qed.

Lemma upsert_NoDup (k : string) (d : A) (f : A → A) (o : list (string * A)) :
  NoDup o.*1 → NoDup (JS.upsert k d f o).*1.
Proof.
  intros Hnd. rewrite upsert_keys.
  destruct (decide (k ∈ o.*1)); [done|].
  apply NoDup_app. split; [done|]. split.
  - intros x Hx ->%list_elem_of_singleton. done.
  - apply NoDup_singleton.
Qed.

Lemma upsert_Forall (P : A → Prop) (k : string) (d : A) (f : A → A)
    (o : list (string * A)) :
  P (f d) → (∀ v, P v → P (f v)) →
  Forall (λ e, P e.2) o → Forall (λ e, P e.2) (JS.upsert k d f o).
Proof.
  intros Hd Hf.
  induction o as [|[k' v] o IH]; cbn [JS.upsert]; intros Ho.
  - by constructor.
  - apply Forall_cons in Ho as [Hv Ho].
    destruct (decide (k' = k)); constructor; cbn [snd] in *; auto.
Qed.

End Containers.

(** ** The market and player rollups *)

Section Rollups.
Import PropResults.

Lemma market_step_ok (acc : list (string * MarketAcc)) (r : PropResult) :
  Forall (λ e, market_ok e.2) acc →
  Forall (λ e, market_ok e.2) (market_step acc r).
Proof.
  intros Hacc. unfold market_step.
  destruct (leg_result r) as [res|]; [|done].
  destruct (decide _); [done|].
  apply (upsert_Forall market_ok); [| |done].
  - unfold market_ok; destruct res; cbn; lia.
  - unfold market_ok; intros v [? ?]; destruct res; cbn; lia.
Qed.

Lemma market_fold_ok (rows : list PropResult) (acc : list (string * MarketAcc)) :
  Forall (λ e, market_ok e.2) acc →
  Forall (λ e, market_ok e.2) (fold_left market_step rows acc).
Proof.
  revert acc. induction rows as [|r rows IH]; intros acc Hacc; cbn [fold_left].
  - done.
  - apply IH. by apply market_step_ok.
Qed.

Lemma computeMarketStats_ok (rows : list PropResult) (s : MarketStat) :
  s ∈ computeMarketStats rows →
  ms_hits s ≤ ms_total s ∧ 0 < ms_total s ∧
  ms_pct s = rate (ms_hits s) (ms_total s).
Proof.
  unfold computeMarketStats. rewrite elem_of_sort.
  intros (e & -> & He)%list_elem_of_fmap.
  pose proof (market_fold_ok rows [] (Forall_nil_2 _)) as Hall.
  rewrite Forall_forall in Hall. destruct (Hall e He) as [? ?].
  unfold market_stat; cbn. done.
Qed.

Lemma group_cons (k : string) (r : PropResult) (rows : list PropResult) :
  group k (r :: rows) =
  if decide (player_key r = k) then r :: group k rows else group k rows.
Proof. unfold group. by rewrite filter_cons. Qed.

Lemma player_fold_get (rows : list PropResult) (acc : list (string * PlayerAcc))
    (k : string) :
  JS.get k (fold_left player_step rows acc) =
  fold_left bump_group (group k rows) (JS.get k acc).
Proof.
  revert acc. induction rows as [|r rows IH]; intros acc; [done|].
  cbn [fold_left]. rewrite IH, group_cons. unfold player_step.
  destruct (decide (player_key r = k)) as [<-|Hne].
  - by rewrite get_upsert_eq.
  - by rewrite get_upsert_ne.
Qed.

Lemma player_fold_NoDup (rows : list PropResult) (acc : list (string * PlayerAcc)) :
  NoDup acc.*1 → NoDup (fold_left player_step rows acc).*1.
Proof.
  revert acc. induction rows as [|r rows IH]; intros acc Hnd; [done|].
  cbn [fold_left]. apply IH. by apply upsert_NoDup.
Qed.

Lemma length_filter_cons (P : PropResult → Prop) `{!∀ r, Decision (P r)}
    (r : PropResult) (g : list PropResult) :
  length (filter P (r :: g)) =
  (if decide (P r) then 1 else 0) + length (filter P g).
Proof. rewrite filter_cons. by destruct (decide (P r)). Qed.

Lemma bump_counts (r : PropResult) (a : PlayerAcc) :
  player_bump r a =
  {| pa_player := pa_player a; pa_market := pa_market a;
     pa_graded := pa_graded a + (if decide (is_graded r) then 1 else 0);
     pa_hits := pa_hits a + (if decide (is_hit r) then 1 else 0);
     pa_scores := pa_scores a ++ [score_or_zero r];
     pa_pending := pa_pending a + (if decide (is_pending r) then 1 else 0) |}.
Proof.
  unfold player_bump.
  destruct (leg_result r) as [[]|] eqn:E;
    destruct (decide (is_graded r)) as [Hg|Hg];
    destruct (decide (is_hit r)) as [Hh|Hh];
    destruct (decide (is_pending r)) as [Hp|Hp];
    unfold is_graded, is_hit, is_pending in *;
    try congruence; try (exfalso; apply Hg; congruence); f_equal; lia.
Qed.

Lemma bump_group_Some (a : PlayerAcc) (g : list PropResult) :
  fold_left bump_group g (Some a) = Some (grown a g).
Proof.
  revert a. induction g as [|r g IH]; intros a.
  - cbn. unfold grown. cbn. rewrite app_nil_r, !Nat.add_0_r. by destruct a.
  - cbn [fold_left]. unfold bump_group at 2. cbn [default]. rewrite IH.
    unfold id. f_equal. rewrite (bump_counts r a). unfold grown.
    cbn [pa_player pa_market pa_graded pa_hits pa_scores pa_pending].
    rewrite !length_filter_cons, fmap_cons, <- app_assoc. f_equal; lia.
Qed.

Lemma group_stat_grown (r : PropResult) (g : list PropResult) :
  group_stat (r :: g) = Some (player_stat (grown (player_fresh r) (r :: g))).
Proof.
  unfold group_stat, player_stat, grown, mean_score. cbn [player_fresh
    pa_player pa_market pa_graded pa_hits pa_scores pa_pending].
  rewrite !Nat.add_0_l, app_nil_l, length_fmap. done.
Qed.

Lemma bump_group_None (g : list PropResult) :
  player_stat <$> fold_left bump_group g None = group_stat g.
Proof.
  destruct g as [|r g]; [done|].
  rewrite group_stat_grown.
  cbn [fold_left]. unfold bump_group at 2. cbn [default].
  rewrite bump_group_Some. cbn [fmap option_fmap option_map]. f_equal. f_equal.
  unfold id.
  (* the first row is bumped into a fresh accumulator *)
  rewrite (bump_counts r (player_fresh r)). unfold grown.
  cbn [player_fresh pa_player pa_market pa_graded pa_hits pa_scores pa_pending].
  rewrite !length_filter_cons, fmap_cons. f_equal; lia.
Qed.

(** The rollup, entry by entry: its entries are exactly the statistics of
    the non-empty key groups. *)
Lemma computePlayerStats_spec (rows : list PropResult) (st : PlayerStat) :
  st ∈ computePlayerStats rows ↔ ∃ k, group_stat (group k rows) = Some st.
Proof.
  unfold computePlayerStats. rewrite elem_of_sort.
  pose proof (player_fold_NoDup rows [] (NoDup_nil_2)) as Hnd.
  split.
  - intros (v & -> & (e & -> & He)%list_elem_of_fmap)%list_elem_of_fmap.
    destruct e as [k v]. exists k.
    apply elem_of_get in He; [|done].
    rewrite player_fold_get in He. cbn [JS.get] in He.
    rewrite <- bump_group_None, He. done.
  - intros [k Hk]. rewrite <- bump_group_None in Hk.
    destruct (fold_left bump_group (group k rows) None) as [v|] eqn:E; [|done].
    injection Hk as <-.
    apply list_elem_of_fmap. exists v. split; [done|].
    apply list_elem_of_fmap. exists (k, v). split; [done|].
    apply get_Some_elem_of. by rewrite player_fold_get.
Qed.

Lemma group_stat_of_row (rows : list PropResult) (r : PropResult) :
  r ∈ rows →
  r ∈ group (player_key r) rows ∧
  is_Some (group_stat (group (player_key r) rows)).
Proof.
  intros Hin.
  assert (r ∈ group (player_key r) rows) as Hg.
  { unfold group. apply list_elem_of_filter. done. }
  split; [done|].
  destruct (group (player_key r) rows); [by apply elem_of_nil in Hg|].
  cbn. eauto.
Qed.

Lemma filter_split_pending (g : list PropResult) :
  length g = length (filter is_pending g) + length (filter is_graded g).
Proof.
  induction g as [|r g IH]; [done|].
  rewrite !length_filter_cons. cbn [length].
  destruct (decide (is_pending r)) as [Hp|Hp];
    destruct (decide (is_graded r)) as [Hg|Hg];
    unfold is_pending, is_graded in *; try lia; try congruence.
  destruct (leg_result r); [exfalso; apply Hg|]; congruence.
Qed.

Lemma filter_hit_le_graded (g : list PropResult) :
  length (filter is_hit g) ≤ length (filter is_graded g).
Proof.
  induction g as [|r g IH]; [done|].
  rewrite !length_filter_cons.
  destruct (decide (is_hit r)) as [Hh|Hh];
    destruct (decide (is_graded r)) as [Hg|Hg];
    unfold is_hit, is_graded in *; try lia.
  exfalso. apply Hg. congruence.
Qed.

End Rollups.

Section RollupFacts.
Import PropResults ResultsPage.

Lemma Qeq_bool_of_S (n : nat) : Qeq_bool (inject_Z (Z.of_nat (S n))) 0 = false.
Proof.
  destruct (Qeq_bool _ 0) eqn:E; [|done].
  apply Qeq_bool_eq in E. unfold Qeq in E. cbn in E. lia.
Qed.

(** The statistics of a group, field by field. *)
Lemma group_stat_fields (g : list PropResult) (st : PlayerStat) :
  group_stat g = Some st →
  g ≠ [] ∧
  ps_pending st = length (filter is_pending g) ∧
  ps_total st = length (filter is_graded g) ∧
  ps_hits st = length (filter is_hit g) ∧
  ps_hit_pct st = rate (ps_hits st) (ps_total st) ∧
  ps_avg_score st =
    JS.round (JS.div (sum_scores (score_or_zero <$> g))
                     (JS.of_nat (length g))).
Proof.
  destruct g as [|r g]; [done|].
  unfold group_stat. intros [= <-]. done.
Qed.

Lemma row_stat (rows : list PropResult) (r : PropResult) :
  r ∈ rows →
  ∃ st, st ∈ computePlayerStats rows ∧
        r ∈ group (player_key r) rows ∧
        group_stat (group (player_key r) rows) = Some st.
Proof.
  intros Hin. destruct (group_stat_of_row rows r Hin) as [Hg [st Hst]].
  exists st. split; [|done].
  apply computePlayerStats_spec. eauto.
Qed.

(** *** Keys and pairs *)

Lemma append_nil (s : string) : "" +:+ s = s.
Proof. reflexivity. Qed.

Lemma append_cons (x : Ascii.ascii) (a s : string) :
  String x a +:+ s = String x (a +:+ s).
Proof. reflexivity. Qed.

Lemma key_split (a b c d : string) :
  no_bar a = true → no_bar c = true →
  a +:+ "||" +:+ b = c +:+ "||" +:+ d → a = c ∧ b = d.
Proof.
  revert c. induction a as [|x a IH]; intros [|y c];
    rewrite ?append_cons, ?append_nil; cbn [no_bar].
  - intros _ _ [= ->]. done.
  - intros _ [Hy _]%andb_true_iff [= <- _]. done.
  - intros [Hx _]%andb_true_iff _ [= -> _]. done.
  - intros [Hx Ha]%andb_true_iff [Hy Hc]%andb_true_iff [= -> Heq].
    destruct (IH c Ha Hc Heq) as [-> ->]. done.
Qed.

Lemma group_is_pair (rows : list PropResult) (r : PropResult) :
  Forall (λ r, no_bar (player_name r) = true) rows →
  no_bar (player_name r) = true →
  group (player_key r) rows = pair_rows (player_name r) (market_label r) rows.
Proof.
  intros Hrows Hr. unfold group, pair_rows.
  induction Hrows as [|r' rows Hr' _ IH]; [done|].
  rewrite !filter_cons, IH.
  destruct (decide (player_key r' = player_key r)) as [Hk|Hk].
  - apply key_split in Hk as [? ?]; [|done..]. by rewrite decide_True.
  - rewrite decide_False; [done|]. intros [? ?]. apply Hk.
    unfold player_key. congruence.
Qed.
Lemma pair_stat_names (rows : list PropResult) (p m : string) (st : PlayerStat) :
  group_stat (pair_rows p m rows) = Some st →
  ps_player st = p ∧ ps_market st = m.
Proof.
  unfold pair_rows. intros Hst.
  destruct (filter _ rows) as [|r0 g0] eqn:E; [done|].
  assert (r0 ∈ r0 :: g0) as Hin by left.
  rewrite <- E in Hin. apply list_elem_of_filter in Hin as [[Hp Hm] _].
  injection Hst as <-. done.
Qed.

(** *** The rollup against its description *)

Lemma grouped_rows (rows : list PropResult) (r : PropResult) :
  group (player_key r) rows = filter (Expected.grouped_with r) rows.
Proof. apply list_filter_iff. done. Qed.

Lemma added_up (g : list PropResult) (acc : JS.number) :
  fold_left JS.add (score_or_zero <$> g) acc = Expected.add_up acc g.
Proof.
  revert acc. induction g as [|r g IH]; intros acc; [done|].
  cbn [fmap list_fmap fold_left Expected.add_up]. by rewrite IH.
Qed.

Lemma mean_as_expected (g : list PropResult) :
  JS.round (JS.div (sum_scores (score_or_zero <$> g)) (JS.of_nat (length g)))
  = Expected.mean g.
Proof. unfold sum_scores, Expected.mean. by rewrite added_up. Qed.

Lemma rate_as_expected (hits total : nat) :
  rate hits total = Expected.hit_rate hits total.
Proof.
  destruct total as [|n]; [done|].
  unfold rate, Expected.hit_rate, JS.truthy, JS.of_nat.
  by rewrite Qeq_bool_of_S.
Qed.

End RollupFacts.

(** ** Timers *)

(** The timer table is handled through the lemmas below, never by
    unfolding the finite map under it. *)
#[global] Arguments Timers.setInterval : simpl never.
#[global] Arguments Timers.clearInterval : simpl never.
#[global] Arguments Timers.is_live : simpl never.

Section TimerFacts.

Lemma is_live_Some (id : positive) (ms : Z) (tb : Timers.table) :
  Timers.live tb !! id = Some ms → Timers.is_live id tb = true.
Proof. intros H. unfold Timers.is_live. rewrite H. by apply bool_decide_eq_true_2. Qed.

Lemma is_live_None (id : positive) (tb : Timers.table) :
  Timers.live tb !! id = None → Timers.is_live id tb = false.
Proof.
  intros H. unfold Timers.is_live. rewrite H.
  apply bool_decide_eq_false_2. by intros [? ?].
Qed.

Lemma is_live_singleton (t : positive) (ms : Z) (nx : positive) :
  Timers.is_live t {| Timers.live := {[t := ms]}; Timers.next := nx |} = true.
Proof. apply (is_live_Some t ms). apply lookup_singleton_eq. Qed.

Lemma is_live_empty (id nx : positive) :
  Timers.is_live id {| Timers.live := ∅; Timers.next := nx |} = false.
Proof. apply is_live_None. apply lookup_empty. Qed.

Lemma clear_singleton (t : positive) (ms : Z) (nx : positive) :
  Timers.clearInterval (Some t) {| Timers.live := {[t := ms]}; Timers.next := nx |}
  = {| Timers.live := ∅; Timers.next := nx |}.
Proof. unfold Timers.clearInterval. cbn [Timers.live Timers.next]. by rewrite delete_singleton_eq. Qed.

Lemma set_on_empty (ms : Z) (nx : positive) :
  Timers.setInterval ms {| Timers.live := ∅; Timers.next := nx |}
  = (nx, {| Timers.live := {[nx := ms]}; Timers.next := Pos.succ nx |}).
Proof. unfold Timers.setInterval. cbn [Timers.live Timers.next]. by rewrite insert_empty. Qed.

Lemma clear_on_empty (h : option positive) (nx : positive) :
  Timers.clearInterval h {| Timers.live := ∅; Timers.next := nx |}
  = {| Timers.live := ∅; Timers.next := nx |}.
Proof.
  destruct h as [id|]; [|done].
  unfold Timers.clearInterval. cbn [Timers.live Timers.next].
  by rewrite delete_empty.
Qed.

Lemma clear_not_live (h : option positive) (tb : Timers.table) (id : positive) :
  h = Some id →
  Timers.live (Timers.clearInterval h tb) !! id = None.
Proof.
  intros ->. unfold Timers.clearInterval. cbn [Timers.live].
  apply lookup_delete_eq.
Qed.

End TimerFacts.

(** Settle every test that the hypotheses decide. *)
Ltac decide_known :=
  repeat match goal with
  | |- context [bool_decide ?P] =>
      first [ rewrite (bool_decide_eq_true_2 P) by (solve [congruence | intros ?; congruence])
            | rewrite (bool_decide_eq_false_2 P) by (solve [congruence | intros ?; congruence]) ]
  | |- context [decide ?P] =>
      first [ rewrite (decide_True (P:=P)) by (solve [congruence | intros ?; congruence])
            | rewrite (decide_False (P:=P)) by (solve [congruence | intros ?; congruence]) ]
  end.

(** ** autoCheck *)

Section AutoCheckFacts.
Import AutoCheck.
Variable nulls : bool.

Lemma run_nil (st : State) : run nulls st [] = st.
Proof. reflexivity. Qed.

Lemma run_cons (st : State) (e : Event) (evs : list Event) :
  run nulls st (e :: evs) = run nulls (step nulls st e) evs.
Proof. reflexivity. Qed.

(** Evaluate the page's actions down to record expressions.  Evaluation is
    lazy and unfolds only the page's own definitions, so that it neither
    copies states nor opens the timer table; a run is taken one event at
    a time, and every test the hypotheses decide is decided before the
    next event. *)
Ltac ac_eval :=
  lazy beta iota zeta delta
    [step resume autoCheck poll autoCheck_catch load_if_done load load_rest
     unmount setCheckStatus setChecking set_ref set_timers drop_request
     suspend emit
     checkStatus checking checkPollRef timers inflight loads mounted log
     resting polling loading
     lookup list_lookup delete list_delete andb negb];
  rewrite ?clear_singleton, ?clear_on_empty, ?set_on_empty,
    ?is_live_singleton, ?is_live_empty;
  cbn [app].

Ltac ac_step :=
  first [rewrite run_cons | rewrite run_nil];
  repeat progress (ac_eval; decide_known).

Ltac ac_run := unfold round, attempt; repeat ac_step.

Lemma run_app (st : State) (evs1 evs2 : list Event) :
  run nulls st (evs1 ++ evs2) = run nulls (run nulls st evs1) evs2.
Proof. apply fold_left_app. Qed.

(** A round that sees [running] changes the status on display and nothing
    else. *)
Lemma round_running (t : positive) (s r : ResultsStatus) (nx : positive)
    (lg : list Call) :
  status r = running →
  run nulls (polling t s nx lg) (round t r)
  = polling t r nx (lg ++ [call_status; call_setCheckStatus (Some r)]).
Proof.
  intros Hr. ac_run. by rewrite <- app_assoc.
Qed.

(** A round that sees anything but [running] ends the loop; on [done] a
    reload is started. *)
Lemma round_terminal (t : positive) (s tm : ResultsStatus) (nx : positive)
    (lg : list Call) :
  status tm ≠ running →
  run nulls (polling t s nx lg) (round t tm)
  = loading (if decide (status tm = done) then 1 else 0)
      (resting (Some tm) (if nulls then None else Some t) nx
         (lg ++ [call_status; call_setCheckStatus (Some tm); call_setChecking false]
             ++ (if decide (status tm = done) then [call_load] else []))).
Proof.
  intros Htm. ac_run.
  destruct nulls; case_decide; ac_eval; rewrite <- ?app_assoc; done.
Qed.

Lemma rounds_running (t : positive) (rs : list ResultsStatus) (s : ResultsStatus)
    (nx : positive) (lg : list Call) :
  Forall (λ r, status r = running) rs →
  run nulls (polling t s nx lg) (rounds t rs)
  = polling t (default s (last rs)) nx
      (lg ++ (rs ≫= λ r, [call_status; call_setCheckStatus (Some r)])).
Proof.
  intros Hrs. revert s lg.
  induction Hrs as [|r rs Hr Hrs IH]; intros s lg.
  - cbn. by rewrite app_nil_r.
  - unfold rounds. rewrite bind_cons, run_app, (round_running _ _ _ _ _ Hr).
    fold (rounds t rs). rewrite IH, bind_cons, <- app_assoc.
    f_equal. rewrite last_cons. by destruct (last rs).
Qed.

(** A start attempt from rest. *)
Lemma attempt_running (cs : option ResultsStatus) (ref : option positive)
    (nx : positive) (lg : list Call) (ack r : ResultsStatus) :
  status r = running →
  run nulls (resting cs ref nx lg) (attempt ack r)
  = polling nx r (Pos.succ nx)
      (lg ++ [call_setChecking true; call_setCheckStatus None; call_check;
              call_status; call_setCheckStatus (Some r)]).
Proof.
  intros Hr. ac_run. rewrite <- !app_assoc. done.
Qed.

Lemma attempt_terminal (cs : option ResultsStatus) (ref : option positive)
    (nx : positive) (lg : list Call) (ack tm : ResultsStatus) :
  status tm ≠ running →
  run nulls (resting cs ref nx lg) (attempt ack tm)
  = loading (if decide (status tm = done) then 1 else 0)
      (resting (Some tm) ref nx
         (lg ++ [call_setChecking true; call_setCheckStatus None; call_check;
                 call_status; call_setCheckStatus (Some tm); call_setChecking false]
             ++ (if decide (status tm = done) then [call_load] else []))).
Proof.
  intros Hr. ac_run.
  case_decide; ac_eval; rewrite <- !app_assoc; done.
Qed.

End AutoCheckFacts.

Section AutoCheckGeneral.
Import AutoCheck.
Variable nulls : bool.

(** Unfold the page's actions in an arbitrary state, leaving the list of
    requests in flight alone. *)
Ltac ac_open :=
  lazy beta iota zeta delta
    [step resume autoCheck poll autoCheck_catch load_if_done load load_rest
     unmount setCheckStatus setChecking set_ref set_timers drop_request
     suspend emit
     checkStatus checking checkPollRef timers inflight loads mounted log
     andb negb];
  rewrite ?(list_lookup_middle _ []), ?(delete_middle _ []), ?app_nil_r by done.

(** A tick whose status request is rejected: the request was sent, and
    that is all. *)
Lemma tick_rejected (st : State) (id : positive) :
  is_Some (Timers.live (timers st) !! id) →
  step nulls (step nulls st (Tick id)) (Settle (length (inflight st)) None)
  = emit call_status st.
Proof.
  intros [ms Hlive]. destruct st as [cs ck ref tb fl ld mt lg].
  cbn [timers inflight] in *.
  unfold step at 2. cbn [timers]. rewrite (is_live_Some id ms tb Hlive).
  ac_open. done.
Qed.

(** A tick whose status request is answered [running]: the status is
    set, and that is all. *)
Lemma tick_answered_running (st : State) (id : positive) (r : ResultsStatus) :
  is_Some (Timers.live (timers st) !! id) → status r = running →
  step nulls (step nulls st (Tick id)) (Settle (length (inflight st)) (Some r))
  = setCheckStatus (Some r) (emit call_status st).
Proof.
  intros [ms Hlive] Hr. destruct st as [cs ck ref tb fl ld mt lg].
  cbn [timers inflight] in *.
  unfold step at 2. cbn [timers]. rewrite (is_live_Some id ms tb Hlive).
  ac_open. decide_known. done.
Qed.

(** A tick whose status request is answered with another status: the
    timer whose handle [checkPollRef] holds is cleared and the page stops
    checking. *)
Lemma tick_answered_terminal (st : State) (id : positive) (r : ResultsStatus) :
  is_Some (Timers.live (timers st) !! id) → status r ≠ running →
  step nulls (step nulls st (Tick id)) (Settle (length (inflight st)) (Some r))
  = load_if_done r
      (setChecking false
         ((if nulls then set_ref None else λ st', st')
            (set_timers (Timers.clearInterval (checkPollRef st) (timers st))
               (setCheckStatus (Some r) (emit call_status st))))).
Proof.
  intros [ms Hlive] Hr. destruct st as [cs ck ref tb fl ld mt lg].
  cbn [timers inflight] in *.
  unfold step at 2. cbn [timers]. rewrite (is_live_Some id ms tb Hlive).
  ac_open. decide_known. destruct nulls; case_decide; ac_open; done.
Qed.

Lemma tick_answered_terminal_state (st : State) (id : positive)
    (r : ResultsStatus) :
  is_Some (Timers.live (timers st) !! id) → status r ≠ running →
  let st1 := step nulls (step nulls st (Tick id))
               (Settle (length (inflight st)) (Some r)) in
  timers st1 = Timers.clearInterval (checkPollRef st) (timers st) ∧
  checking st1 = (if mounted st then false else checking st) ∧
  inflight st1 = inflight st ∧
  loads st1 = loads st + (if decide (status r = done) then 1 else 0).
Proof.
  intros Hlive Hr. cbn zeta. rewrite (tick_answered_terminal st id r Hlive Hr).
  destruct st as [cs ck ref tb fl ld mt lg].
  destruct nulls; case_decide; ac_open; decide_known; ac_open;
    split_and!; try done; lia.
Qed.

(** The rejected reply of a tick's request, whenever it comes: the request
    is gone, and that is all. *)
Lemma poll_reply_rejected (st : State) (i : nat) :
  inflight st !! i = Some AwaitPoll →
  step nulls st (Settle i None) = drop_request i st.
Proof. intros Hi. unfold step. by rewrite Hi. Qed.

(** A start attempt whose trigger call is rejected. *)
Lemma trigger_rejected (st : State) :
  mounted st = true → checking st = false →
  run nulls st [ClickCheck; Settle (length (inflight st)) None]
  = {| checkStatus := None; checking := false;
       checkPollRef := checkPollRef st; timers := timers st;
       inflight := inflight st; loads := loads st; mounted := true;
       log := log st ++ [call_setChecking true; call_setCheckStatus None;
                         call_check; call_console_error;
                         call_setChecking false] |}.
Proof.
  destruct st as [cs ck ref tb fl ld mt lg]. cbn [mounted checking].
  intros -> ->. unfold run. cbn [fold_left].
  ac_open. ac_open. by rewrite <- !app_assoc.
Qed.

(** After the unmount cleanup the timer in [checkPollRef] is dead. *)
Lemma unmount_clears_ref (st : State) (t : positive) :
  mounted st = true → checkPollRef st = Some t →
  Timers.live (timers (step nulls st Unmount)) !! t = None.
Proof.
  intros Hm Hr. unfold step. rewrite Hm. unfold unmount. cbn [timers].
  by apply clear_not_live.
Qed.

Lemma unmount_no_timers (st : State) :
  mounted st = true → owns_timers st →
  Timers.live (timers (step nulls st Unmount)) = ∅.
Proof.
  intros Hm Hown. apply map_empty. intros id.
  unfold step. rewrite Hm. unfold unmount. cbn [timers].
  destruct (Timers.live (timers st) !! id) as [ms|] eqn:E.
  - apply clear_not_live. apply Hown. by rewrite E.
  - destruct (checkPollRef st) as [t|]; [|done].
    unfold Timers.clearInterval. cbn [Timers.live].
    destruct (decide (t = id)) as [->|Hne].
    + apply lookup_delete_eq.
    + by rewrite lookup_delete_ne.
Qed.

(** A page that is unmounted, has no live timer, no request in flight and
    no reload under way does nothing any more. *)
Lemma dead_page (st : State) (evs : list Event) :
  mounted st = false → Timers.live (timers st) = ∅ → inflight st = [] →
  loads st = 0 →
  run nulls st evs = st.
Proof.
  intros Hm Hl Hf Hld. induction evs as [|e evs IH]; [done|].
  unfold run in *. cbn [fold_left].
  assert (step nulls st e = st) as ->; [|done].
  destruct e as [|id|i r|ok|]; unfold step.
  - by rewrite Hm.
  - rewrite is_live_None; [done|]. by rewrite Hl.
  - by rewrite Hf.
  - unfold load_rest. by rewrite Hld.
  - by rewrite Hm.
Qed.

Lemma unmount_quiet (st : State) (evs : list Event) :
  mounted st = true → inflight st = [] → loads st = 0 → owns_timers st →
  run nulls (step nulls st Unmount) evs = step nulls st Unmount.
Proof.
  intros Hm Hf Hld Hown. apply dead_page.
  - unfold step. by rewrite Hm.
  - by apply unmount_no_timers.
  - unfold step. by rewrite Hm.
  - unfold step. by rewrite Hm.
Qed.

End AutoCheckGeneral.

(** ** The ladder page *)

Section LadderFacts.
Import Ladder.

Lemma ladder_run_nil (st : State) : run st [] = st.
Proof. reflexivity. Qed.

Lemma ladder_run_cons (st : State) (e : Event) (evs : list Event) :
  run st (e :: evs) = run (step st e) evs.
Proof. reflexivity. Qed.

Lemma ladder_run_app (st : State) (evs1 evs2 : list Event) :
  run st (evs1 ++ evs2) = run (run st evs1) evs2.
Proof. apply fold_left_app. Qed.

Ltac ld_eval :=
  lazy beta iota zeta delta
    [step commit effect cleanup isRunning current_dep resume runLadder
     runLadder_catch poll setStatus setSlips setExpanded setTriggering
     set_timers set_ref set_dep drop_request set_unmounted suspend emit
     page_status slips expanded triggering pollRef effect_dep timers inflight
     mounted log resting polling
     lookup list_lookup delete list_delete andb negb orb];
  rewrite ?clear_singleton, ?clear_on_empty, ?set_on_empty,
    ?is_live_singleton, ?is_live_empty;
  cbn [app fmap option_fmap option_map].

Ltac ld_step :=
  first [rewrite ladder_run_cons | rewrite ladder_run_nil];
  repeat progress (ld_eval; decide_known).

Ltac ld_run := unfold round, attempt; repeat ld_step.

Lemma ladder_round_running (t : positive) (s r : LadderStatus) (sl : list Slip)
    (ex : option Z) (nx : positive) (lg : list Call) :
  status s = running → status r = running →
  run (polling t s sl ex nx lg) (round t r)
  = polling t r sl ex nx (lg ++ [call_status; call_setStatus r]).
Proof. intros Hs Hr. ld_run. by rewrite <- app_assoc. Qed.

Lemma ladder_rounds_running (t : positive) (rs : list LadderStatus)
    (s : LadderStatus) (sl : list Slip) (ex : option Z) (nx : positive)
    (lg : list Call) :
  status s = running →
  Forall (λ r, status r = running) rs →
  run (polling t s sl ex nx lg) (rounds t rs)
  = polling t (default s (last rs)) sl ex nx
      (lg ++ (rs ≫= λ r, [call_status; call_setStatus r]))
    ∧ status (default s (last rs)) = running.
Proof.
  intros Hs Hrs. revert s lg Hs.
  induction Hrs as [|r rs Hr Hrs IH]; intros s lg Hs.
  - cbn. by rewrite app_nil_r.
  - unfold rounds. rewrite bind_cons, ladder_run_app,
      (ladder_round_running _ _ _ _ _ _ _ Hs Hr).
    fold (rounds t rs). destruct (IH r (lg ++ [call_status; call_setStatus r]) Hr)
      as [-> Hlast].
    rewrite bind_cons, <- app_assoc, last_cons.
    destruct (last rs); done.
Qed.

(** The round that sees anything but [running]: the timer is cleared; a
    finished search has its results requested. *)
Lemma ladder_round_terminal (t : positive) (s tm : LadderStatus) (sl : list Slip)
    (ex : option Z) (nx : positive) (lg : list Call) :
  status s = running → status tm ≠ running →
  run (polling t s sl ex nx lg) (round t tm)
  = {| page_status := Some tm; slips := sl; expanded := ex; triggering := false;
       pollRef := Some t; effect_dep := Some (status tm);
       timers := {| Timers.live := ∅; Timers.next := nx |};
       inflight := if decide (status tm = done) then [PollResults] else [];
       mounted := true;
       log := lg ++ [call_status; call_setStatus tm]
                 ++ (if decide (status tm = done) then [call_results] else []) |}.
Proof.
  intros Hs Htm. ld_run.
  case_decide; ld_eval; decide_known; ld_eval;
    rewrite <- ?app_assoc; done.
Qed.

(** The results request of a finished search is answered. *)
Lemma ladder_results_served (tm : LadderStatus) (sl res : list Slip)
    (ex : option Z) (ref : option positive) (nx : positive)
    (lg : list Call) :
  run {| page_status := Some tm; slips := sl; expanded := ex; triggering := false;
         pollRef := ref; effect_dep := Some (status tm);
         timers := {| Timers.live := ∅; Timers.next := nx |};
         inflight := if decide (status tm = done) then [PollResults] else [];
         mounted := true; log := lg |}
      (results_served tm res)
  = resting (Some tm) (if decide (status tm = done) then res else sl) ex ref nx
      (lg ++ (if decide (status tm = done) then [call_setSlips res] else [])).
Proof.
  unfold results_served. case_decide; ld_run; by rewrite ?app_nil_r.
Qed.

(** A start attempt from rest. *)
Lemma ladder_attempt_running (s : option LadderStatus) (sl : list Slip)
    (ex : option Z) (ref : option positive) (nx : positive) (lg : list Call)
    (r : LadderStatus) :
  status <$> s ≠ Some running → status r = running →
  run (resting s sl ex ref nx lg) (attempt 0 r)
  = polling nx r [] None (Pos.succ nx)
      (lg ++ [call_setTriggering true; call_setSlips []; call_setExpanded None;
              call_trigger; call_status; call_setStatus r;
              call_setTriggering false]).
Proof.
  intros Hs Hr. ld_run. by rewrite Hr, <- !app_assoc.
Qed.

Lemma ladder_attempt_terminal (s : option LadderStatus) (sl : list Slip)
    (ex : option Z) (ref : option positive) (nx : positive) (lg : list Call)
    (tm : LadderStatus) :
  status <$> s ≠ Some running → status tm ≠ running →
  run (resting s sl ex ref nx lg) (attempt 0 tm)
  = resting (Some tm) [] None ref nx
      (lg ++ [call_setTriggering true; call_setSlips []; call_setExpanded None;
              call_trigger; call_status; call_setStatus tm;
              call_setTriggering false]).
Proof.
  intros Hs Htm. ld_run.
  destruct s as [s|]; ld_eval; decide_known; ld_eval.
  - unfold resting. case_bool_decide as Hd; ld_eval; decide_known; ld_eval;
      rewrite <- !app_assoc; cbn [fmap option_fmap option_map]; [|done].
    by injection Hd as <-.
  - by rewrite <- !app_assoc.
Qed.

End LadderFacts.

Section LadderGeneral.
Import Ladder.

Ltac ld_open :=
  lazy beta iota zeta delta
    [step commit effect cleanup isRunning current_dep resume runLadder
     runLadder_catch poll setStatus setSlips setExpanded setTriggering
     set_timers set_ref set_dep drop_request set_unmounted suspend emit
     page_status slips expanded triggering pollRef effect_dep timers inflight
     mounted log andb negb orb];
  rewrite ?(list_lookup_middle _ []), ?(delete_middle _ []), ?app_nil_r by done;
  cbn [fmap option_fmap option_map].

(** With the poll effect up to date, React has nothing to run. *)
Lemma commit_stable (st : State) : stable st → commit st = st.
Proof.
  unfold stable, commit. intros Hst.
  destruct (mounted st); [|done].
  rewrite Hst by done. by rewrite bool_decide_eq_true_2.
Qed.

(** After React has run the effect, it is up to date. *)
Lemma commit_makes_stable (st : State) : stable (commit st).
Proof.
  unfold commit.
  destruct (mounted st) eqn:Hm; cbn [andb]; [|unfold stable; congruence].
  case_bool_decide as Hd; cbn [negb]; [by unfold stable|].
  unfold stable, effect, isRunning.
  case_bool_decide; by ld_open.
Qed.

(** The states a run goes through are stable. *)
Lemma step_stable (st : State) (e : Event) : stable st → stable (step st e).
Proof.
  intros Hst. destruct e as [|id|i r|]; unfold step.
  - destruct (_ && _); [apply commit_makes_stable|done].
  - destruct (Timers.is_live _ _); [apply commit_makes_stable|done].
  - destruct (inflight st !! i); [|done].
    destruct (resume _ _ _); [apply commit_makes_stable|done].
  - destruct (mounted st); [|done]. unfold stable. by ld_open.
Qed.

Lemma init_stable : stable init.
Proof. by unfold stable. Qed.

Lemma run_stable (st : State) (evs : list Event) : stable st → stable (run st evs).
Proof.
  revert st. induction evs as [|e evs IH]; intros st Hst; [done|].
  apply IH. by apply step_stable.
Qed.

(** A tick whose status request is rejected: the request was sent, and
    that is all. *)
Lemma ladder_tick_rejected (st : State) (id : positive) :
  stable st →
  is_Some (Timers.live (timers st) !! id) →
  step (step st (Tick id)) (Settle (length (inflight st)) Rejected)
  = emit call_status st.
Proof.
  intros Hst [ms Hlive].
  destruct st as [ps sl ex tr ref dep tb fl mt lg].
  unfold stable in Hst. cbn [timers inflight mounted effect_dep current_dep
    page_status] in *.
  unfold step at 2. cbn [timers]. rewrite (is_live_Some id ms tb Hlive).
  destruct mt.
  - rewrite Hst by done. ld_open. decide_known. ld_open. decide_known. done.
  - ld_open. done.
Qed.

Lemma ladder_poll_reply_rejected (st : State) (i : nat) :
  stable st →
  inflight st !! i = Some PollStatus →
  step st (Settle i Rejected) = drop_request i st.
Proof.
  intros Hst Hi. unfold step. rewrite Hi. cbn [resume].
  by apply commit_stable.
Qed.

(** A start attempt from rest whose trigger call is rejected. *)
Lemma ladder_trigger_rejected (s : option LadderStatus) (sl : list Slip)
    (ex : option Z) (ref : option positive) (nx : positive) (lg : list Call) :
  status <$> s ≠ Some running →
  run (resting s sl ex ref nx lg) [ClickRun; Settle 0 Rejected]
  = resting s [] None ref nx
      (lg ++ [call_setTriggering true; call_setSlips []; call_setExpanded None;
              call_trigger; call_console_error; call_setTriggering false]).
Proof.
  intros Hs. unfold run, resting. cbn [fold_left].
  ld_open. decide_known. ld_open. decide_known.
  cbn [lookup list_lookup]. ld_open. decide_known.
  by rewrite <- !app_assoc.
Qed.

Lemma ladder_unmount_no_timers (st : State) :
  mounted st = true → owns_timers st →
  Timers.live (timers (step st Unmount)) = ∅.
Proof.
  intros Hm Hown. apply map_empty. intros id.
  unfold step. rewrite Hm. unfold cleanup, set_unmounted, set_timers. cbn [timers].
  destruct (Timers.live (timers st) !! id) as [ms|] eqn:E.
  - apply clear_not_live. apply Hown. by rewrite E.
  - destruct (pollRef st) as [t|]; [|done].
    unfold Timers.clearInterval. cbn [Timers.live].
    destruct (decide (t = id)) as [->|Hne].
    + apply lookup_delete_eq.
    + by rewrite lookup_delete_ne.
Qed.

Lemma ladder_unmount_clears_ref (st : State) (t : positive) :
  mounted st = true → pollRef st = Some t →
  Timers.live (timers (step st Unmount)) !! t = None.
Proof.
  intros Hm Hr. unfold step. rewrite Hm.
  unfold cleanup, set_unmounted, set_timers. cbn [timers].
  by apply clear_not_live.
Qed.

Lemma ladder_dead_page (st : State) (evs : list Event) :
  mounted st = false → Timers.live (timers st) = ∅ → inflight st = [] →
  run st evs = st.
Proof.
  intros Hm Hl Hf. induction evs as [|e evs IH]; [done|].
  unfold run in *. cbn [fold_left].
  assert (step st e = st) as ->; [|done].
  destruct e as [|id|i r|]; unfold step.
  - by rewrite Hm.
  - rewrite is_live_None; [done|]. by rewrite Hl.
  - by rewrite Hf.
  - by rewrite Hm.
Qed.

Lemma ladder_unmount_quiet (st : State) (evs : list Event) :
  mounted st = true → inflight st = [] → owns_timers st →
  run (step st Unmount) evs = step st Unmount.
Proof.
  intros Hm Hf Hown. apply ladder_dead_page.
  - unfold step. by rewrite Hm.
  - by apply ladder_unmount_no_timers.
  - unfold step. by rewrite Hm.
Qed.

End LadderGeneral.

(** ** The dashboard's refresh *)

Section DashboardFacts.
Import Dashboard.

Lemma dashboard_run_nil (st : State) : run st [] = st.
Proof. reflexivity. Qed.

Lemma dashboard_run_cons (st : State) (e : Event) (evs : list Event) :
  run st (e :: evs) = run (step st e) evs.
Proof. reflexivity. Qed.

Ltac db_eval :=
  lazy beta iota zeta delta
    [step commit rerun_effect effect cleanup resume handleRefresh poll
     fetchData fetchData_rest setTimeout_fetchData timeout
     setRefreshing setRefreshStatus setError set_timers set_effect
     drop_request set_unmounted suspend emit
     refreshing refreshStatus error effect_refreshing effect_timer timers
     inflight fetching timeouts mounted log resting polling busy
     lookup list_lookup delete list_delete andb negb];
  rewrite ?clear_singleton, ?clear_on_empty, ?set_on_empty,
    ?is_live_singleton, ?is_live_empty;
  cbn [app].

Ltac db_step :=
  first [rewrite dashboard_run_cons | rewrite dashboard_run_nil];
  repeat progress (db_eval; decide_known).

Ltac db_run := unfold attempt; repeat db_step.

Ltac db_open :=
  lazy beta iota zeta delta
    [step commit rerun_effect effect cleanup resume handleRefresh poll
     fetchData fetchData_rest setTimeout_fetchData timeout
     setRefreshing setRefreshStatus setError set_timers set_effect
     drop_request set_unmounted suspend emit
     refreshing refreshStatus error effect_refreshing effect_timer timers
     inflight fetching timeouts mounted log andb negb];
  rewrite ?(list_lookup_middle _ []), ?(delete_middle _ []), ?app_nil_r by done.

(** The click alone starts the poll timer. *)
Lemma dashboard_click (rs : option RefreshStatus) (err : option string)
    (nx : positive) (lg : list Call) :
  run (resting rs err nx lg) [ClickRefresh]
  = polling nx rs None [AwaitRefresh] (Pos.succ nx)
      (lg ++ [call_setRefreshing true; call_setError None; call_refresh]).
Proof. db_run. by rewrite <- !app_assoc. Qed.

Lemma dashboard_attempt (rs : option RefreshStatus) (err : option string)
    (nx : positive) (lg : list Call) (r : RefreshStatus) :
  run (resting rs err nx lg) (attempt 0 r)
  = polling nx (Some r) None [] (Pos.succ nx)
      (lg ++ [call_setRefreshing true; call_setError None; call_refresh;
              call_refreshStatus; call_setRefreshStatus r]).
Proof. db_run. by rewrite <- !app_assoc. Qed.

Lemma dashboard_trigger_rejected (rs : option RefreshStatus)
    (err : option string) (nx : positive) (lg : list Call) :
  run (resting rs err nx lg) [ClickRefresh; Settle 0 Rejected]
  = polling nx rs None [] (Pos.succ nx)
      (lg ++ [call_setRefreshing true; call_setError None; call_refresh;
              unhandled_rejection]).
Proof. db_run. by rewrite <- !app_assoc. Qed.

Lemma dashboard_commit_stable (st : State) : stable st → commit st = st.
Proof.
  unfold stable, commit. intros Hst.
  destruct (mounted st); [|done].
  rewrite Hst by done. by rewrite bool_decide_eq_true_2.
Qed.

Lemma dashboard_effect_stable (st : State) : stable (rerun_effect st).
Proof.
  unfold rerun_effect, effect, stable.
  destruct (refreshing (cleanup st)) eqn:E; db_open; cbn in E; by rewrite ?E.
Qed.

Lemma dashboard_commit_makes_stable (st : State) : stable (commit st).
Proof.
  unfold commit.
  destruct (mounted st) eqn:Hm; cbn [andb]; [|unfold stable; congruence].
  case_bool_decide as Hd; cbn [negb]; [by unfold stable|].
  apply dashboard_effect_stable.
Qed.

Lemma dashboard_step_stable (st : State) (e : Event) :
  stable st → stable (step st e).
Proof.
  intros Hst. destruct e as [| |id|i r| |failure|]; unfold step.
  - destruct (_ && _); [apply dashboard_commit_makes_stable|done].
  - destruct (mounted st); [apply dashboard_effect_stable|done].
  - destruct (Timers.is_live _ _); [apply dashboard_commit_makes_stable|done].
  - destruct (inflight st !! i); [|done].
    destruct (resume _ _ _); [apply dashboard_commit_makes_stable|done].
  - apply dashboard_commit_makes_stable.
  - apply dashboard_commit_makes_stable.
  - destruct (mounted st); [|done]. unfold stable. by db_open.
Qed.

Lemma dashboard_init_stable : stable init.
Proof. by unfold stable. Qed.

Lemma dashboard_run_stable (st : State) (evs : list Event) :
  stable st → stable (run st evs).
Proof.
  revert st. induction evs as [|e evs IH]; intros st Hst; [done|].
  apply IH. by apply dashboard_step_stable.
Qed.

(** A tick whose status request is rejected: the request was sent and the
    rejection went unhandled; nothing else changed. *)
Lemma dashboard_tick_rejected (st : State) (id : positive) :
  stable st →
  is_Some (Timers.live (timers st) !! id) →
  step (step st (Tick id)) (Settle (length (inflight st)) Rejected)
  = emit unhandled_rejection (emit call_refreshStatus st).
Proof.
  intros Hst [ms Hlive].
  destruct st as [rf rs err dep tm tb fl fe to mt lg].
  unfold stable in Hst. cbn [timers inflight mounted effect_refreshing
    refreshing] in *.
  unfold step at 2. cbn [timers]. rewrite (is_live_Some id ms tb Hlive).
  destruct mt.
  - rewrite Hst by done. db_open. decide_known. db_open. decide_known. done.
  - db_open. done.
Qed.

Lemma dashboard_poll_reply_rejected (st : State) (i : nat) (id : positive) :
  stable st →
  inflight st !! i = Some (AwaitPoll id) →
  step st (Settle i Rejected) = emit unhandled_rejection (drop_request i st).
Proof.
  intros Hst Hi. unfold step. rewrite Hi. cbn [resume].
  by apply dashboard_commit_stable.
Qed.

Lemma dashboard_unmount_no_timers (st : State) :
  mounted st = true → owns_timers st →
  Timers.live (timers (step st Unmount)) = ∅.
Proof.
  intros Hm Hown. apply map_empty. intros id.
  unfold step. rewrite Hm. unfold cleanup, set_unmounted, set_timers. cbn [timers].
  destruct (Timers.live (timers st) !! id) as [ms|] eqn:E.
  - apply clear_not_live. apply Hown. by rewrite E.
  - destruct (effect_timer st) as [t|]; [|done].
    unfold Timers.clearInterval. cbn [Timers.live].
    destruct (decide (t = id)) as [->|Hne].
    + apply lookup_delete_eq.
    + by rewrite lookup_delete_ne.
Qed.

(** A page that is unmounted, has no live interval timer, no request in
    flight, no [fetchData] under way and no one-shot timer pending does
    nothing any more. *)
Lemma dashboard_dead_page (st : State) (evs : list Event) :
  mounted st = false → Timers.live (timers st) = ∅ → inflight st = [] →
  fetching st = 0 → timeouts st = 0 →
  run st evs = st.
Proof.
  intros Hm Hl Hf Hfe Hto. induction evs as [|e evs IH]; [done|].
  unfold run in *. cbn [fold_left].
  assert (step st e = st) as ->; [|done].
  destruct e as [| |id|i r| |failure|]; unfold step.
  - by rewrite Hm.
  - by rewrite Hm.
  - rewrite is_live_None; [done|]. by rewrite Hl.
  - by rewrite Hf.
  - unfold timeout. rewrite Hto. unfold commit. by rewrite Hm.
  - unfold fetchData_rest. rewrite Hfe. unfold commit. by rewrite Hm.
  - by rewrite Hm.
Qed.

Lemma dashboard_unmount_quiet (st : State) (evs : list Event) :
  mounted st = true → inflight st = [] → fetching st = 0 → timeouts st = 0 →
  owns_timers st →
  run (step st Unmount) evs = step st Unmount.
Proof.
  intros Hm Hf Hfe Hto Hown. apply dashboard_dead_page.
  - unfold step. by rewrite Hm.
  - by apply dashboard_unmount_no_timers.
  - unfold step. by rewrite Hm.
  - unfold step. by rewrite Hm.
  - unfold step. by rewrite Hm.
Qed.

End DashboardFacts.

(** ** Singles, multis and card keys *)

Section Classifier.
Import Ladder.

Lemma elem_of_singles (s : Slip) (slips : list Slip) :
  s ∈ singles slips ↔ s ∈ slips ∧ type s = Some single.
Proof. unfold singles. rewrite list_elem_of_filter. tauto. Qed.

Lemma elem_of_multis (s : Slip) (slips : list Slip) :
  s ∈ multis slips ↔ s ∈ slips ∧ type s ≠ Some single.
Proof. unfold multis. rewrite list_elem_of_filter. tauto. Qed.

Lemma singles_multis_length (slips : list Slip) :
  length (singles slips) + length (multis slips) = length slips.
Proof.
  rewrite <- length_app. apply Permutation_length.
  apply (filter_app_complement (λ s, type s = Some single)).
Qed.

Lemma keyed_keys (prefix : string) (group : list Slip) :
  (keyed prefix group).*1
  = (λ i, cardKey prefix (Z.of_nat i)) <$> seq 0 (length group).
Proof.
  unfold keyed. rewrite fmap_imap.
  rewrite <- (imap_seq_0 group (λ i, cardKey prefix (Z.of_nat i))).
  by apply imap_ext.
Qed.

Lemma keyed_lookup (prefix : string) (group : list Slip) (i : nat) (s : Slip) :
  group !! i = Some s →
  keyed prefix group !! i = Some (cardKey prefix (Z.of_nat i), s).
Proof. intros H. unfold keyed. by rewrite list_lookup_imap, H. Qed.

Lemma single_key_negative (i : nat) : (cardKey "s" (Z.of_nat i) < 0)%Z.
Proof. unfold cardKey. rewrite decide_True by done. lia. Qed.

Lemma multi_key_natural (i : nat) : (0 ≤ cardKey "m" (Z.of_nat i))%Z.
Proof. unfold cardKey. rewrite decide_False by done. lia. Qed.

Lemma card_keys_NoDup (slips : list Slip) :
  NoDup ((single_cards slips).*1 ++ (multi_cards slips).*1).
Proof.
  unfold single_cards, multi_cards. rewrite !keyed_keys.
  apply NoDup_app. split; [|split].
  - apply NoDup_fmap_2_strong; [|apply NoDup_seq].
    intros i j _ _. unfold cardKey. rewrite !decide_True by done. lia.
  - intros k (i & -> & _)%list_elem_of_fmap (j & Hk & _)%list_elem_of_fmap.
    pose proof (single_key_negative i). pose proof (multi_key_natural j). lia.
  - apply NoDup_fmap_2_strong; [|apply NoDup_seq].
    intros i j _ _. unfold cardKey. rewrite !decide_False by done. lia.
Qed.

Lemma card_keys_disjoint (slips : list Slip) (k1 k2 : Z) (s1 s2 : Slip) :
  (k1, s1) ∈ single_cards slips → (k2, s2) ∈ multi_cards slips → k1 ≠ k2.
Proof.
  unfold single_cards, multi_cards, keyed.
  intros (i & Hi)%list_elem_of_lookup (j & Hj)%list_elem_of_lookup.
  rewrite list_lookup_imap in Hi. rewrite list_lookup_imap in Hj.
  destruct (singles slips !! i); [|done]. destruct (multis slips !! j); [|done].
  cbn in Hi, Hj. injection Hi as <- _. injection Hj as <- _.
  pose proof (single_key_negative i). pose proof (multi_key_natural j). lia.
Qed.

Lemma well_tagged_singles (slips : list Slip) :
  well_tagged slips →
  singles slips = filter (λ s, length (legs s) = 1) slips ∧
  multis slips = filter (λ s, 2 ≤ length (legs s)) slips.
Proof.
  unfold well_tagged, singles, multis.
  induction 1 as [|s slips [Hne Htag] _ [IH1 IH2]]; [done|].
  rewrite !filter_cons, IH1, IH2.
  assert (length (legs s) ≠ 0) as Hlen by (destruct (legs s); done).
  destruct (decide (type s = Some single)) as [Hs|Hs];
    destruct (decide (type s ≠ Some single)) as [Hm|Hm];
    destruct (decide (length (legs s) = 1)) as [H1|H1];
    destruct (decide (2 ≤ length (legs s))) as [H2|H2];
    try done; exfalso; try tauto; lia.
Qed.

End Classifier.

(** ** Counting calls *)

Section Counting.

Lemma ac_count_app (c : AutoCheck.Call) (l1 l2 : list AutoCheck.Call) :
  AutoCheck.count c (l1 ++ l2) = AutoCheck.count c l1 + AutoCheck.count c l2.
Proof. unfold AutoCheck.count. by rewrite filter_app, length_app. Qed.

Lemma ac_count_cons (c x : AutoCheck.Call) (l : list AutoCheck.Call) :
  AutoCheck.count c (x :: l)
  = (if decide (x = c) then 1 else 0) + AutoCheck.count c l.
Proof. unfold AutoCheck.count. rewrite filter_cons. by case_decide. Qed.

Lemma ac_count_nil (c : AutoCheck.Call) : AutoCheck.count c [] = 0.
Proof. done. Qed.

Lemma ac_count_rounds (c : AutoCheck.Call) (rs : list AutoCheck.ResultsStatus) :
  AutoCheck.count c
    (rs ≫= λ r, [AutoCheck.call_status; AutoCheck.call_setCheckStatus (Some r)])
  = (if decide (c = AutoCheck.call_status) then length rs else 0)
    + length (filter (λ r, AutoCheck.call_setCheckStatus (Some r) = c) rs).
Proof.
  induction rs as [|r rs IH]; [by case_decide|].
  rewrite bind_cons, ac_count_app, IH, filter_cons.
  unfold AutoCheck.count. rewrite !filter_cons, filter_nil.
  repeat case_decide; subst; cbn [length]; try congruence; lia.
Qed.

Lemma ladder_count_app (c : Ladder.Call) (l1 l2 : list Ladder.Call) :
  Ladder.count c (l1 ++ l2) = Ladder.count c l1 + Ladder.count c l2.
Proof. unfold Ladder.count. by rewrite filter_app, length_app. Qed.

Lemma ladder_count_cons (c x : Ladder.Call) (l : list Ladder.Call) :
  Ladder.count c (x :: l)
  = (if decide (x = c) then 1 else 0) + Ladder.count c l.
Proof. unfold Ladder.count. rewrite filter_cons. by case_decide. Qed.

Lemma ladder_count_nil (c : Ladder.Call) : Ladder.count c [] = 0.
Proof. done. Qed.

Lemma ladder_count_rounds (c : Ladder.Call) (rs : list Ladder.LadderStatus) :
  Ladder.count c (rs ≫= λ r, [Ladder.call_status; Ladder.call_setStatus r])
  = (if decide (c = Ladder.call_status) then length rs else 0)
    + length (filter (λ r, Ladder.call_setStatus r = c) rs).
Proof.
  induction rs as [|r rs IH]; [by case_decide|].
  rewrite bind_cons, ladder_count_app, IH, filter_cons.
  unfold Ladder.count. rewrite !filter_cons, filter_nil.
  repeat case_decide; subst; cbn [length]; try congruence; lia.
Qed.

Lemma dashboard_count_cons (c x : Dashboard.Call) (l : list Dashboard.Call) :
  Dashboard.count c (x :: l)
  = (if decide (x = c) then 1 else 0) + Dashboard.count c l.
Proof. unfold Dashboard.count. rewrite filter_cons. by case_decide. Qed.

Lemma dashboard_count_nil (c : Dashboard.Call) : Dashboard.count c [] = 0.
Proof. done. Qed.

End Counting.

(** Count the calls of a given kind in a list that is written out. *)
Ltac count_calls :=
  decide_known; repeat case_decide;
  rewrite ?ac_count_cons, ?ac_count_nil, ?ladder_count_cons, ?ladder_count_nil,
    ?dashboard_count_cons, ?dashboard_count_nil;
  decide_known; lia.

(* ================================================================= *)
(** * The claims about the rollups and the classifier *)

Section SummaryClaims.
Import PropResults ResultsPage.

(** C7.  In the rollup by player and market, a row whose result is null
    is counted in the pending counter of its group, and its score is part
    of the group's mean score, which is taken over the pending and the
    graded rows together; it is counted neither among the hits nor in
    [total], the number of graded rows, which alone the hit rate divides
    by.  The group of a row consists of the rows with the same joined name
    [player || market]; when no player name contains the character [|]
    these are exactly the rows of the same player and market, and the
    entry carries their names. *)
Theorem C7_pending_rows_in_player_rollup
    (rows : list PropResult) (r : PropResult) :
  r ∈ rows → leg_result r = None →
  let g := filter (Expected.grouped_with r) rows in
  ∃ st, st ∈ computePlayerStats rows ∧
    r ∈ g ∧
    ps_pending st = length (filter (λ r', leg_result r' = None) g) ∧
    0 < ps_pending st ∧
    ps_total st = length (filter (λ r', leg_result r' ≠ None) g) ∧
    ps_hits st = length (filter (λ r', leg_result r' = Some HIT) g) ∧
    ps_pending st + ps_total st = length g ∧
    ps_hit_pct st = Expected.hit_rate (ps_hits st) (ps_total st) ∧
    ps_avg_score st = Expected.mean g ∧
    (Forall (λ r', no_bar (player_name r') = true) rows →
     g = filter (Expected.same_pair r) rows ∧
     ps_player st = player_name r ∧ ps_market st = market_label r).
Proof.
  intros Hin Hnull.
  destruct (row_stat rows r Hin) as (st & Hst & Hg & Hstat).
  exists st. split; [done|]. cbn zeta.
  rewrite <- grouped_rows.
  destruct (group_stat_fields _ _ Hstat) as (_ & Hp & Ht & Hh & Hpct & Havg).
  assert (r ∈ filter is_pending (group (player_key r) rows)) as Hrp.
  { by apply list_elem_of_filter. }
  split_and!.
  - done.
  - exact Hp.
  - rewrite Hp. destruct (filter is_pending _); [by apply elem_of_nil in Hrp|].
    cbn [length]. lia.
  - exact Ht.
  - exact Hh.
  - rewrite Hp, Ht. symmetry. apply filter_split_pending.
  - rewrite Hpct. apply rate_as_expected.
  - rewrite Havg. apply mean_as_expected.
  - intros Hrows.
    assert (no_bar (player_name r) = true) as Hr.
    { rewrite Forall_forall in Hrows. by apply Hrows. }
    rewrite (group_is_pair rows r Hrows Hr). split; [by apply list_filter_iff|].
    rewrite (group_is_pair rows r Hrows Hr) in Hstat.
    by apply (pair_stat_names rows).
Qed.

Lemma C7_witness :
  let g := filter (Expected.grouped_with Examples.pending_row) Examples.rows in
  ∃ st, st ∈ computePlayerStats Examples.rows ∧
    Examples.pending_row ∈ g ∧
    ps_pending st = length (filter (λ r', leg_result r' = None) g) ∧
    0 < ps_pending st ∧
    ps_total st = length (filter (λ r', leg_result r' ≠ None) g) ∧
    ps_hits st = length (filter (λ r', leg_result r' = Some HIT) g) ∧
    ps_pending st + ps_total st = length g ∧
    ps_hit_pct st = Expected.hit_rate (ps_hits st) (ps_total st) ∧
    ps_avg_score st = Expected.mean g ∧
    (Forall (λ r', no_bar (player_name r') = true) Examples.rows →
     g = filter (Expected.same_pair Examples.pending_row) Examples.rows ∧
     ps_player st = "Jokic" ∧ ps_market st = "Points").
Proof.
  apply (C7_pending_rows_in_player_rollup Examples.rows Examples.pending_row).
  - unfold Examples.rows. apply list_elem_of_further, list_elem_of_here.
  - reflexivity.
Defined.




(** Doubles, not exact fractions: 23 hits of 40 are 57 per cent, since
    [23 / 40] is rounded down to a double and [57.49999999999999] rounds
    to 57. *)
Example rate_of_23_in_40 :
  rate 23 40 = JS.of_Z 57 ∧ Analytics.pct (JS.Fin 23) (JS.Fin 40) = JS.of_Z 57.
Proof. vm_compute. done. Qed.

(** C10.  In the rollup by player and market every row puts a score into
    the mean of its group: [avg_score] is the mean, rounded to the nearest
    whole number, of the scores of all rows of the group, graded and
    pending, added up in row order, where a row with a [value_score]
    counts with it and a row without one counts with the score 0.  The
    divisor is the number of all rows of the group. *)
Theorem C10_missing_score_counts_as_zero
    (rows : list PropResult) (r : PropResult) :
  r ∈ rows →
  let g := filter (Expected.grouped_with r) rows in
  ∃ st, st ∈ computePlayerStats rows ∧
    r ∈ g ∧
    ps_avg_score st = Expected.mean g ∧
    length g = ps_pending st + ps_total st ∧
    (Forall (λ r', no_bar (player_name r') = true) rows →
     g = filter (Expected.same_pair r) rows ∧
     ps_player st = player_name r ∧ ps_market st = market_label r).
Proof.
  intros Hin.
  destruct (row_stat rows r Hin) as (st & Hst & Hg & Hstat).
  exists st. split; [done|]. cbn zeta.
  rewrite <- grouped_rows.
  destruct (group_stat_fields _ _ Hstat) as (Hne & Hp & Ht & _ & _ & Havg).
  split_and!.
  - done.
  - rewrite Havg. apply mean_as_expected.
  - rewrite Hp, Ht. apply filter_split_pending.
  - intros Hrows.
    assert (no_bar (player_name r) = true) as Hr.
    { rewrite Forall_forall in Hrows. by apply Hrows. }
    rewrite (group_is_pair rows r Hrows Hr). split; [by apply list_filter_iff|].
    rewrite (group_is_pair rows r Hrows Hr) in Hstat.
    by apply (pair_stat_names rows).
Qed.

Lemma C10_witness :
  let g := filter (Expected.grouped_with Examples.unscored_row) Examples.rows in
  ∃ st, st ∈ computePlayerStats Examples.rows ∧
    Examples.unscored_row ∈ g ∧
    ps_avg_score st = Expected.mean g ∧
    length g = ps_pending st + ps_total st ∧
    (Forall (λ r', no_bar (player_name r') = true) Examples.rows →
     g = filter (Expected.same_pair Examples.unscored_row) Examples.rows ∧
     ps_player st = "Jokic" ∧ ps_market st = "Points").
Proof.
  apply (C10_missing_score_counts_as_zero Examples.rows Examples.unscored_row).
  unfold Examples.rows. do 3 apply list_elem_of_further. apply list_elem_of_here.
Defined.

(** The sample rows: Jokic/Points has the scores 80, 64 (pending) and a
    missing one; the mean is (80 + 64 + 0) / 3 = 48, not (80 + 64) / 2. *)
Example player_rollup_of_sample_rows :
  computePlayerStats Examples.rows =
  [ {| ps_player := "Jokic"; ps_market := "Points"; ps_total := 2; ps_hits := 1;
       ps_hit_pct := JS.of_Z 50; ps_avg_score := JS.of_Z 48; ps_pending := 1 |};
    {| ps_player := "Murray"; ps_market := "Assists"; ps_total := 1; ps_hits := 0;
       ps_hit_pct := JS.of_Z 0; ps_avg_score := JS.of_Z 31; ps_pending := 0 |} ]
  ∧ Expected.mean (filter (Expected.grouped_with Examples.unscored_row) Examples.rows)
    = JS.of_Z 48.
Proof. vm_compute. done. Qed.

(** The mean is computed in double precision: the scores 48.3, 93.1 and
    67.1 have the mean 69.5, but the sum of the three doubles is just below
    208.5 and [avg_score] is 69. *)
Example mean_of_three_scores :
  ps_avg_score <$> computePlayerStats
    [Examples.row "Jokic" "Points" (Some (483 # 10)) (Some HIT);
     Examples.row "Jokic" "Points" (Some (931 # 10)) (Some MISS);
     Examples.row "Jokic" "Points" (Some (671 # 10)) None]
  = [JS.of_Z 69].
Proof. vm_compute. done. Qed.

End SummaryClaims.

Section ClassifierClaims.
Import Ladder.

(** The classifier splits the list into the slips tagged ["single"] and
    all others, keeps the input order in each group, and gives the i-th
    single the key -(i+1) and the i-th multi the key i, so that no two
    cards share a key; when the tags agree with the leg counts the two
    groups are the one-leg and the two-or-more-leg slips. *)
Lemma classifier_splits_by_tag (slips : list Slip) :
  (∀ s, s ∈ singles slips ↔ s ∈ slips ∧ type s = Some single) ∧
  (∀ s, s ∈ multis slips ↔ s ∈ slips ∧ type s ≠ Some single) ∧
  length (singles slips) + length (multis slips) = length slips ∧
  singles slips `sublist_of` slips ∧
  multis slips `sublist_of` slips ∧
  (∀ i s, singles slips !! i = Some s →
          single_cards slips !! i = Some ((- (Z.of_nat i + 1))%Z, s)) ∧
  (∀ i s, multis slips !! i = Some s →
          multi_cards slips !! i = Some (Z.of_nat i, s)) ∧
  NoDup ((single_cards slips).*1 ++ (multi_cards slips).*1) ∧
  (∀ k1 s1 k2 s2, (k1, s1) ∈ single_cards slips →
                  (k2, s2) ∈ multi_cards slips → k1 ≠ k2) ∧
  (well_tagged slips →
   singles slips = filter (λ s, length (legs s) = 1) slips ∧
   multis slips = filter (λ s, 2 ≤ length (legs s)) slips).
Proof.
  split_and!.
  - intros s. apply elem_of_singles.
  - intros s. apply elem_of_multis.
  - apply singles_multis_length.
  - apply sublist_filter.
  - apply sublist_filter.
  - intros i s Hi. unfold single_cards. rewrite (keyed_lookup "s" _ i s Hi).
    unfold cardKey. by rewrite decide_True.
  - intros i s Hi. unfold multi_cards. rewrite (keyed_lookup "m" _ i s Hi).
    unfold cardKey. by rewrite decide_False.
  - apply card_keys_NoDup.
  - intros k1 s1 k2 s2. apply card_keys_disjoint.
  - apply well_tagged_singles.
Qed.

Example sample_slips_split_by_legs :
  singles Examples.ladder_slips
    = filter (λ s, length (legs s) = 1) Examples.ladder_slips ∧
  multis Examples.ladder_slips
    = filter (λ s, 2 ≤ length (legs s)) Examples.ladder_slips.
Proof.
  apply (classifier_splits_by_tag Examples.ladder_slips).
  unfold well_tagged, Examples.ladder_slips.
  repeat constructor; try discriminate; cbn; intros; congruence.
Qed.


Example cards_of_sample_slips :
  (single_cards Examples.ladder_slips).*1 = [(-1)%Z; (-2)%Z] ∧
  (multi_cards Examples.ladder_slips).*1 = [0%Z; 1%Z].
Proof. vm_compute. done. Qed.

End ClassifierClaims.

(* ================================================================= *)
(** * The claims about the poll loops *)

Section DashboardRounds.
Import Dashboard RefreshLoop.

Ltac page_eval :=
  lazy beta iota zeta delta
    [step commit rerun_effect effect cleanup resume handleRefresh poll
     fetchData fetchData_rest setTimeout_fetchData timeout
     setRefreshing setRefreshStatus setError set_timers set_effect
     drop_request set_unmounted suspend emit
     refreshing refreshStatus error effect_refreshing effect_timer timers
     inflight fetching timeouts mounted log resting polling busy
     lookup list_lookup delete list_delete andb negb];
  rewrite ?clear_singleton, ?clear_on_empty, ?set_on_empty,
    ?is_live_singleton, ?is_live_empty;
  cbn [app].

Ltac page_step :=
  first [rewrite dashboard_run_cons | rewrite dashboard_run_nil];
  repeat progress (page_eval; decide_known).

Ltac page_run := unfold round, attempt; repeat page_step.

Lemma dashboard_run_app (st : State) (evs1 evs2 : list Event) :
  run st (evs1 ++ evs2) = run (run st evs1) evs2.
Proof. apply fold_left_app. Qed.

(** A round that sees the refresh still running changes the status on
    display and nothing else; [f] runs of [fetchData] are under way and
    [n] one-shot timers pending. *)
Lemma refresh_round_running (f n : nat) (t : positive)
    (rs : option RefreshStatus) (err : option string) (nx : positive)
    (lg : list Call) (r : RefreshStatus) :
  running r = true →
  run (busy f n (polling t rs err [] nx lg)) (round t r)
  = busy f n (polling t (Some r) err [] nx
                (lg ++ [call_refreshStatus; call_setRefreshStatus r])).
Proof. intros Hr. page_run. rewrite Hr. page_eval. by rewrite <- app_assoc. Qed.

(** The round that sees the refresh finished ends the loop and schedules
    the reload. *)
Lemma refresh_round_terminal (f n : nat) (t : positive)
    (rs : option RefreshStatus) (err : option string) (nx : positive)
    (lg : list Call) (tm : RefreshStatus) :
  running tm = false →
  run (busy f n (polling t rs err [] nx lg)) (round t tm)
  = busy f (S n)
      (resting (Some tm) err nx
         (lg ++ [call_refreshStatus; call_setRefreshStatus tm;
                 call_setRefreshing false; call_setTimeout_fetchData 500])).
Proof.
  intros Hr. page_run. rewrite Hr. repeat (page_eval; decide_known).
  by rewrite <- !app_assoc.
Qed.

Lemma refresh_rounds_running (f n : nat) (t : positive)
    (rs : list RefreshStatus) (s : option RefreshStatus) (err : option string)
    (nx : positive) (lg : list Call) :
  Forall (λ r, running r = true) rs →
  run (busy f n (polling t s err [] nx lg)) (rounds t rs)
  = busy f n (polling t (from_option Some s (last rs)) err [] nx
                (lg ++ (rs ≫= λ r, [call_refreshStatus; call_setRefreshStatus r]))).
Proof.
  intros Hrs. revert s lg.
  induction Hrs as [|r rs Hr Hrs IH]; intros s lg.
  - cbn. by rewrite app_nil_r.
  - unfold rounds. rewrite bind_cons, dashboard_run_app,
      (refresh_round_running _ _ _ _ _ _ _ _ Hr).
    fold (rounds t rs). rewrite IH, bind_cons, <- app_assoc, last_cons.
    by destruct (last rs).
Qed.

Lemma dashboard_count_app (c : Call) (l1 l2 : list Call) :
  count c (l1 ++ l2) = count c l1 + count c l2.
Proof. unfold count. by rewrite filter_app, length_app. Qed.

Lemma dashboard_count_rounds (c : Call) (rs : list RefreshStatus) :
  count c (rs ≫= λ r, [call_refreshStatus; call_setRefreshStatus r])
  = (if decide (c = call_refreshStatus) then length rs else 0)
    + length (filter (λ r, call_setRefreshStatus r = c) rs).
Proof.
  induction rs as [|r rs IH]; [by case_decide|].
  rewrite bind_cons, dashboard_count_app, IH, filter_cons.
  unfold count. rewrite !filter_cons, filter_nil.
  repeat case_decide; subst; cbn [length]; try congruence; lia.
Qed.

(** A whole refresh, every request answered before the next tick. *)
Lemma refresh_served (rs0 : option RefreshStatus) (err : option string)
    (nx : positive) (lg : list Call) (r : RefreshStatus)
    (rs : list RefreshStatus) (tm : RefreshStatus) :
  Forall (λ r, running r = true) rs → running tm = false →
  run (resting rs0 err nx lg) (attempt 0 r ++ rounds nx rs ++ round nx tm)
  = busy 0 1
      (resting (Some tm) None (Pos.succ nx)
         (lg ++ [call_setRefreshing true; call_setError None; call_refresh;
                 call_refreshStatus; call_setRefreshStatus r]
             ++ (rs ≫= λ r, [call_refreshStatus; call_setRefreshStatus r])
             ++ [call_refreshStatus; call_setRefreshStatus tm;
                 call_setRefreshing false; call_setTimeout_fetchData 500])).
Proof.
  intros Hrs Htm.
  rewrite !dashboard_run_app, dashboard_attempt.
  change (polling nx (Some r) None [] (Pos.succ nx) ?l)
    with (busy 0 0 (polling nx (Some r) None [] (Pos.succ nx) l)).
  rewrite (refresh_rounds_running _ _ _ _ _ _ _ _ Hrs),
    (refresh_round_terminal _ _ _ _ _ _ _ _ Htm).
  by rewrite <- !app_assoc.
Qed.

End DashboardRounds.

Section LoopRuns.

Lemma autoCheck_calls_since (st0 st1 : AutoCheck.State) (new : list AutoCheck.Call) :
  AutoCheck.log st1 = AutoCheck.log st0 ++ new →
  AutoCheck.calls_since st0 st1 = new.
Proof. intros H. unfold AutoCheck.calls_since. by rewrite H, drop_app_length. Qed.

Lemma ladder_calls_since (st0 st1 : Ladder.State) (new : list Ladder.Call) :
  Ladder.log st1 = Ladder.log st0 ++ new →
  Ladder.calls_since st0 st1 = new.
Proof. intros H. unfold Ladder.calls_since. by rewrite H, drop_app_length. Qed.

Lemma dashboard_calls_since (st0 st1 : Dashboard.State) (new : list Dashboard.Call) :
  Dashboard.log st1 = Dashboard.log st0 ++ new →
  Dashboard.calls_since st0 st1 = new.
Proof. intros H. unfold Dashboard.calls_since. by rewrite H, drop_app_length. Qed.

Lemma autoCheck_calls_since_resting cs ref nx lg n cs' ref' nx' new :
  AutoCheck.calls_since (AutoCheck.resting cs ref nx lg)
    (AutoCheck.loading n (AutoCheck.resting cs' ref' nx' (lg ++ new))) = new.
Proof. by apply autoCheck_calls_since. Qed.

Lemma ladder_calls_since_polling t s sl ex nx lg s' sl' ex' ref' nx' new :
  Ladder.calls_since (Ladder.polling t s sl ex nx lg)
    (Ladder.resting s' sl' ex' ref' nx' (lg ++ new)) = new.
Proof. by apply ladder_calls_since. Qed.

(** An attempt of [autoCheck] served by a status source that answers
    [running] to the fetches [rs] and then [tm]. *)
Lemma autoCheck_served (nulls : bool) (cs : option AutoCheck.ResultsStatus)
    (ref : option positive) (nx : positive) (lg : list AutoCheck.Call)
    (ack : AutoCheck.ResultsStatus) (rs : list AutoCheck.ResultsStatus)
    (tm : AutoCheck.ResultsStatus) :
  Forall (λ r, AutoCheck.status r = AutoCheck.running) rs →
  AutoCheck.status tm ≠ AutoCheck.running →
  AutoCheck.run nulls (AutoCheck.resting cs ref nx lg)
    (AutoCheck.served nx ack (rs ++ [tm]))
  = AutoCheck.loading (if decide (AutoCheck.status tm = AutoCheck.done) then 1 else 0)
      (AutoCheck.resting (Some tm)
         (match rs with [] => ref | _ => if nulls then None else Some nx end)
         (match rs with [] => nx | _ => Pos.succ nx end)
         (lg ++ [AutoCheck.call_setChecking true; AutoCheck.call_setCheckStatus None;
                 AutoCheck.call_check]
             ++ (rs ≫= λ r, [AutoCheck.call_status;
                             AutoCheck.call_setCheckStatus (Some r)])
             ++ [AutoCheck.call_status; AutoCheck.call_setCheckStatus (Some tm);
                 AutoCheck.call_setChecking false]
             ++ (if decide (AutoCheck.status tm = AutoCheck.done)
                 then [AutoCheck.call_load] else []))).
Proof.
  intros Hrs Htm. destruct Hrs as [|r rs Hr Hrs].
  - cbn [app AutoCheck.served AutoCheck.rounds mbind list_bind].
    rewrite app_nil_r, (attempt_terminal _ _ _ _ _ _ _ Htm).
    done.
  - cbn [app AutoCheck.served]. unfold AutoCheck.rounds.
    rewrite bind_app, !run_app, (attempt_running _ _ _ _ _ _ _ Hr).
    fold (AutoCheck.rounds nx rs). rewrite (rounds_running _ _ _ _ _ _ Hrs).
    cbn [mbind list_bind app]. rewrite app_nil_r.
    rewrite (round_terminal _ _ _ _ _ _ Htm).
    f_equal. rewrite <- !app_assoc. done.
Qed.

Lemma autoCheck_served_running (nulls : bool) (cs : option AutoCheck.ResultsStatus)
    (ref : option positive) (nx : positive) (lg : list AutoCheck.Call)
    (ack : AutoCheck.ResultsStatus) (rs : list AutoCheck.ResultsStatus) :
  Forall (λ r, AutoCheck.status r = AutoCheck.running) rs → rs ≠ [] →
  Timers.live (AutoCheck.timers
    (AutoCheck.run nulls (AutoCheck.resting cs ref nx lg)
       (AutoCheck.served nx ack rs))) = {[nx := 2000%Z]}.
Proof.
  intros Hrs Hne. destruct Hrs as [|r rs Hr Hrs]; [done|].
  cbn [AutoCheck.served].
  rewrite run_app, (attempt_running _ _ _ _ _ _ _ Hr),
    (rounds_running _ _ _ _ _ _ Hrs).
  done.
Qed.

(** The poll loop of the ladder page from a tick on: [running] for the
    rounds [rs], then [tm], then the results of a finished search. *)
Lemma ladder_served (t : positive) (s : Ladder.LadderStatus) (sl : list Ladder.Slip)
    (ex : option Z) (nx : positive) (lg : list Ladder.Call)
    (rs : list Ladder.LadderStatus) (tm : Ladder.LadderStatus)
    (res : list Ladder.Slip) :
  Ladder.status s = Ladder.running →
  Forall (λ r, Ladder.status r = Ladder.running) rs →
  Ladder.status tm ≠ Ladder.running →
  Timers.live (Ladder.timers
    (Ladder.run (Ladder.polling t s sl ex nx lg)
       (Ladder.rounds t rs ++ Ladder.round t tm))) = ∅ ∧
  Ladder.run (Ladder.polling t s sl ex nx lg)
    (Ladder.rounds t rs ++ Ladder.round t tm ++ Ladder.results_served tm res)
  = Ladder.resting (Some tm)
      (if decide (Ladder.status tm = Ladder.done) then res else sl) ex (Some t) nx
      (lg ++ (rs ≫= λ r, [Ladder.call_status; Ladder.call_setStatus r])
          ++ [Ladder.call_status; Ladder.call_setStatus tm]
          ++ (if decide (Ladder.status tm = Ladder.done)
              then [Ladder.call_results; Ladder.call_setSlips res] else [])).
Proof.
  intros Hs Hrs Htm.
  destruct (ladder_rounds_running t rs s sl ex nx lg Hs Hrs) as [Hrun Hlast].
  rewrite !ladder_run_app, Hrun, (ladder_round_terminal _ _ _ _ _ _ _ Hlast Htm).
  split; [done|].
  rewrite ladder_results_served.
  f_equal. rewrite <- !app_assoc. by case_decide.
Qed.

(** A whole search of the ladder page, from the click on. *)
Lemma ladder_attempt_served (s : option Ladder.LadderStatus)
    (sl : list Ladder.Slip) (ex : option Z) (ref : option positive)
    (nx : positive) (lg : list Ladder.Call) (r : Ladder.LadderStatus)
    (rs : list Ladder.LadderStatus) (tm : Ladder.LadderStatus)
    (res : list Ladder.Slip) :
  Ladder.status <$> s ≠ Some Ladder.running →
  Ladder.status r = Ladder.running →
  Forall (λ r, Ladder.status r = Ladder.running) rs →
  Ladder.status tm ≠ Ladder.running →
  Timers.live (Ladder.timers
    (Ladder.run (Ladder.resting s sl ex ref nx lg)
       (Ladder.attempt 0 r ++ Ladder.rounds nx rs ++ Ladder.round nx tm))) = ∅ ∧
  Ladder.run (Ladder.resting s sl ex ref nx lg)
    (Ladder.attempt 0 r ++ Ladder.rounds nx rs ++ Ladder.round nx tm
       ++ Ladder.results_served tm res)
  = Ladder.resting (Some tm)
      (if decide (Ladder.status tm = Ladder.done) then res else []) None
      (Some nx) (Pos.succ nx)
      (lg ++ [Ladder.call_setTriggering true; Ladder.call_setSlips [];
              Ladder.call_setExpanded None; Ladder.call_trigger;
              Ladder.call_status; Ladder.call_setStatus r;
              Ladder.call_setTriggering false]
          ++ (rs ≫= λ r, [Ladder.call_status; Ladder.call_setStatus r])
          ++ [Ladder.call_status; Ladder.call_setStatus tm]
          ++ (if decide (Ladder.status tm = Ladder.done)
              then [Ladder.call_results; Ladder.call_setSlips res] else [])).
Proof.
  intros Hs Hr Hrs Htm.
  destruct (ladder_served nx r [] None (Pos.succ nx)
              (lg ++ [Ladder.call_setTriggering true; Ladder.call_setSlips [];
                      Ladder.call_setExpanded None; Ladder.call_trigger;
                      Ladder.call_status; Ladder.call_setStatus r;
                      Ladder.call_setTriggering false])
              rs tm res Hr Hrs Htm) as [Hdead Hrun].
  split.
  - rewrite ladder_run_app, (ladder_attempt_running s sl ex ref nx lg r Hs Hr).
    exact Hdead.
  - rewrite ladder_run_app, (ladder_attempt_running s sl ex ref nx lg r Hs Hr), Hrun.
    f_equal. by rewrite <- !app_assoc.
Qed.

End LoopRuns.

Section LoopClaims.

(** C1, as stated, fails: the timer is a plain [setInterval], which does
    not wait for the previous callback.  On the prop-results page the
    status source answers [running], [done], [done] to three consecutive
    fetches (so N = 1); the second tick fires while the request of the
    first is still unanswered.  The loop makes three status fetches, not
    two, and runs its terminal handling twice. *)
Lemma C1_counterexample_overlapping_ticks :
  AutoCheck.count AutoCheck.call_status
    (AutoCheck.calls_since AutoCheck.init
       (PropResults.run AutoCheck.init
          (AutoCheck.attempt (Examples.results_status AutoCheck.running)
                             (Examples.results_status AutoCheck.running)
           ++ [AutoCheck.Tick 1; AutoCheck.Tick 1;
               AutoCheck.Settle 0 (Some (Examples.results_status AutoCheck.done));
               AutoCheck.Settle 0 (Some (Examples.results_status AutoCheck.done))])))
  = 3
  ∧
  AutoCheck.count (AutoCheck.call_setChecking false)
    (AutoCheck.calls_since AutoCheck.init
       (PropResults.run AutoCheck.init
          (AutoCheck.attempt (Examples.results_status AutoCheck.running)
                             (Examples.results_status AutoCheck.running)
           ++ [AutoCheck.Tick 1; AutoCheck.Tick 1;
               AutoCheck.Settle 0 (Some (Examples.results_status AutoCheck.done));
               AutoCheck.Settle 0 (Some (Examples.results_status AutoCheck.done))])))
  = 2
  ∧
  AutoCheck.count AutoCheck.call_load
    (AutoCheck.calls_since AutoCheck.init
       (PropResults.run AutoCheck.init
          (AutoCheck.attempt (Examples.results_status AutoCheck.running)
                             (Examples.results_status AutoCheck.running)
           ++ [AutoCheck.Tick 1; AutoCheck.Tick 1;
               AutoCheck.Settle 0 (Some (Examples.results_status AutoCheck.done));
               AutoCheck.Settle 0 (Some (Examples.results_status AutoCheck.done))])))
  = 2.
Proof. vm_compute. done. Qed.

(** C1, amended.  A status source that answers [running] to N consecutive
    fetches and then a terminal status, every request being answered before
    the next tick fires.

    [autoCheck] (both copies), from rest, for every N: the attempt makes
    exactly N+1 status fetches; its terminal handling
    ([setChecking(false)], and [load()] for [done]) runs exactly once; while
    the answers are [running] its timer is live; after the terminal answer
    no timer is live, no status request is in flight and no tick can occur.

    The ladder page, for N >= 1.  From the click on [Run Ladder] (the first
    of the N+1 fetches is the one [runLadder] makes, the others are the
    timer's) and likewise from a state in which the poll effect has set its
    timer: exactly N+1 status fetches; the terminal status is applied once
    and the results of a finished search are requested and stored once; the
    timer is dead as soon as the terminal status has been seen, and
    afterwards nothing is in flight and no tick can occur.

    The dashboard's refresh, from the click on.  The first status is
    fetched by [handleRefresh] and displayed without being examined; the
    timer's callback fetches the others and stops at the first that is not
    running.  So when the timer's callback is answered [running] n times
    and then not, there are exactly n+2 status fetches: these are the N+1
    fetches of a sequence with N = n+1 >= 1 whose first answer is running,
    and 2 fetches where the first answer is already terminal (N = 0).
    [setRefreshing(false)] and [setTimeout(fetchData, 500)] are called
    exactly once; afterwards no interval timer is live, no status request
    is in flight and no tick can occur; the one-shot timer of the reload is
    pending. *)
Theorem C1_poll_loop_stops_at_terminal_status :
  (∀ (nulls : bool) cs ref nx lg ack rs tm,
     Forall (λ r, AutoCheck.status r = AutoCheck.running) rs →
     AutoCheck.status tm ≠ AutoCheck.running →
     let st0 := AutoCheck.resting cs ref nx lg in
     let st1 := AutoCheck.run nulls st0 (AutoCheck.served nx ack (rs ++ [tm])) in
     let calls := AutoCheck.calls_since st0 st1 in
     AutoCheck.count AutoCheck.call_status calls = length rs + 1 ∧
     AutoCheck.count (AutoCheck.call_setChecking false) calls = 1 ∧
     AutoCheck.count AutoCheck.call_load calls
       = (if decide (AutoCheck.status tm = AutoCheck.done) then 1 else 0) ∧
     AutoCheck.checkStatus st1 = Some tm ∧
     AutoCheck.checking st1 = false ∧
     (rs ≠ [] →
      Timers.live (AutoCheck.timers
        (AutoCheck.run nulls st0 (AutoCheck.served nx ack rs)))
      = {[nx := 2000%Z]}) ∧
     Timers.live (AutoCheck.timers st1) = ∅ ∧
     AutoCheck.inflight st1 = [] ∧
     AutoCheck.loads st1
       = (if decide (AutoCheck.status tm = AutoCheck.done) then 1 else 0) ∧
     (∀ id, AutoCheck.step nulls st1 (AutoCheck.Tick id) = st1))
  ∧
  (∀ s sl ex ref nx lg r rs tm res,
     Ladder.status <$> s ≠ Some Ladder.running →
     Forall (λ r, Ladder.status r = Ladder.running) (r :: rs) →
     Ladder.status tm ≠ Ladder.running →
     let st0 := Ladder.resting s sl ex ref nx lg in
     let st1 := Ladder.run st0 (Ladder.attempt 0 r ++ Ladder.rounds nx rs
                                  ++ Ladder.round nx tm) in
     let st2 := Ladder.run st0 (Ladder.attempt 0 r ++ Ladder.rounds nx rs
                                  ++ Ladder.round nx tm
                                  ++ Ladder.results_served tm res) in
     let calls := Ladder.calls_since st0 st2 in
     Ladder.count Ladder.call_status calls = length (r :: rs) + 1 ∧
     Ladder.count (Ladder.call_setStatus tm) calls = 1 ∧
     Ladder.count Ladder.call_results calls
       = (if decide (Ladder.status tm = Ladder.done) then 1 else 0) ∧
     Ladder.count (Ladder.call_setSlips res) calls
       = (if decide (Ladder.status tm = Ladder.done) then 1 else 0)
         + (if decide (res = []) then 1 else 0) ∧
     Ladder.page_status st2 = Some tm ∧
     Timers.live (Ladder.timers (Ladder.run st0 (Ladder.attempt 0 r)))
       = {[nx := 2000%Z]} ∧
     Timers.live (Ladder.timers st1) = ∅ ∧
     Timers.live (Ladder.timers st2) = ∅ ∧
     Ladder.inflight st2 = [] ∧
     (∀ id, Ladder.step st2 (Ladder.Tick id) = st2))
  ∧
  (∀ t s sl ex nx lg rs tm res,
     Ladder.status s = Ladder.running →
     Forall (λ r, Ladder.status r = Ladder.running) rs →
     Ladder.status tm ≠ Ladder.running →
     let st0 := Ladder.polling t s sl ex nx lg in
     let st1 := Ladder.run st0 (Ladder.rounds t rs ++ Ladder.round t tm) in
     let st2 := Ladder.run st0 (Ladder.rounds t rs ++ Ladder.round t tm
                                  ++ Ladder.results_served tm res) in
     let calls := Ladder.calls_since st0 st2 in
     Ladder.count Ladder.call_status calls = length rs + 1 ∧
     Ladder.count (Ladder.call_setStatus tm) calls = 1 ∧
     Ladder.count Ladder.call_results calls
       = (if decide (Ladder.status tm = Ladder.done) then 1 else 0) ∧
     Ladder.count (Ladder.call_setSlips res) calls
       = (if decide (Ladder.status tm = Ladder.done) then 1 else 0) ∧
     Ladder.page_status st2 = Some tm ∧
     Timers.live (Ladder.timers st0) = {[t := 2000%Z]} ∧
     Timers.live (Ladder.timers st1) = ∅ ∧
     Timers.live (Ladder.timers st2) = ∅ ∧
     Ladder.inflight st2 = [] ∧
     (∀ id, Ladder.step st2 (Ladder.Tick id) = st2))
  ∧
  (∀ rs0 err nx lg r rs tm,
     Forall (λ r, Dashboard.running r = true) rs →
     Dashboard.running tm = false →
     let st0 := Dashboard.resting rs0 err nx lg in
     let st1 := Dashboard.run st0 (Dashboard.attempt 0 r ++ RefreshLoop.rounds nx rs
                                     ++ RefreshLoop.round nx tm) in
     let calls := Dashboard.calls_since st0 st1 in
     Dashboard.count Dashboard.call_refreshStatus calls = length rs + 2 ∧
     Dashboard.count (Dashboard.call_setRefreshing false) calls = 1 ∧
     Dashboard.count (Dashboard.call_setTimeout_fetchData 500) calls = 1 ∧
     Dashboard.refreshStatus st1 = Some tm ∧
     Dashboard.refreshing st1 = false ∧
     Timers.live (Dashboard.timers (Dashboard.run st0 (Dashboard.attempt 0 r)))
       = {[nx := 1500%Z]} ∧
     Timers.live (Dashboard.timers st1) = ∅ ∧
     Dashboard.inflight st1 = [] ∧
     Dashboard.timeouts st1 = 1 ∧
     (∀ id, Dashboard.step st1 (Dashboard.Tick id) = st1)).
Proof.
  split_and!.
  - intros nulls cs ref nx lg ack rs tm Hrs Htm. cbn zeta.
    rewrite (autoCheck_served nulls cs ref nx lg ack rs tm Hrs Htm).
    rewrite !autoCheck_calls_since_resting.
    rewrite !ac_count_app, !ac_count_rounds.
    assert (∀ c, (∀ r, AutoCheck.call_setCheckStatus r ≠ c) →
              length (filter (λ r, AutoCheck.call_setCheckStatus (Some r) = c) rs) = 0)
      as Hnone.
    { intros c Hc. induction rs as [|r rs' IH]; [done|].
      rewrite filter_cons. rewrite decide_False by apply Hc.
      apply IH. by inversion Hrs. }
    rewrite !Hnone by done.
    split_and!; try done; try count_calls.
    intros Hne. by apply autoCheck_served_running.
  - intros s sl ex ref nx lg r rs tm res Hs Hall Htm. cbn zeta.
    apply Forall_cons in Hall as [Hr Hrs].
    destruct (ladder_attempt_served s sl ex ref nx lg r rs tm res Hs Hr Hrs Htm)
      as [Hdead Hrun].
    rewrite Hrun, Hdead, (ladder_attempt_running s sl ex ref nx lg r Hs Hr).
    erewrite !ladder_calls_since by reflexivity.
    rewrite !ladder_count_app, !ladder_count_rounds.
    assert (length (filter (λ r, Ladder.call_setStatus r = Ladder.call_setStatus tm) rs) = 0)
      as Htm0.
    { clear Hdead Hrun. induction Hrs as [|r' rs' Hr' Hrs' IH]; [done|].
      rewrite filter_cons. rewrite decide_False; [done|].
      intros [= ->]. congruence. }
    assert (∀ c, (∀ r, Ladder.call_setStatus r ≠ c) →
              length (filter (λ r, Ladder.call_setStatus r = c) rs) = 0)
      as Hnone.
    { intros c Hc. clear Hdead Hrun Htm0. induction rs as [|r' rs' IH]; [done|].
      rewrite filter_cons. rewrite decide_False by apply Hc.
      apply IH. by inversion Hrs. }
    assert (r ≠ tm) as Hrtm by congruence.
    rewrite Htm0, !Hnone by done. cbn [length].
    split_and!; try done; count_calls.
  - intros t s sl ex nx lg rs tm res Hs Hrs Htm. cbn zeta.
    destruct (ladder_served t s sl ex nx lg rs tm res Hs Hrs Htm) as [Hdead Hrun].
    rewrite Hrun, Hdead.
    rewrite !ladder_calls_since_polling.
    rewrite !ladder_count_app, !ladder_count_rounds.
    assert (length (filter (λ r, Ladder.call_setStatus r = Ladder.call_setStatus tm) rs) = 0)
      as Htm0.
    { clear Hdead Hrun. induction Hrs as [|r rs' Hr Hrs' IH]; [done|].
      rewrite filter_cons. rewrite decide_False; [done|].
      intros [= ->]. congruence. }
    assert (∀ c, (∀ r, Ladder.call_setStatus r ≠ c) →
              length (filter (λ r, Ladder.call_setStatus r = c) rs) = 0)
      as Hnone.
    { intros c Hc. clear Hdead Hrun Htm0. induction rs as [|r rs' IH]; [done|].
      rewrite filter_cons. rewrite decide_False by apply Hc.
      apply IH. by inversion Hrs. }
    rewrite Htm0, !Hnone by done.
    split_and!; try done; count_calls.
  - intros rs0 err nx lg r rs tm Hrs Htm. cbn zeta.
    rewrite (refresh_served rs0 err nx lg r rs tm Hrs Htm), dashboard_attempt.
    erewrite !dashboard_calls_since by reflexivity.
    rewrite !dashboard_count_app, !dashboard_count_rounds.
    assert (∀ c, (∀ r, Dashboard.call_setRefreshStatus r ≠ c) →
              length (filter (λ r, Dashboard.call_setRefreshStatus r = c) rs) = 0)
      as Hnone.
    { intros c Hc. clear Hrs. induction rs as [|r' rs' IH]; [done|].
      rewrite filter_cons. rewrite decide_False by apply Hc. apply IH. }
    rewrite !Hnone by done.
    split_and!; try done; count_calls.
Qed.

Lemma C1_witness :
  AutoCheck.count AutoCheck.call_status
    (AutoCheck.calls_since AutoCheck.init
       (PropResults.run AutoCheck.init
          (AutoCheck.served 1 (Examples.results_status AutoCheck.running)
             [Examples.results_status AutoCheck.running;
              Examples.results_status AutoCheck.running;
              Examples.results_status AutoCheck.done]))) = 3
  ∧
  Ladder.count Ladder.call_status
    (Ladder.calls_since
       (Ladder.resting None [] None None 1 [])
       (Ladder.run
          (Ladder.resting None [] None None 1 [])
          (Ladder.attempt 0 (Examples.ladder_status Ladder.running 10)
             ++ Ladder.rounds 1 [Examples.ladder_status Ladder.running 40]
             ++ Ladder.round 1 (Examples.ladder_status Ladder.done 90)
             ++ Ladder.results_served (Examples.ladder_status Ladder.done 90)
                  Examples.ladder_slips))) = 3
  ∧
  Ladder.count Ladder.call_status
    (Ladder.calls_since
       (Ladder.polling 1 (Examples.ladder_status Ladder.running 10) [] None 2 [])
       (Ladder.run
          (Ladder.polling 1 (Examples.ladder_status Ladder.running 10) [] None 2 [])
          (Ladder.rounds 1 [Examples.ladder_status Ladder.running 40]
             ++ Ladder.round 1 (Examples.ladder_status Ladder.done 90)
             ++ Ladder.results_served (Examples.ladder_status Ladder.done 90)
                  Examples.ladder_slips))) = 2
  ∧
  Dashboard.count Dashboard.call_refreshStatus
    (Dashboard.calls_since
       (Dashboard.resting None None 1 [])
       (Dashboard.run
          (Dashboard.resting None None 1 [])
          (Dashboard.attempt 0 (Examples.refresh_status true 10)
             ++ RefreshLoop.rounds 1 [Examples.refresh_status true 40]
             ++ RefreshLoop.round 1 (Examples.refresh_status false 100)))) = 3.
Proof.
  split_and!.
  - apply (proj1 C1_poll_loop_stops_at_terminal_status true None None 1%positive []
             (Examples.results_status AutoCheck.running)
             [Examples.results_status AutoCheck.running;
              Examples.results_status AutoCheck.running]
             (Examples.results_status AutoCheck.done)).
    + repeat constructor.
    + discriminate.
  - apply (proj1 (proj2 C1_poll_loop_stops_at_terminal_status)
             None [] None None 1%positive []
             (Examples.ladder_status Ladder.running 10)
             [Examples.ladder_status Ladder.running 40]
             (Examples.ladder_status Ladder.done 90) Examples.ladder_slips).
    + discriminate.
    + repeat constructor.
    + discriminate.
  - apply (proj1 (proj2 (proj2 C1_poll_loop_stops_at_terminal_status)) 1%positive
             (Examples.ladder_status Ladder.running 10) [] None 2%positive []
             [Examples.ladder_status Ladder.running 40]
             (Examples.ladder_status Ladder.done 90) Examples.ladder_slips).
    + reflexivity.
    + repeat constructor.
    + discriminate.
  - apply (proj2 (proj2 (proj2 C1_poll_loop_stops_at_terminal_status))
             None None 1%positive []
             (Examples.refresh_status true 10)
             [Examples.refresh_status true 40]
             (Examples.refresh_status false 100)).
    + repeat constructor.
    + reflexivity.
Defined.

(** With N = 0 the refresh does not stop at the first status: the answer
    to [handleRefresh]'s fetch is displayed without being examined, and
    the loop ends only when the timer's callback has fetched the status
    once more. *)
Example refresh_first_status_not_examined :
  Timers.live (Dashboard.timers
    (Dashboard.run (Dashboard.resting None None 1 [])
       (Dashboard.attempt 0 (Examples.refresh_status false 100))))
  = {[1%positive := 1500%Z]}
  ∧
  Dashboard.count Dashboard.call_refreshStatus
    (Dashboard.calls_since (Dashboard.resting None None 1 [])
       (Dashboard.run (Dashboard.resting None None 1 [])
          (Dashboard.attempt 0 (Examples.refresh_status false 100)
             ++ RefreshLoop.round 1 (Examples.refresh_status false 100)))) = 2.
Proof. vm_compute. done. Qed.

(** C2, as stated, fails: the code has no cancellation flag.  On the
    prop-results page a tick sends its status request, the page is
    unmounted (the cleanup clears the timer), and the answer [done] arrives:
    the continuation still calls [setCheckStatus], [setChecking] and
    [load]. *)
Lemma C2_counterexample_reply_after_unmount :
  AutoCheck.mounted
    (PropResults.run AutoCheck.init
       (AutoCheck.attempt (Examples.results_status AutoCheck.running)
                          (Examples.results_status AutoCheck.running)
        ++ [AutoCheck.Tick 1; AutoCheck.Unmount])) = false
  ∧
  Timers.live (AutoCheck.timers
    (PropResults.run AutoCheck.init
       (AutoCheck.attempt (Examples.results_status AutoCheck.running)
                          (Examples.results_status AutoCheck.running)
        ++ [AutoCheck.Tick 1; AutoCheck.Unmount]))) = ∅
  ∧
  AutoCheck.calls_since
    (PropResults.run AutoCheck.init
       (AutoCheck.attempt (Examples.results_status AutoCheck.running)
                          (Examples.results_status AutoCheck.running)
        ++ [AutoCheck.Tick 1; AutoCheck.Unmount]))
    (PropResults.run AutoCheck.init
       (AutoCheck.attempt (Examples.results_status AutoCheck.running)
                          (Examples.results_status AutoCheck.running)
        ++ [AutoCheck.Tick 1; AutoCheck.Unmount;
            AutoCheck.Settle 0 (Some (Examples.results_status AutoCheck.done))]))
  = [AutoCheck.call_setCheckStatus (Some (Examples.results_status AutoCheck.done));
     AutoCheck.call_setChecking false;
     AutoCheck.call_load].
Proof. vm_compute. done. Qed.

(** C2, amended.  Unmounting a page clears at once the timer whose handle
    its poll loop holds ([checkPollRef], [pollRef], the handle in the
    refresh effect's closure).  If at that moment nothing of the page is
    pending (no request in flight, no reload of the table under way, no
    one-shot timer scheduled) and the only live timer is the one held,
    then no timer is live afterwards and nothing happens, whatever events
    follow: no call is made, no status is stored, no timer is set. *)
Theorem C2_unmount_stops_the_loop :
  (∀ (nulls : bool) (st : AutoCheck.State),
     AutoCheck.mounted st = true →
     (∀ t, AutoCheck.checkPollRef st = Some t →
           Timers.live (AutoCheck.timers (AutoCheck.step nulls st AutoCheck.Unmount))
             !! t = None) ∧
     (AutoCheck.inflight st = [] → AutoCheck.loads st = 0 →
      AutoCheck.owns_timers st →
      Timers.live (AutoCheck.timers (AutoCheck.step nulls st AutoCheck.Unmount)) = ∅ ∧
      ∀ evs, AutoCheck.run nulls (AutoCheck.step nulls st AutoCheck.Unmount) evs
             = AutoCheck.step nulls st AutoCheck.Unmount))
  ∧
  (∀ st : Ladder.State,
     Ladder.mounted st = true →
     (∀ t, Ladder.pollRef st = Some t →
           Timers.live (Ladder.timers (Ladder.step st Ladder.Unmount)) !! t = None) ∧
     (Ladder.inflight st = [] → Ladder.owns_timers st →
      Timers.live (Ladder.timers (Ladder.step st Ladder.Unmount)) = ∅ ∧
      ∀ evs, Ladder.run (Ladder.step st Ladder.Unmount) evs
             = Ladder.step st Ladder.Unmount))
  ∧
  (∀ st : Dashboard.State,
     Dashboard.mounted st = true →
     (∀ t, Dashboard.effect_timer st = Some t →
           Timers.live (Dashboard.timers (Dashboard.step st Dashboard.Unmount))
             !! t = None) ∧
     (Dashboard.inflight st = [] → Dashboard.fetching st = 0 →
      Dashboard.timeouts st = 0 → Dashboard.owns_timers st →
      Timers.live (Dashboard.timers (Dashboard.step st Dashboard.Unmount)) = ∅ ∧
      ∀ evs, Dashboard.run (Dashboard.step st Dashboard.Unmount) evs
             = Dashboard.step st Dashboard.Unmount)).
Proof.
  split_and!.
  - intros nulls st Hm. split.
    + intros t Ht. by apply unmount_clears_ref.
    + intros Hf Hld Hown. split; [by apply unmount_no_timers|].
      intros evs. by apply unmount_quiet.
  - intros st Hm. split.
    + intros t Ht. by apply ladder_unmount_clears_ref.
    + intros Hf Hown. split; [by apply ladder_unmount_no_timers|].
      intros evs. by apply ladder_unmount_quiet.
  - intros st Hm. split.
    + intros t Ht. unfold Dashboard.step. rewrite Hm.
      unfold Dashboard.cleanup, Dashboard.set_unmounted, Dashboard.set_timers.
      cbn [Dashboard.timers]. by apply clear_not_live.
    + intros Hf Hfe Hto Hown. split; [by apply dashboard_unmount_no_timers|].
      intros evs. by apply dashboard_unmount_quiet.
Qed.

Lemma polling_owns_timers (t : positive) (s : AutoCheck.ResultsStatus)
    (nx : positive) (lg : list AutoCheck.Call) :
  AutoCheck.owns_timers (AutoCheck.polling t s nx lg).
Proof.
  intros id [ms Hid]. cbn in Hid.
  apply lookup_singleton_Some in Hid as [-> _]. done.
Qed.

Lemma ladder_polling_owns_timers (t : positive) (s : Ladder.LadderStatus)
    (sl : list Ladder.Slip) (ex : option Z) (nx : positive)
    (lg : list Ladder.Call) :
  Ladder.owns_timers (Ladder.polling t s sl ex nx lg).
Proof.
  intros id [ms Hid]. cbn in Hid.
  apply lookup_singleton_Some in Hid as [-> _]. done.
Qed.

Lemma dashboard_polling_owns_timers (t : positive)
    (rs : option Dashboard.RefreshStatus) (err : option string)
    (pend : list Dashboard.Await) (nx : positive) (lg : list Dashboard.Call) :
  Dashboard.owns_timers (Dashboard.polling t rs err pend nx lg).
Proof.
  intros id [ms Hid]. cbn in Hid.
  apply lookup_singleton_Some in Hid as [-> _]. done.
Qed.

Lemma C2_witness :
  (Timers.live (AutoCheck.timers
     (PropResults.step
        (AutoCheck.polling 1 (Examples.results_status AutoCheck.running) 2 [])
        AutoCheck.Unmount)) = ∅
   ∧
   PropResults.run
     (PropResults.step
        (AutoCheck.polling 1 (Examples.results_status AutoCheck.running) 2 [])
        AutoCheck.Unmount)
     [AutoCheck.Tick 1; AutoCheck.Settle 0 (Some (Examples.results_status AutoCheck.done));
      AutoCheck.LoadSettled true; AutoCheck.ClickCheck]
   = PropResults.step
       (AutoCheck.polling 1 (Examples.results_status AutoCheck.running) 2 [])
       AutoCheck.Unmount)
  ∧
  (Timers.live (Ladder.timers
     (Ladder.step
        (Ladder.polling 1 (Examples.ladder_status Ladder.running 10) [] None 2 [])
        Ladder.Unmount)) = ∅
   ∧
   Ladder.run
     (Ladder.step
        (Ladder.polling 1 (Examples.ladder_status Ladder.running 10) [] None 2 [])
        Ladder.Unmount)
     [Ladder.Tick 1; Ladder.ClickRun]
   = Ladder.step
       (Ladder.polling 1 (Examples.ladder_status Ladder.running 10) [] None 2 [])
       Ladder.Unmount)
  ∧
  (Timers.live (Dashboard.timers
     (Dashboard.step (Dashboard.polling 1 None None [] 2 []) Dashboard.Unmount)) = ∅
   ∧
   Dashboard.run
     (Dashboard.step (Dashboard.polling 1 None None [] 2 []) Dashboard.Unmount)
     [Dashboard.Tick 1; Dashboard.Timeout; Dashboard.FetchSettled None;
      Dashboard.ClickRefresh]
   = Dashboard.step (Dashboard.polling 1 None None [] 2 []) Dashboard.Unmount).
Proof.
  split; [|split].
  - destruct (proj1 C2_unmount_stops_the_loop true
                (AutoCheck.polling 1 (Examples.results_status AutoCheck.running) 2 [])
                eq_refl) as [_ Hquiet].
    destruct (Hquiet eq_refl eq_refl (polling_owns_timers _ _ _ _)) as [Hdead Hrun].
    split; [exact Hdead|]. apply Hrun.
  - destruct (proj1 (proj2 C2_unmount_stops_the_loop)
                (Ladder.polling 1 (Examples.ladder_status Ladder.running 10) [] None 2 [])
                eq_refl) as [_ Hquiet].
    destruct (Hquiet eq_refl (ladder_polling_owns_timers _ _ _ _ _ _)) as [Hdead Hrun].
    split; [exact Hdead|]. apply Hrun.
  - destruct (proj2 (proj2 C2_unmount_stops_the_loop)
                (Dashboard.polling 1 None None [] 2 []) eq_refl) as [_ Hquiet].
    destruct (Hquiet eq_refl eq_refl eq_refl (dashboard_polling_owns_timers _ _ _ _ _ _))
      as [Hdead Hrun].
    split; [exact Hdead|]. apply Hrun.
Defined.

(** An attempt that is still waiting for its first status when the page
    is unmounted sets its timer afterwards; nothing clears that timer
    before a terminal status arrives. *)
Example autoCheck_timer_set_after_unmount :
  Timers.live (AutoCheck.timers
    (PropResults.run AutoCheck.init
       [AutoCheck.ClickCheck;
        AutoCheck.Settle 0 (Some (Examples.results_status AutoCheck.running));
        AutoCheck.Unmount;
        AutoCheck.Settle 0 (Some (Examples.results_status AutoCheck.running))]))
  = {[1%positive := 2000%Z]}.
Proof. vm_compute. done. Qed.

(** What is pending at the unmount still runs.  The reload that a finished
    check has begun stores its rows after the page is gone, the reload of
    the history page's mount effect ends after it, and the one-shot timer that a finished refresh has scheduled is not cancelled
    by the cleanup: it fires and [fetchData] sends its requests. *)
Example pending_work_runs_after_unmount :
  AutoCheck.calls_since
    (PropResults.run AutoCheck.init
       (AutoCheck.served 1 (Examples.results_status AutoCheck.running)
          [Examples.results_status AutoCheck.done]
        ++ [AutoCheck.Unmount]))
    (PropResults.run AutoCheck.init
       (AutoCheck.served 1 (Examples.results_status AutoCheck.running)
          [Examples.results_status AutoCheck.done]
        ++ [AutoCheck.Unmount; AutoCheck.LoadSettled true]))
  = [AutoCheck.call_load_rest true]
  ∧
  AutoCheck.calls_since
    (History.run History.init [AutoCheck.Unmount])
    (History.run History.init [AutoCheck.Unmount; AutoCheck.LoadSettled false])
  = [AutoCheck.call_load_rest false]
  ∧
  Dashboard.calls_since
    (Dashboard.run (Dashboard.resting None None 1 [])
       (Dashboard.attempt 0 (Examples.refresh_status true 10)
        ++ RefreshLoop.round 1 (Examples.refresh_status false 100)
        ++ [Dashboard.Unmount]))
    (Dashboard.run (Dashboard.resting None None 1 [])
       (Dashboard.attempt 0 (Examples.refresh_status true 10)
        ++ RefreshLoop.round 1 (Examples.refresh_status false 100)
        ++ [Dashboard.Unmount; Dashboard.Timeout; Dashboard.FetchSettled None]))
  = [Dashboard.call_fetchData; Dashboard.call_fetchData_rest None].
Proof. vm_compute. done. Qed.

(** C3, as stated, fails for the refresh: [handleRefresh] sets [refreshing]
    before it calls the trigger and has no [try], so the poll effect has
    set its timer by the time the trigger is rejected, and nothing stops
    it or reports the failure. *)
Lemma C3_counterexample_refresh_polls_after_failed_trigger :
  Timers.live (Dashboard.timers
    (Dashboard.run Dashboard.init
       [Dashboard.ClickRefresh; Dashboard.Settle 0 Dashboard.Rejected]))
  = {[1%positive := 1500%Z]}
  ∧
  Dashboard.refreshing
    (Dashboard.run Dashboard.init
       [Dashboard.ClickRefresh; Dashboard.Settle 0 Dashboard.Rejected]) = true
  ∧
  Dashboard.error
    (Dashboard.run Dashboard.init
       [Dashboard.ClickRefresh; Dashboard.Settle 0 Dashboard.Rejected]) = None
  ∧
  Dashboard.calls_since Dashboard.init
    (Dashboard.run Dashboard.init
       [Dashboard.ClickRefresh; Dashboard.Settle 0 Dashboard.Rejected])
  = [Dashboard.call_setRefreshing true; Dashboard.call_setError None;
     Dashboard.call_refresh; Dashboard.unhandled_rejection].
Proof. vm_compute. done. Qed.

(** C3, amended.  When the trigger call of a results check or of a ladder
    search fails, the failure is caught at once (logged with
    [console.error], the busy flag cleared), no status is fetched and no
    timer is set for the attempt.  The refresh sets its poll timer when
    the attempt begins, before the trigger call has settled. *)
Theorem C3_failed_trigger_starts_no_polling :
  (∀ (nulls : bool) (st : AutoCheck.State),
     AutoCheck.mounted st = true → AutoCheck.checking st = false →
     let st1 := AutoCheck.run nulls st
       [AutoCheck.ClickCheck; AutoCheck.Settle (length (AutoCheck.inflight st)) None] in
     AutoCheck.calls_since st st1
       = [AutoCheck.call_setChecking true; AutoCheck.call_setCheckStatus None;
          AutoCheck.call_check; AutoCheck.call_console_error;
          AutoCheck.call_setChecking false] ∧
     AutoCheck.timers st1 = AutoCheck.timers st ∧
     AutoCheck.inflight st1 = AutoCheck.inflight st ∧
     AutoCheck.checking st1 = false)
  ∧
  (∀ s sl ex ref nx lg,
     Ladder.status <$> s ≠ Some Ladder.running →
     let st0 := Ladder.resting s sl ex ref nx lg in
     let st1 := Ladder.run st0 [Ladder.ClickRun; Ladder.Settle 0 Ladder.Rejected] in
     Ladder.calls_since st0 st1
       = [Ladder.call_setTriggering true; Ladder.call_setSlips [];
          Ladder.call_setExpanded None; Ladder.call_trigger;
          Ladder.call_console_error; Ladder.call_setTriggering false] ∧
     Ladder.timers st1 = Ladder.timers st0 ∧
     Ladder.inflight st1 = [] ∧
     Ladder.triggering st1 = false)
  ∧
  (∀ rs err nx lg,
     let st0 := Dashboard.resting rs err nx lg in
     let st1 := Dashboard.run st0 [Dashboard.ClickRefresh] in
     Dashboard.inflight st1 = [Dashboard.AwaitRefresh] ∧
     Timers.live (Dashboard.timers st1) = {[nx := 1500%Z]}).
Proof.
  split_and!.
  - intros nulls st Hm Hc. cbn zeta.
    rewrite (trigger_rejected nulls st Hm Hc).
    split_and!; try done. by apply autoCheck_calls_since.
  - intros s sl ex ref nx lg Hs. cbn zeta.
    rewrite (ladder_trigger_rejected s sl ex ref nx lg Hs).
    split_and!; try done. by apply ladder_calls_since.
  - intros rs err nx lg. cbn zeta. by rewrite dashboard_click.
Qed.

Lemma C3_witness :
  AutoCheck.timers
    (PropResults.run AutoCheck.init [AutoCheck.ClickCheck; AutoCheck.Settle 0 None])
  = Timers.empty
  ∧
  Ladder.timers
    (Ladder.run (Ladder.resting None [] None None 1 [])
       [Ladder.ClickRun; Ladder.Settle 0 Ladder.Rejected])
  = Timers.empty.
Proof.
  split.
  - apply (proj1 C3_failed_trigger_starts_no_polling true AutoCheck.init);
      reflexivity.
  - apply (proj1 (proj2 C3_failed_trigger_starts_no_polling)
             None [] None None 1%positive []).
    discriminate.
Defined.

(** C4, as stated, fails: the loop stops on every status other than
    [running].  On the answer [idle], which is neither [done] nor [error],
    the timer is cleared and the page stops checking. *)
Lemma C4_counterexample_idle_stops_the_loop :
  AutoCheck.status (Examples.results_status AutoCheck.idle) ≠ AutoCheck.done
  ∧ AutoCheck.status (Examples.results_status AutoCheck.idle) ≠ AutoCheck.error
  ∧ Timers.live (AutoCheck.timers
      (AutoCheck.polling 1 (Examples.results_status AutoCheck.running) 2 []))
    = {[1%positive := 2000%Z]}
  ∧ Timers.live (AutoCheck.timers
      (PropResults.run
         (AutoCheck.polling 1 (Examples.results_status AutoCheck.running) 2 [])
         (AutoCheck.round 1 (Examples.results_status AutoCheck.idle)))) = ∅
  ∧ AutoCheck.checking
      (PropResults.run
         (AutoCheck.polling 1 (Examples.results_status AutoCheck.running) 2 [])
         (AutoCheck.round 1 (Examples.results_status AutoCheck.idle))) = false.
Proof. vm_compute. done. Qed.

(** C4, amended.  A results-check poll loop (either copy) whose timer is
    the one held in [checkPollRef] goes on exactly while the fetched status
    is [running]: after a round that sees [running] the timer is still
    live, still the one held, and the page still checking; after a round
    that sees any other status ([idle], [done] or [error]) that timer is
    dead, its ticks change nothing any more, and the page has stopped
    checking.  Where that timer is the only live one, no timer is live
    afterwards.  The first fetch of an attempt decides in the same way
    whether a timer is set at all. *)
Theorem C4_loop_runs_while_status_is_running :
  (∀ (nulls : bool) (st : AutoCheck.State) t r,
     AutoCheck.checkPollRef st = Some t →
     is_Some (Timers.live (AutoCheck.timers st) !! t) →
     let st1 := AutoCheck.step nulls (AutoCheck.step nulls st (AutoCheck.Tick t))
                  (AutoCheck.Settle (length (AutoCheck.inflight st)) (Some r)) in
     (AutoCheck.status r = AutoCheck.running →
      AutoCheck.timers st1 = AutoCheck.timers st ∧
      AutoCheck.checkPollRef st1 = Some t ∧
      AutoCheck.checking st1 = AutoCheck.checking st) ∧
     (AutoCheck.status r ≠ AutoCheck.running →
      Timers.live (AutoCheck.timers st1) !! t = None ∧
      (AutoCheck.mounted st = true → AutoCheck.checking st1 = false) ∧
      (AutoCheck.owns_timers st → Timers.live (AutoCheck.timers st1) = ∅) ∧
      AutoCheck.step nulls st1 (AutoCheck.Tick t) = st1))
  ∧
  (∀ (nulls : bool) t s nx lg r,
     let st1 := AutoCheck.run nulls (AutoCheck.polling t s nx lg) (AutoCheck.round t r) in
     (AutoCheck.status r = AutoCheck.running →
      Timers.live (AutoCheck.timers st1) = {[t := 2000%Z]} ∧
      AutoCheck.checking st1 = true) ∧
     (AutoCheck.status r ≠ AutoCheck.running →
      Timers.live (AutoCheck.timers st1) = ∅ ∧
      AutoCheck.checking st1 = false))
  ∧
  (∀ (nulls : bool) cs ref nx lg ack r,
     let st1 := AutoCheck.run nulls (AutoCheck.resting cs ref nx lg)
                  (AutoCheck.attempt ack r) in
     (AutoCheck.status r = AutoCheck.running →
      Timers.live (AutoCheck.timers st1) = {[nx := 2000%Z]} ∧
      AutoCheck.checking st1 = true) ∧
     (AutoCheck.status r ≠ AutoCheck.running →
      Timers.live (AutoCheck.timers st1) = ∅ ∧
      AutoCheck.checking st1 = false)).
Proof.
  split_and!.
  - intros nulls st t r Href Hlive. cbn zeta. split; intros Hr.
    + rewrite (tick_answered_running nulls st t r Hlive Hr).
      by destruct st.
    + destruct (tick_answered_terminal_state nulls st t r Hlive Hr)
        as (Htb & Hck & _ & _).
      assert (Timers.live
                (AutoCheck.timers
                   (AutoCheck.step nulls (AutoCheck.step nulls st (AutoCheck.Tick t))
                      (AutoCheck.Settle (length (AutoCheck.inflight st)) (Some r))))
                !! t = None) as Hdead.
      { rewrite Htb. by apply clear_not_live. }
      split_and!.
      * exact Hdead.
      * intros Hm. by rewrite Hck, Hm.
      * intros Hown. rewrite Htb, Href. apply map_empty. intros id.
        unfold Timers.clearInterval. cbn [Timers.live].
        destruct (decide (t = id)) as [->|Hne]; [apply lookup_delete_eq|].
        rewrite lookup_delete_ne by done.
        destruct (Timers.live (AutoCheck.timers st) !! id) as [ms|] eqn:E; [|done].
        exfalso. apply Hne. pose proof (Hown id (mk_is_Some _ _ E)) as Hid. congruence.
      * unfold AutoCheck.step at 1. by rewrite (is_live_None _ _ Hdead).
  - intros nulls t s nx lg r. cbn zeta. split; intros Hr.
    + by rewrite (round_running nulls t s r nx lg Hr).
    + by rewrite (round_terminal nulls t s r nx lg Hr).
  - intros nulls cs ref nx lg ack r. cbn zeta. split; intros Hr.
    + by rewrite (attempt_running nulls cs ref nx lg ack r Hr).
    + by rewrite (attempt_terminal nulls cs ref nx lg ack r Hr).
Qed.

Lemma C4_witness :
  (AutoCheck.timers
     (PropResults.step
        (PropResults.step
           (AutoCheck.polling 1 (Examples.results_status AutoCheck.running) 2 [])
           (AutoCheck.Tick 1))
        (AutoCheck.Settle 0 (Some (Examples.results_status AutoCheck.running))))
   = AutoCheck.timers
       (AutoCheck.polling 1 (Examples.results_status AutoCheck.running) 2 [])
   ∧ AutoCheck.checkPollRef
       (PropResults.step
          (PropResults.step
             (AutoCheck.polling 1 (Examples.results_status AutoCheck.running) 2 [])
             (AutoCheck.Tick 1))
          (AutoCheck.Settle 0 (Some (Examples.results_status AutoCheck.running))))
     = Some 1%positive
   ∧ AutoCheck.checking
       (PropResults.step
          (PropResults.step
             (AutoCheck.polling 1 (Examples.results_status AutoCheck.running) 2 [])
             (AutoCheck.Tick 1))
          (AutoCheck.Settle 0 (Some (Examples.results_status AutoCheck.running))))
     = true)
  ∧
  Timers.live (AutoCheck.timers
     (History.step
        (History.step
           (AutoCheck.polling 1 (Examples.results_status AutoCheck.running) 2 [])
           (AutoCheck.Tick 1))
        (AutoCheck.Settle 0 (Some (Examples.results_status AutoCheck.idle)))))
    !! 1%positive = None
  ∧
  (Timers.live (AutoCheck.timers
     (PropResults.run
        (AutoCheck.polling 1 (Examples.results_status AutoCheck.running) 2 [])
        (AutoCheck.round 1 (Examples.results_status AutoCheck.running))))
   = {[1%positive := 2000%Z]}
   ∧ AutoCheck.checking
       (PropResults.run
          (AutoCheck.polling 1 (Examples.results_status AutoCheck.running) 2 [])
          (AutoCheck.round 1 (Examples.results_status AutoCheck.running))) = true)
  ∧
  (Timers.live (AutoCheck.timers
     (History.run
        (AutoCheck.polling 1 (Examples.results_status AutoCheck.running) 2 [])
        (AutoCheck.round 1 (Examples.results_status AutoCheck.error)))) = ∅
   ∧ AutoCheck.checking
       (History.run
          (AutoCheck.polling 1 (Examples.results_status AutoCheck.running) 2 [])
          (AutoCheck.round 1 (Examples.results_status AutoCheck.error))) = false).
Proof.
  split; [|split; [|split]].
  - apply (proj1 C4_loop_runs_while_status_is_running true
             (AutoCheck.polling 1 (Examples.results_status AutoCheck.running) 2 [])
             1%positive (Examples.results_status AutoCheck.running) eq_refl).
    + by eexists.
    + reflexivity.
  - apply (proj1 C4_loop_runs_while_status_is_running false
             (AutoCheck.polling 1 (Examples.results_status AutoCheck.running) 2 [])
             1%positive (Examples.results_status AutoCheck.idle) eq_refl).
    + by eexists.
    + discriminate.
  - apply (proj1 (proj2 C4_loop_runs_while_status_is_running) true 1%positive
             (Examples.results_status AutoCheck.running) 2%positive []
             (Examples.results_status AutoCheck.running)).
    reflexivity.
  - apply (proj1 (proj2 C4_loop_runs_while_status_is_running) false 1%positive
             (Examples.results_status AutoCheck.running) 2%positive []
             (Examples.results_status AutoCheck.error)).
    discriminate.
Defined.

(** The proviso matters.  The reply to a tick that was sent before its
    attempt ended clears [checking] while a later attempt is still waiting
    for its first status, so the button starts a further attempt; two
    timers are then live and [checkPollRef] holds the younger one.  The
    callback of the older timer, on a terminal status, clears the handle
    in [checkPollRef], that is the younger timer, and its own timer stays
    live: the older loop goes on fetching after it has seen [done].  The
    unmount, too, clears only the handle in [checkPollRef]. *)
Example overwritten_handle_keeps_older_loop_running :
  let overlap :=
    [AutoCheck.ClickCheck;
     AutoCheck.Settle 0 (Some (Examples.results_status AutoCheck.running));
     AutoCheck.Settle 0 (Some (Examples.results_status AutoCheck.running));
     AutoCheck.Tick 1; AutoCheck.Tick 1;
     AutoCheck.Settle 0 (Some (Examples.results_status AutoCheck.done));
     AutoCheck.ClickCheck;
     AutoCheck.Settle 1 (Some (Examples.results_status AutoCheck.running));
     AutoCheck.Settle 0 (Some (Examples.results_status AutoCheck.done));
     AutoCheck.ClickCheck;
     AutoCheck.Settle 1 (Some (Examples.results_status AutoCheck.running));
     AutoCheck.Settle 0 (Some (Examples.results_status AutoCheck.running));
     AutoCheck.Settle 0 (Some (Examples.results_status AutoCheck.running))] in
  let st := PropResults.run AutoCheck.init overlap in
  let st1 := PropResults.run st
    [AutoCheck.Tick 2;
     AutoCheck.Settle 0 (Some (Examples.results_status AutoCheck.done))] in
  AutoCheck.checkPollRef st = Some 3%positive ∧
  Timers.live (AutoCheck.timers st) = {[2%positive := 2000%Z; 3%positive := 2000%Z]} ∧
  AutoCheck.inflight st = [] ∧
  Timers.live (AutoCheck.timers st1) = {[2%positive := 2000%Z]} ∧
  AutoCheck.checking st1 = false ∧
  AutoCheck.calls_since st1
    (PropResults.step st1 (AutoCheck.Tick 2)) = [AutoCheck.call_status] ∧
  Timers.live (AutoCheck.timers (PropResults.step st AutoCheck.Unmount))
    = {[2%positive := 2000%Z]}.
Proof. vm_compute. done. Qed.

(** C5, as stated, fails for the refresh: its status fetches repeat every
    1500 ms, not every 2000 ms. *)
Lemma C5_counterexample_refresh_interval :
  Timers.live (Dashboard.timers
    (Dashboard.run Dashboard.init
       (Dashboard.attempt 0 (Examples.refresh_status true 40))))
  = {[1%positive := 1500%Z]}
  ∧ 1500%Z ≠ 2000%Z.
Proof. vm_compute. split; [done|discriminate]. Qed.

(** C5, amended.  After a successful trigger the client fetches the status
    once and applies it.  For a results check and for a ladder search a
    timer with a fixed interval of 2000 ms is then set exactly when that
    status is [running].  For a refresh the timer has a fixed interval of
    1500 ms and is set when the attempt begins. *)
Theorem C5_first_status_then_fixed_interval :
  (∀ (nulls : bool) cs ref nx lg ack r,
     let st0 := AutoCheck.resting cs ref nx lg in
     let st1 := AutoCheck.run nulls st0 (AutoCheck.attempt ack r) in
     AutoCheck.count AutoCheck.call_status (AutoCheck.calls_since st0 st1) = 1 ∧
     AutoCheck.count (AutoCheck.call_setCheckStatus (Some r))
       (AutoCheck.calls_since st0 st1) = 1 ∧
     AutoCheck.checkStatus st1 = Some r ∧
     Timers.live (AutoCheck.timers st1)
       = (if decide (AutoCheck.status r = AutoCheck.running)
          then {[nx := 2000%Z]} else ∅))
  ∧
  (∀ s sl ex ref nx lg r,
     Ladder.status <$> s ≠ Some Ladder.running →
     let st0 := Ladder.resting s sl ex ref nx lg in
     let st1 := Ladder.run st0 (Ladder.attempt 0 r) in
     Ladder.count Ladder.call_status (Ladder.calls_since st0 st1) = 1 ∧
     Ladder.count (Ladder.call_setStatus r) (Ladder.calls_since st0 st1) = 1 ∧
     Ladder.page_status st1 = Some r ∧
     Timers.live (Ladder.timers st1)
       = (if decide (Ladder.status r = Ladder.running)
          then {[nx := 2000%Z]} else ∅))
  ∧
  (∀ rs err nx lg r,
     let st0 := Dashboard.resting rs err nx lg in
     let st1 := Dashboard.run st0 (Dashboard.attempt 0 r) in
     Dashboard.count Dashboard.call_refreshStatus (Dashboard.calls_since st0 st1) = 1 ∧
     Dashboard.count (Dashboard.call_setRefreshStatus r)
       (Dashboard.calls_since st0 st1) = 1 ∧
     Dashboard.refreshStatus st1 = Some r ∧
     Timers.live (Dashboard.timers (Dashboard.run st0 [Dashboard.ClickRefresh]))
       = {[nx := 1500%Z]} ∧
     Timers.live (Dashboard.timers st1) = {[nx := 1500%Z]}).
Proof.
  split_and!.
  - intros nulls cs ref nx lg ack r. cbn zeta.
    destruct (decide (AutoCheck.status r = AutoCheck.running)) as [Hr|Hr].
    + rewrite (attempt_running nulls cs ref nx lg ack r Hr).
      erewrite !autoCheck_calls_since by reflexivity.
      split_and!; try done; count_calls.
    + rewrite (attempt_terminal nulls cs ref nx lg ack r Hr).
      erewrite !autoCheck_calls_since by reflexivity.
      split_and!; try done; rewrite ac_count_app; count_calls.
  - intros s sl ex ref nx lg r Hs. cbn zeta.
    destruct (decide (Ladder.status r = Ladder.running)) as [Hr|Hr].
    + rewrite (ladder_attempt_running s sl ex ref nx lg r Hs Hr).
      erewrite !ladder_calls_since by reflexivity.
      split_and!; try done; count_calls.
    + rewrite (ladder_attempt_terminal s sl ex ref nx lg r Hs Hr).
      erewrite !ladder_calls_since by reflexivity.
      split_and!; try done; count_calls.
  - intros rs err nx lg r. cbn zeta.
    rewrite dashboard_attempt, dashboard_click.
    erewrite !dashboard_calls_since by reflexivity.
    split_and!; try done; count_calls.
Qed.

Lemma C5_witness :
  Timers.live (Ladder.timers
    (Ladder.run (Ladder.resting None [] None None 1 [])
       (Ladder.attempt 0 (Examples.ladder_status Ladder.running 0))))
  = (if decide (Ladder.status (Examples.ladder_status Ladder.running 0)
                = Ladder.running)
     then {[1%positive := 2000%Z]} else ∅).
Proof.
  apply (proj1 (proj2 C5_first_status_then_fixed_interval)
           None [] None None 1%positive []
           (Examples.ladder_status Ladder.running 0)).
  discriminate.
Defined.

(** A poll tick whose status fetch fails changes nothing.  In each of the
    three loops, for a tick of a live timer whose request is rejected: the
    status on display, the flags, the refs, the timer table (so the next
    tick comes as scheduled) and the requests in flight are as before the
    tick, and no setter is called.  The only calls are the status request
    itself and, in the refresh loop, whose callback has no [try], the
    rejection that goes unhandled.  The same holds when the rejection
    arrives later, after other events: it removes its request from those
    in flight and changes nothing else. *)
Lemma rejected_status_fetch_changes_nothing :
  (∀ (nulls : bool) (st : AutoCheck.State) id,
     is_Some (Timers.live (AutoCheck.timers st) !! id) →
     let st1 := AutoCheck.step nulls (AutoCheck.step nulls st (AutoCheck.Tick id))
                  (AutoCheck.Settle (length (AutoCheck.inflight st)) None) in
     AutoCheck.checkStatus st1 = AutoCheck.checkStatus st ∧
     AutoCheck.checking st1 = AutoCheck.checking st ∧
     AutoCheck.checkPollRef st1 = AutoCheck.checkPollRef st ∧
     AutoCheck.timers st1 = AutoCheck.timers st ∧
     AutoCheck.inflight st1 = AutoCheck.inflight st ∧
     AutoCheck.mounted st1 = AutoCheck.mounted st ∧
     AutoCheck.log st1 = AutoCheck.log st ++ [AutoCheck.call_status])
  ∧
  (∀ (nulls : bool) (st : AutoCheck.State) i,
     AutoCheck.inflight st !! i = Some AutoCheck.AwaitPoll →
     AutoCheck.step nulls st (AutoCheck.Settle i None)
     = AutoCheck.drop_request i st)
  ∧
  (∀ (st : Ladder.State) id,
     Ladder.stable st →
     is_Some (Timers.live (Ladder.timers st) !! id) →
     let st1 := Ladder.step (Ladder.step st (Ladder.Tick id))
                  (Ladder.Settle (length (Ladder.inflight st)) Ladder.Rejected) in
     Ladder.page_status st1 = Ladder.page_status st ∧
     Ladder.slips st1 = Ladder.slips st ∧
     Ladder.triggering st1 = Ladder.triggering st ∧
     Ladder.pollRef st1 = Ladder.pollRef st ∧
     Ladder.timers st1 = Ladder.timers st ∧
     Ladder.inflight st1 = Ladder.inflight st ∧
     Ladder.mounted st1 = Ladder.mounted st ∧
     Ladder.log st1 = Ladder.log st ++ [Ladder.call_status])
  ∧
  (∀ (st : Ladder.State) i,
     Ladder.stable st →
     Ladder.inflight st !! i = Some Ladder.PollStatus →
     Ladder.step st (Ladder.Settle i Ladder.Rejected) = Ladder.drop_request i st)
  ∧
  (∀ (st : Dashboard.State) id,
     Dashboard.stable st →
     is_Some (Timers.live (Dashboard.timers st) !! id) →
     let st1 := Dashboard.step (Dashboard.step st (Dashboard.Tick id))
                  (Dashboard.Settle (length (Dashboard.inflight st)) Dashboard.Rejected) in
     Dashboard.refreshStatus st1 = Dashboard.refreshStatus st ∧
     Dashboard.refreshing st1 = Dashboard.refreshing st ∧
     Dashboard.error st1 = Dashboard.error st ∧
     Dashboard.effect_timer st1 = Dashboard.effect_timer st ∧
     Dashboard.timers st1 = Dashboard.timers st ∧
     Dashboard.inflight st1 = Dashboard.inflight st ∧
     Dashboard.mounted st1 = Dashboard.mounted st ∧
     Dashboard.log st1
       = Dashboard.log st ++ [Dashboard.call_refreshStatus;
                              Dashboard.unhandled_rejection])
  ∧
  (∀ (st : Dashboard.State) i id,
     Dashboard.stable st →
     Dashboard.inflight st !! i = Some (Dashboard.AwaitPoll id) →
     Dashboard.step st (Dashboard.Settle i Dashboard.Rejected)
     = Dashboard.emit Dashboard.unhandled_rejection (Dashboard.drop_request i st)).
Proof.
  split_and!.
  - intros nulls st id Hlive. cbn zeta. by rewrite (tick_rejected nulls st id Hlive).
  - intros nulls st i. apply poll_reply_rejected.
  - intros st id Hst Hlive. cbn zeta. by rewrite (ladder_tick_rejected st id Hst Hlive).
  - intros st i. apply ladder_poll_reply_rejected.
  - intros st id Hst Hlive. cbn zeta.
    rewrite (dashboard_tick_rejected st id Hst Hlive).
    split_and!; try done. cbn. by rewrite <- app_assoc.
  - intros st i id. apply dashboard_poll_reply_rejected.
Qed.

(** C6.  The claim holds of the results-check loops and of the ladder loop
    and is broken by the dashboard's refresh loop.  The callbacks of the
    sibling loops wrap the status fetch in [try { ... } catch { }]; the
    callback of the refresh timer ([app/page.tsx], lines 63 to 67) awaits
    [api.refreshStatus()] bare.  At a tick of a running refresh whose
    status request is rejected, the page's state, the timer and the
    requests in flight are as before the tick and the next tick fetches
    again, as claimed, but the failure is not skipped silently: the
    rejection is caught by nothing and is reported as an unhandled promise
    rejection.  The same tick in the sibling loops makes the status
    request and nothing else. *)
Theorem C6_refresh_tick_rejection_goes_unhandled :
  let st := Dashboard.run Dashboard.init
              (Dashboard.attempt 0 (Examples.refresh_status true 10)) in
  let st1 := Dashboard.run st [Dashboard.Tick 1;
                               Dashboard.Settle 0 Dashboard.Rejected] in
  Timers.live (Dashboard.timers st) = {[1%positive := 1500%Z]} ∧
  Dashboard.calls_since st st1
    = [Dashboard.call_refreshStatus; Dashboard.unhandled_rejection] ∧
  Dashboard.refreshStatus st1 = Dashboard.refreshStatus st ∧
  Dashboard.refreshing st1 = true ∧
  Dashboard.timers st1 = Dashboard.timers st ∧
  Dashboard.inflight st1 = Dashboard.inflight st ∧
  Dashboard.calls_since st1 (Dashboard.step st1 (Dashboard.Tick 1))
    = [Dashboard.call_refreshStatus]
  ∧
  (let st := PropResults.run AutoCheck.init
               (AutoCheck.attempt (Examples.results_status AutoCheck.running)
                                  (Examples.results_status AutoCheck.running)) in
   AutoCheck.calls_since st
     (PropResults.run st [AutoCheck.Tick 1; AutoCheck.Settle 0 None])
   = [AutoCheck.call_status])
  ∧
  (let st := Ladder.polling 1 (Examples.ladder_status Ladder.running 10) [] None 2 [] in
   Ladder.calls_since st
     (Ladder.run st [Ladder.Tick 1; Ladder.Settle 0 Ladder.Rejected])
   = [Ladder.call_status]).
Proof. vm_compute. done. Qed.

End LoopClaims.
(* ================================================================= *)
(** * Further properties of the pages *)

(** ** Sorting with a comparator that is an ordering *)

Section SortOrder.
Context {A : Type} (cmp : A → A → JS.number).
Context (before : A → A → Prop) (P : A → Prop).
Hypothesis before_trans :
  ∀ a b c, P a → P b → P c → before a b → before b c → before a c.
Hypothesis cmp_pos : ∀ a b, P a → P b → JS.positive (cmp a b) = true → before b a.
Hypothesis cmp_neg : ∀ a b, P a → P b → JS.positive (cmp a b) = false → before a b.

Lemma insert_sorted (x : A) (l : list A) :
  P x → Forall P l → StronglySorted before l →
  StronglySorted before (JS.insert cmp x l).
Proof.
  intros Hx Hl Hs. induction Hs as [|y l Hs IH Hy]; cbn [JS.insert].
  - repeat constructor.
  - apply Forall_cons in Hl as [HPy HPl].
    destruct (JS.positive (cmp x y)) eqn:E.
    + constructor; [by apply IH|].
      rewrite insert_perm. constructor; [by apply cmp_pos|done].
    + constructor; [by constructor|].
      constructor; [by apply cmp_neg|].
      rewrite Forall_forall in Hy, HPl. apply Forall_forall. intros z Hz.
      apply (before_trans x y z); auto.
Qed.

Lemma sort_sorted (l : list A) :
  Forall P l → StronglySorted before (JS.sort cmp l).
Proof.
  induction l as [|x l IH]; cbn [JS.sort]; [constructor|].
  intros [Hx Hl]%Forall_cons. apply insert_sorted; [done| |by apply IH].
  by rewrite sort_perm.
Qed.

End SortOrder.

Section Filters.
Context {A : Type} (P : A → Prop) `{!∀ x, Decision (P x)}.

Lemma filter_none (l : list A) :
  (∀ x, x ∈ l → ¬ P x) → filter P l = [].
Proof.
  induction l as [|x l IH]; intros Hl; [done|].
  rewrite filter_cons, decide_False by (apply Hl; left).
  apply IH. intros y Hy. apply Hl. by right.
Qed.

Lemma filter_all (l : list A) :
  (∀ x, x ∈ l → P x) → filter P l = l.
Proof.
  induction l as [|x l IH]; intros Hl; [done|].
  rewrite filter_cons, decide_True by (apply Hl; left).
  f_equal. apply IH. intros y Hy. apply Hl. by right.
Qed.

End Filters.

Section Differences.

Lemma positive_sub (x y : Q) :
  JS.positive (JS.sub (JS.Fin x) (JS.Fin y)) = true ↔ (y < x)%Q.
Proof.
  unfold JS.sub, JS.positive, Qminus.
  rewrite negb_true_iff. split.
  - intros E. apply Qnot_le_lt. intros Hle.
    assert (Qle_bool (x + - y) 0 = true) as E'; [|congruence].
    apply Qle_bool_iff. unfold Qle in *. cbn in *. nia.
  - intros Hlt. destruct (Qle_bool (x + - y) 0) eqn:E; [|done].
    apply Qle_bool_iff in E. exfalso. unfold Qle, Qlt in *. cbn in *. nia.
Qed.

Lemma not_positive_sub (x y : Q) :
  JS.positive (JS.sub (JS.Fin x) (JS.Fin y)) = false ↔ (x <= y)%Q.
Proof.
  rewrite <- not_true_iff_false, positive_sub. split.
  - apply Qnot_lt_le.
  - intros H1 H2. by apply (Qlt_not_le y x).
Qed.

Lemma truthy_sub_nat (a b : nat) :
  JS.truthy (JS.sub (JS.of_nat b) (JS.of_nat a)) = true ↔ a ≠ b.
Proof.
  unfold JS.sub, JS.truthy, JS.of_nat, Qminus.
  rewrite negb_true_iff. split.
  - intros E ->. assert (Qeq_bool (inject_Z (Z.of_nat b) + - inject_Z (Z.of_nat b)) 0 = true)
      as E'; [|congruence].
    apply Qeq_bool_iff. unfold Qeq. cbn. lia.
  - intros Hne. destruct (Qeq_bool _ 0) eqn:E; [|done].
    apply Qeq_bool_iff in E. exfalso. apply Hne. unfold Qeq in E. cbn in E. lia.
Qed.

Lemma lt_inject_nat (a b : nat) :
  (inject_Z (Z.of_nat a) < inject_Z (Z.of_nat b))%Q ↔ a < b.
Proof. rewrite <- Zlt_Qlt. lia. Qed.

Lemma le_inject_nat (a b : nat) :
  (inject_Z (Z.of_nat a) <= inject_Z (Z.of_nat b))%Q ↔ a ≤ b.
Proof. rewrite <- Zle_Qle. lia. Qed.

End Differences.

(** ** The market rollup, label by label *)

Section MarketRollup.
Import PropResults ResultsPage.

Lemma result_cases (r : PropResult) :
  (leg_result r = None ∧ ¬ is_graded r ∧ ¬ is_hit r) ∨
  (leg_result r = Some HIT ∧ is_graded r ∧ is_hit r) ∨
  (leg_result r = Some MISS ∧ is_graded r ∧ ¬ is_hit r).
Proof.
  unfold is_graded, is_hit. destruct (leg_result r) as [[]|]; naive_solver.
Qed.

Lemma market_rows_cons (m : string) (r : PropResult) (rows : list PropResult) :
  market_rows m (r :: rows) =
  if decide (market_label r = m ∧ is_graded r)
  then r :: market_rows m rows else market_rows m rows.
Proof. unfold market_rows. by rewrite filter_cons. Qed.

(** What one row does to the accumulator of label [m]. *)
Lemma market_step_get (acc : list (string * MarketAcc)) (r : PropResult) (m : string) :
  m ∉ JS.inherited_keys →
  JS.get m (market_step acc r) =
  if decide (market_label r = m ∧ is_graded r)
  then market_bump (JS.get m acc) r else JS.get m acc.
Proof.
  intros Hm. unfold market_step, market_bump.
  destruct (decide (is_hit r)) as [Hh|Hh];
    destruct (decide (market_label r = m ∧ is_graded r)) as [[Hl Hg]|Hn];
    unfold is_hit, is_graded in *;
    destruct (leg_result r) as [[]|] eqn:E; try congruence; try done;
    destruct (decide (market_label r ∈ JS.inherited_keys)) as [Hin|Hnin];
    try done; try (exfalso; congruence);
    try (subst m; by rewrite get_upsert_eq);
    try (rewrite get_upsert_ne; [done|intros Heq; apply Hn; split; congruence]).
Qed.

Lemma market_fold_get (rows : list PropResult) (acc : list (string * MarketAcc))
    (m : string) :
  m ∉ JS.inherited_keys →
  JS.get m (fold_left market_step rows acc) =
  fold_left market_bump (market_rows m rows) (JS.get m acc).
Proof.
  intros Hm. revert acc.
  induction rows as [|r rows IH]; intros acc; [done|].
  cbn [fold_left]. rewrite IH, market_rows_cons, market_step_get by done.
  by case_decide.
Qed.

Lemma market_bump_Some (a : MarketAcc) (g : list PropResult) :
  fold_left market_bump g (Some a) =
  Some {| ma_total := ma_total a + length g;
          ma_hits := ma_hits a + length (filter is_hit g) |}.
Proof.
  revert a. induction g as [|r g IH]; intros a.
  - cbn. rewrite !Nat.add_0_r. by destruct a.
  - cbn [fold_left]. unfold market_bump at 2. cbn [default]. rewrite IH.
    rewrite length_filter_cons. cbn [ma_total ma_hits length]. unfold id.
    f_equal. f_equal; [lia|]. case_decide; lia.
Qed.

Lemma market_bump_None (g : list PropResult) :
  fold_left market_bump g None =
  match g with
  | [] => None
  | _ => Some {| ma_total := length g; ma_hits := length (filter is_hit g) |}
  end.
Proof.
  destruct g as [|r g]; [done|].
  cbn [fold_left]. unfold market_bump at 2. cbn [default].
  rewrite market_bump_Some, length_filter_cons. cbn [ma_total ma_hits length].
  done.
Qed.

Lemma market_step_keys (acc : list (string * MarketAcc)) (r : PropResult) :
  NoDup acc.*1 ∧ Forall (λ k, k ∉ JS.inherited_keys) acc.*1 →
  NoDup (market_step acc r).*1 ∧
  Forall (λ k, k ∉ JS.inherited_keys) (market_step acc r).*1.
Proof.
  intros [Hnd Hk]. unfold market_step.
  destruct (leg_result r) as [res|]; [|done].
  case_decide as Hin; [done|].
  split; [by apply upsert_NoDup|].
  rewrite upsert_keys. case_decide; [done|].
  apply Forall_app. split; [done|]. by constructor.
Qed.

Lemma market_fold_keys (rows : list PropResult) (acc : list (string * MarketAcc)) :
  NoDup acc.*1 ∧ Forall (λ k, k ∉ JS.inherited_keys) acc.*1 →
  NoDup (fold_left market_step rows acc).*1 ∧
  Forall (λ k, k ∉ JS.inherited_keys) (fold_left market_step rows acc).*1.
Proof.
  revert acc. induction rows as [|r rows IH]; intros acc H; [done|].
  cbn [fold_left]. apply IH. by apply market_step_keys.
Qed.

Lemma market_entry_of_acc (m : string) (g : list PropResult) :
  market_stat (m, {| ma_total := length g; ma_hits := length (filter is_hit g) |})
  = market_entry m g.
Proof. done. Qed.

Lemma market_entries (rows : list PropResult) (s : MarketStat) :
  (s ∈ computeMarketStats rows) ↔
  ∃ m, (m ∉ JS.inherited_keys) ∧ market_rows m rows ≠ [] ∧
       s = market_entry m (market_rows m rows).
Proof.
  unfold computeMarketStats. rewrite elem_of_sort.
  destruct (market_fold_keys rows []) as [Hnd Hk].
  { split; [apply NoDup_nil_2|constructor]. }
  split.
  - intros ([k v] & -> & He)%list_elem_of_fmap.
    assert (k ∉ JS.inherited_keys) as Hkn.
    { rewrite Forall_forall in Hk. apply Hk.
      apply list_elem_of_fmap. by exists (k, v). }
    exists k. split; [done|].
    apply elem_of_get in He; [|done].
    rewrite market_fold_get in He by done. cbn [JS.get] in He.
    rewrite market_bump_None in He.
    destruct (market_rows k rows) as [|r g] eqn:Eg; [done|].
    split; [done|]. injection He as <-. done.
  - intros (m & Hm & Hne & ->).
    apply list_elem_of_fmap.
    exists (m, {| ma_total := length (market_rows m rows);
                  ma_hits := length (filter is_hit (market_rows m rows)) |}).
    split; [done|].
    apply get_Some_elem_of. rewrite market_fold_get by done. cbn [JS.get].
    rewrite market_bump_None. by destruct (market_rows m rows).
Qed.

Lemma market_labels_NoDup (rows : list PropResult) :
  NoDup (ms_label <$> computeMarketStats rows).
Proof.
  unfold computeMarketStats. rewrite sort_perm, <- list_fmap_compose.
  destruct (market_fold_keys rows []) as [Hnd _].
  { split; [apply NoDup_nil_2|constructor]. }
  done.
Qed.

(** Adding to one property changes the sum over all properties by as much. *)
Lemma sum_upsert {V : Type} (μ : V → nat) (c : nat) (k : string) (d : V)
    (f : V → V) (o : list (string * V)) :
  μ d = 0 → (∀ v, μ (f v) = μ v + c) →
  sum_list ((λ e, μ e.2) <$> JS.upsert k d f o)
  = sum_list ((λ e, μ e.2) <$> o) + c.
Proof.
  intros Hd Hf. induction o as [|[k' v] o IH]; cbn [JS.upsert].
  - cbn. rewrite Hf, Hd. lia.
  - case_decide; cbn; [rewrite Hf|rewrite IH]; lia.
Qed.

Lemma market_fold_sums (rows : list PropResult) (acc : list (string * MarketAcc)) :
  let counted := filter (λ r, market_label r ∉ JS.inherited_keys) rows in
  sum_list ((λ e, ma_total e.2) <$> fold_left market_step rows acc)
  = sum_list ((λ e, ma_total e.2) <$> acc) + length (filter is_graded counted)
  ∧
  sum_list ((λ e, ma_hits e.2) <$> fold_left market_step rows acc)
  = sum_list ((λ e, ma_hits e.2) <$> acc) + length (filter is_hit counted).
Proof.
  cbn zeta. revert acc. induction rows as [|r rows IH]; intros acc.
  - cbn. lia.
  - cbn [fold_left]. destruct (IH (market_step acc r)) as [-> ->].
    rewrite filter_cons. unfold market_step.
    destruct (decide (market_label r ∉ JS.inherited_keys)) as [Hnin|Hin].
    + rewrite !length_filter_cons.
      destruct (result_cases r) as [(E & Hg & Hh)|[(E & Hg & Hh)|(E & Hg & Hh)]];
        rewrite E;
        rewrite ?(decide_True (P:=is_graded r)), ?(decide_False (P:=is_graded r)),
          ?(decide_True (P:=is_hit r)), ?(decide_False (P:=is_hit r)) by done;
        [lia| |].
      * rewrite decide_False by done.
        rewrite (sum_upsert ma_total 1), (sum_upsert ma_hits 1)
          by (try done; intros; cbn; lia).
        lia.
      * rewrite decide_False by done.
        rewrite (sum_upsert ma_total 1), (sum_upsert ma_hits 0)
          by (try done; intros; cbn; lia).
        lia.
    + destruct (leg_result r) as [res|]; [|done].
      rewrite decide_True; [done|]. by apply dec_stable.
Qed.

End MarketRollup.

(** ** The player rollup as a whole *)

Section PlayerRollup.
Import PropResults ResultsPage.

Lemma player_fold_sums (rows : list PropResult) (acc : list (string * PlayerAcc)) :
  sum_list ((λ e, pa_graded e.2) <$> fold_left player_step rows acc)
  = sum_list ((λ e, pa_graded e.2) <$> acc) + length (filter is_graded rows)
  ∧
  sum_list ((λ e, pa_hits e.2) <$> fold_left player_step rows acc)
  = sum_list ((λ e, pa_hits e.2) <$> acc) + length (filter is_hit rows)
  ∧
  sum_list ((λ e, pa_pending e.2) <$> fold_left player_step rows acc)
  = sum_list ((λ e, pa_pending e.2) <$> acc) + length (filter is_pending rows).
Proof.
  revert acc. induction rows as [|r rows IH]; intros acc.
  - cbn. lia.
  - cbn [fold_left]. destruct (IH (player_step acc r)) as (-> & -> & ->).
    rewrite !length_filter_cons. unfold player_step.
    rewrite (sum_upsert pa_graded (if decide (is_graded r) then 1 else 0)),
      (sum_upsert pa_hits (if decide (is_hit r) then 1 else 0)),
      (sum_upsert pa_pending (if decide (is_pending r) then 1 else 0));
      try done; try (intros v; by rewrite bump_counts).
    lia.
Qed.

Lemma player_sums (rows : list PropResult) :
  sum_list (ps_total <$> computePlayerStats rows) = length (filter is_graded rows) ∧
  sum_list (ps_hits <$> computePlayerStats rows) = length (filter is_hit rows) ∧
  sum_list (ps_pending <$> computePlayerStats rows) = length (filter is_pending rows).
Proof.
  unfold computePlayerStats.
  rewrite !sort_perm, <- !list_fmap_compose.
  destruct (player_fold_sums rows []) as (H1 & H2 & H3). cbn in H1, H2, H3.
  split_and!; [rewrite <- H1|rewrite <- H2|rewrite <- H3]; done.
Qed.

Lemma player_fold_keys (rows : list PropResult) (acc : list (string * PlayerAcc))
    (k : string) :
  k ∈ (fold_left player_step rows acc).*1 ↔
  k ∈ acc.*1 ∨ k ∈ player_key <$> rows.
Proof.
  revert acc. induction rows as [|r rows IH]; intros acc.
  - cbn. rewrite elem_of_nil. tauto.
  - cbn [fold_left]. rewrite IH. unfold player_step. rewrite upsert_keys.
    rewrite fmap_cons, elem_of_cons.
    case_decide as Hin.
    + split; [tauto|]. intros [?|[->|?]]; tauto.
    + rewrite elem_of_app, list_elem_of_singleton. tauto.
Qed.

Lemma player_entries_length (rows : list PropResult) :
  length (computePlayerStats rows) = length (remove_dups (player_key <$> rows)).
Proof.
  unfold computePlayerStats.
  rewrite (Permutation_length (sort_perm _ _)), !length_fmap.
  rewrite <- (length_fmap fst).
  apply Permutation_length, NoDup_Permutation.
  - apply player_fold_NoDup, NoDup_nil_2.
  - apply NoDup_remove_dups.
  - intros k. rewrite player_fold_keys, elem_of_remove_dups.
    cbn. rewrite elem_of_nil. tauto.
Qed.

End PlayerRollup.

(** ** The summary line *)

Section SummaryLine.
Import PropResults ResultsPage.

Lemma hits_misses (rows : list PropResult) :
  length (filter is_hit rows) + length (filter is_miss rows)
  = length (filter is_graded rows).
Proof.
  induction rows as [|r rows IH]; [done|].
  rewrite !length_filter_cons, <- IH.
  destruct (decide (is_hit r)) as [Hh|Hh];
    destruct (decide (is_miss r)) as [Hm|Hm];
    destruct (decide (is_graded r)) as [Hg|Hg];
    unfold is_hit, is_miss, is_graded in Hh, Hm, Hg;
    try lia; try congruence.
  - exfalso. apply Hg. congruence.
  - exfalso. apply Hg. congruence.
  - destruct (leg_result r) as [[]|]; congruence.
Qed.

End SummaryLine.

(* ================================================================= *)
(** * Properties of the rollups beyond the claims *)

Section RollupExtras.
Import PropResults ResultsPage.

(** X1.  [computeMarketStats] has exactly one entry for every market label
    that some graded row carries (and that is not the name of a property
    inherited from [Object.prototype]), none for any other label, and no
    label twice.  The entry counts the graded rows of its label as [total],
    those with result HIT as [hits], and [pct] is their rate. *)
Theorem market_rollup_entries (rows : list PropResult) :
  (∀ s, (s ∈ computeMarketStats rows) ↔
        ∃ m, (m ∉ JS.inherited_keys) ∧ market_rows m rows ≠ [] ∧
             s = market_entry m (market_rows m rows))
  ∧ NoDup (ms_label <$> computeMarketStats rows).
Proof.
  split; [intros s; apply market_entries|apply market_labels_NoDup].
Qed.

(** X2.  [computeMarketStats] returns its entries by falling hit rate: no
    entry is followed, anywhere later in the list, by one with a higher
    [pct]. *)
Theorem market_rollup_sorted (rows : list PropResult) :
  StronglySorted (λ a b, Order.le (ms_pct b) (ms_pct a)) (computeMarketStats rows).
Proof.
  unfold computeMarketStats.
  apply (sort_sorted _ _ (λ a, JS.is_finite (ms_pct a))).
  - intros a b c Ha Hb Hc.
    destruct (ms_pct a), (ms_pct b), (ms_pct c); try done.
    cbn. intros H1 H2. by apply Qle_trans with q0.
  - intros a b Ha Hb.
    destruct (ms_pct a), (ms_pct b); try done.
    rewrite positive_sub. cbn. apply Qlt_le_weak.
  - intros a b Ha Hb.
    destruct (ms_pct a), (ms_pct b); try done.
    by rewrite not_positive_sub.
  - apply Forall_forall. intros s Hs.
    assert (s ∈ computeMarketStats rows) as Hs'.
    { unfold computeMarketStats. by rewrite elem_of_sort. }
    destruct (computeMarketStats_ok rows s Hs') as (Hle & _ & ->).
    destruct (rate_finite _ _ Hle) as (z & -> & _). done.
Qed.

(** X3.  The market rollup loses no graded row: over the rows whose label
    is an ordinary property name, the [total]s of the entries add up to
    the page's [graded] count and the [hits] to the page's [hits]. *)
Theorem market_rollup_totals (rows : list PropResult) :
  let counted := filter (λ r, market_label r ∉ JS.inherited_keys) rows in
  sum_list (ms_total <$> computeMarketStats rows) = graded (stats counted) ∧
  sum_list (ms_hits <$> computeMarketStats rows) = hits (stats counted).
Proof.
  cbn zeta. unfold stats, computeMarketStats. cbn [graded hits].
  rewrite !sort_perm, <- !list_fmap_compose.
  destruct (market_fold_sums rows []) as [H1 H2]. cbn in H1, H2.
  split; [rewrite <- H1|rewrite <- H2]; done.
Qed.

(** X4.  [computePlayerStats] has one entry per distinct key, and its
    counters add up to the page's summary: the [total]s to [graded], the
    [hits] to [hits], the [pending]s to [pending]; so every row is counted
    in exactly one entry, either as graded or as pending. *)
Theorem player_rollup_totals (rows : list PropResult) :
  length (computePlayerStats rows) = length (remove_dups (player_key <$> rows)) ∧
  sum_list (ps_total <$> computePlayerStats rows) = graded (stats rows) ∧
  sum_list (ps_hits <$> computePlayerStats rows) = hits (stats rows) ∧
  Z.of_nat (sum_list (ps_pending <$> computePlayerStats rows)) = pending (stats rows) ∧
  sum_list (ps_total <$> computePlayerStats rows)
    + sum_list (ps_pending <$> computePlayerStats rows) = length rows.
Proof.
  destruct (player_sums rows) as (H1 & H2 & H3).
  pose proof (filter_split_pending rows) as Hsplit.
  split_and!; [apply player_entries_length|done|done| |lia].
  unfold stats. cbn [pending]. lia.
Qed.

(** X5.  [computePlayerStats] returns its entries by falling number of
    graded rows, and entries with equally many by falling hit rate. *)
Theorem player_rollup_sorted (rows : list PropResult) :
  StronglySorted player_before (computePlayerStats rows).
Proof.
  unfold computePlayerStats.
  apply (sort_sorted _ _ (λ a, JS.is_finite (ps_hit_pct a))).
  - intros a b c Ha Hb Hc. unfold player_before.
    destruct (ps_hit_pct a), (ps_hit_pct b), (ps_hit_pct c); try done.
    cbn. intros [H1|[H1 L1]] [H2|[H2 L2]]; [left; lia..|].
    right. split; [lia|]. by apply Qle_trans with q0.
  - intros a b Ha Hb. unfold player_before, player_order, JS.or.
    destruct (ps_hit_pct a), (ps_hit_pct b); try done.
    destruct (JS.truthy _) eqn:T.
    + apply truthy_sub_nat in T. unfold JS.of_nat.
      rewrite positive_sub, lt_inject_nat. by left.
    + apply not_true_iff_false in T. rewrite truthy_sub_nat in T.
      apply dec_stable in T.
      rewrite positive_sub. intros Hlt. right. split; [done|].
      cbn. by apply Qlt_le_weak.
  - intros a b Ha Hb. unfold player_before, player_order, JS.or.
    destruct (ps_hit_pct a), (ps_hit_pct b); try done.
    destruct (JS.truthy _) eqn:T.
    + apply truthy_sub_nat in T. unfold JS.of_nat.
      rewrite not_positive_sub, le_inject_nat. left. lia.
    + apply not_true_iff_false in T. rewrite truthy_sub_nat in T.
      apply dec_stable in T.
      rewrite not_positive_sub. intros Hle. by right.
  - apply Forall_forall. intros s Hs.
    assert (s ∈ computePlayerStats rows) as Hs'.
    { unfold computePlayerStats. by rewrite elem_of_sort. }
    apply computePlayerStats_spec in Hs' as [k Hk].
    destruct (group_stat_fields _ _ Hk) as (_ & _ & Ht & Hh & -> & _).
    assert (ps_hits s ≤ ps_total s) as Hle.
    { rewrite Hh, Ht. apply filter_hit_le_graded. }
    destruct (rate_finite _ _ Hle) as (z & -> & _). done.
Qed.

(** X6.  When no player name contains the character [|], grouping by the
    key string ["player||market"] is grouping by player and market: the
    entry of a row has the row's player name and market label, is computed
    from exactly the rows with that name and label, and is the only entry
    with that name and label. *)
Theorem player_rollup_by_pair (rows : list PropResult) (r : PropResult) :
  Forall (λ r, no_bar (player_name r) = true) rows →
  r ∈ rows →
  ∃ st, st ∈ computePlayerStats rows ∧
        ps_player st = player_name r ∧ ps_market st = market_label r ∧
        group_stat (pair_rows (player_name r) (market_label r) rows) = Some st ∧
        ∀ st', st' ∈ computePlayerStats rows →
               ps_player st' = player_name r → ps_market st' = market_label r →
               st' = st.
Proof.
  intros Hrows Hin.
  assert (no_bar (player_name r) = true) as Hr.
  { rewrite Forall_forall in Hrows. by apply Hrows. }
  destruct (row_stat rows r Hin) as (st & Hst & Hg & Hgs).
  exists st. rewrite <- (group_is_pair rows r Hrows Hr).
  assert (∀ k st0, group_stat (group k rows) = Some st0 →
            k = ps_player st0 +:+ "||" +:+ ps_market st0 ∧
            no_bar (ps_player st0) = true) as Hkey.
  { intros k st0 Hk. unfold group in Hk.
    destruct (filter _ rows) as [|r0 g] eqn:E; [done|].
    assert (r0 ∈ filter (λ r, player_key r = k) rows) as [Hk0 Hin0]%list_elem_of_filter
      by (rewrite E; left).
    injection Hk as <-. cbn [ps_player ps_market].
    split; [done|]. rewrite Forall_forall in Hrows. by apply Hrows. }
  destruct (Hkey _ _ Hgs) as [Hk Hb].
  apply key_split in Hk as [Hp Hm]; [|done..].
  split_and!; [done|done|done|done|].
  intros st' [k' Hst']%computePlayerStats_spec Hp' Hm'.
  destruct (Hkey _ _ Hst') as [-> _].
  rewrite Hp', Hm' in Hst'. fold (player_key r) in Hst'. congruence.
Qed.

Lemma player_rollup_by_pair_witness :
  ∃ st, st ∈ computePlayerStats Examples.rows ∧
        ps_player st = "Jokic" ∧ ps_market st = "Points" ∧
        group_stat (pair_rows "Jokic" "Points" Examples.rows) = Some st ∧
        ∀ st', st' ∈ computePlayerStats Examples.rows →
               ps_player st' = "Jokic" → ps_market st' = "Points" → st' = st.
Proof.
  apply (player_rollup_by_pair Examples.rows Examples.pending_row).
  - repeat constructor.
  - unfold Examples.rows. apply list_elem_of_further, list_elem_of_here.
Defined.

(** Without that condition two different pairs can share a key, and then
    share an entry named after the first of them. *)
Example player_key_collision :
  computePlayerStats
    [Examples.row "A|" "B" (Some (60 # 1)) (Some HIT);
     Examples.row "A" "|B" (Some (40 # 1)) (Some MISS)]
  = [{| ps_player := "A|"; ps_market := "B"; ps_total := 2; ps_hits := 1;
        ps_hit_pct := JS.of_Z 50; ps_avg_score := JS.of_Z 50;
        ps_pending := 0 |}].
Proof. vm_compute. done. Qed.

(** X7.  The summary line of the prop-results page is consistent: every
    graded row is a hit or a miss, [pending] is the number of rows without
    a result (never negative), graded and pending rows make up the total,
    and [hitPct] is a whole percentage between 0 and 100, 0 when nothing is
    graded. *)
Theorem summary_line_consistent (rows : list PropResult) :
  hits (stats rows) + misses (stats rows) = graded (stats rows) ∧
  pending (stats rows) = Z.of_nat (length (filter is_pending rows)) ∧
  (Z.of_nat (graded (stats rows)) + pending (stats rows))%Z
    = Z.of_nat (total (stats rows)) ∧
  ∃ z : Z, hitPct (stats rows) = JS.of_Z z ∧ (0 ≤ z ≤ 100)%Z ∧
           (graded (stats rows) = 0 → z = 0%Z).
Proof.
  unfold stats. cbn [hits misses graded pending total hitPct].
  pose proof (filter_split_pending rows) as Hsplit.
  split; [apply hits_misses|]. split; [lia|]. split; [lia|].
  destruct (rate_finite (length (filter is_hit rows)) (length (filter is_graded rows))
              (filter_hit_le_graded rows))
    as (z & Hz & Hzero & Hrange).
  exists z. done.
Qed.

(** X8.  With no graded row (in particular with no row at all) the market
    rollup is empty, while the player rollup still lists every key, each
    with [total] 0, [hits] 0, hit rate 0 and a positive [pending]. *)
Theorem rollups_without_graded_rows (rows : list PropResult) :
  Forall is_pending rows →
  computeMarketStats rows = [] ∧
  length (computePlayerStats rows) = length (remove_dups (player_key <$> rows)) ∧
  ∀ st, st ∈ computePlayerStats rows →
        ps_total st = 0 ∧ ps_hits st = 0 ∧ ps_hit_pct st = JS.of_Z 0 ∧
        0 < ps_pending st.
Proof.
  intros Hrows.
  assert (∀ g, g ⊆ rows → filter is_graded g = [] ∧ filter is_hit g = []) as Hnone.
  { intros g Hg. split; apply filter_none; intros r Hr;
      rewrite Forall_forall in Hrows; specialize (Hrows r (Hg r Hr));
      unfold is_pending, is_graded, is_hit in *; congruence. }
  split_and!.
  - destruct (computeMarketStats rows) as [|s l] eqn:E; [done|].
    assert (s ∈ computeMarketStats rows) as (m & _ & Hne & _)%market_entries
      by (rewrite E; left).
    exfalso. apply Hne. unfold market_rows.
    apply filter_none. intros r Hr [_ Hg].
    rewrite Forall_forall in Hrows. specialize (Hrows r Hr).
    unfold is_pending, is_graded in *. congruence.
  - apply player_entries_length.
  - intros st [k Hk]%computePlayerStats_spec.
    destruct (group_stat_fields _ _ Hk) as (Hne & Hp & Ht & Hh & Hpct & _).
    destruct (Hnone (group k rows)) as [Hg0 Hh0].
    { unfold group. intros r Hr%list_elem_of_filter. tauto. }
    rewrite Hg0 in Ht. rewrite Hh0 in Hh. cbn in Ht, Hh.
    rewrite Hpct, Ht, Hh. split_and!; [done|done|done|].
    rewrite Hp. pose proof (filter_split_pending (group k rows)) as Hs.
    rewrite Hg0 in Hs. cbn [length] in Hs.
    assert (0 < length (group k rows)); [|lia].
    destruct (group k rows); [done|]. cbn [length]. lia.
Qed.

Lemma rollups_without_graded_rows_witness :
  computeMarketStats [Examples.pending_row; Examples.pending_row] = [] ∧
  length (computePlayerStats [Examples.pending_row; Examples.pending_row])
    = length (remove_dups (player_key <$> [Examples.pending_row; Examples.pending_row])) ∧
  ∀ st, st ∈ computePlayerStats [Examples.pending_row; Examples.pending_row] →
        ps_total st = 0 ∧ ps_hits st = 0 ∧ ps_hit_pct st = JS.of_Z 0 ∧
        0 < ps_pending st.
Proof.
  apply (rollups_without_graded_rows [Examples.pending_row; Examples.pending_row]).
  repeat constructor.
Defined.

End RollupExtras.

(* ================================================================= *)
(** * Properties of the ladder page beyond the claims *)

Section CardFacts.
Import Ladder LadderCards.

Lemma isExpanded_true (ex : option Z) (k : Z) :
  isExpanded ex k = true ↔ ex = Some k.
Proof. unfold isExpanded. by rewrite bool_decide_eq_true. Qed.

Lemma filter_key_length {V : Type} (k : Z) (l : list (Z * V)) :
  NoDup l.*1 → length (filter (λ c, c.1 = k) l) ≤ 1.
Proof.
  induction l as [|[k' v] l IH]; [cbn; lia|].
  rewrite fmap_cons. intros [Hk Hnd]%NoDup_cons. rewrite filter_cons.
  cbn [fst] in *. case_decide as E; [|by apply IH].
  subst k'. rewrite filter_none; [done|].
  intros [k2 v2] Hin. cbn. intros ->. apply Hk.
  apply list_elem_of_fmap. by exists (k, v2).
Qed.

Lemma filter_key_singleton {V : Type} (k : Z) (v : V) (l : list (Z * V)) :
  NoDup l.*1 → (k, v) ∈ l → filter (λ c, c.1 = k) l = [(k, v)].
Proof.
  induction l as [|[k' v'] l IH]; [by intros _ ?%elem_of_nil|].
  rewrite fmap_cons. intros [Hk Hnd]%NoDup_cons. rewrite filter_cons.
  cbn [fst] in *. intros [[= <- <-]|Hin]%elem_of_cons.
  - rewrite decide_True by done. f_equal. apply filter_none.
    intros [k2 v2] Hin. cbn. intros ->. apply Hk.
    apply list_elem_of_fmap. by exists (k, v2).
  - rewrite decide_False; [by apply IH|].
    intros ->. apply Hk. apply list_elem_of_fmap. by exists (k, v).
Qed.

Lemma cards_NoDup (slips : list Slip) : NoDup (cards slips).*1.
Proof. unfold cards. rewrite fmap_app. apply card_keys_NoDup. Qed.

Lemma open_cards_by_key (ex : option Z) (slips : list Slip) :
  open_cards ex slips =
  match ex with
  | Some k => filter (λ c, c.1 = k) (cards slips)
  | None => []
  end.
Proof.
  unfold open_cards. destruct ex as [k|].
  - apply list_filter_iff. intros c. rewrite isExpanded_true.
    split; [by intros [= ->]|by intros ->].
  - apply filter_none. intros c _. by rewrite isExpanded_true.
Qed.

End CardFacts.

Section CardExtras.
Import Ladder LadderCards.

(** X9.  The cards of the ladder page and their detail.  Whatever the
    slips and the value of [expanded], at most one of the cards on the
    page (singles and multis together) shows its detail.  The "View
    detail" button of a card calls [setExpanded(isExpanded ? null :
    cardKey)]: clicked on a closed card it leaves that card, and no
    other, open; clicked on the open card it leaves none open. *)
Theorem one_card_open (slips : list Slip) (ex : option Z) :
  length (open_cards ex slips) ≤ 1 ∧
  ∀ k s, (k, s) ∈ cards slips →
         open_cards (toggle ex k) slips
         = (if isExpanded ex k then [] else [(k, s)]).
Proof.
  split.
  - rewrite open_cards_by_key. destruct ex as [k|]; [|cbn; lia].
    apply filter_key_length, cards_NoDup.
  - intros k s Hin. unfold toggle. rewrite open_cards_by_key.
    destruct (isExpanded ex k); [done|].
    apply filter_key_singleton; [|done]. apply cards_NoDup.
Qed.

Lemma one_card_open_witness :
  open_cards (toggle None (-2)) Examples.ladder_slips
  = [((-2)%Z, Examples.slip (Some single) ["Edwards"])].
Proof.
  apply (proj2 (one_card_open Examples.ladder_slips None) (-2)%Z).
  unfold cards. apply elem_of_app. left.
  apply list_elem_of_lookup. by exists 1.
Defined.

End CardExtras.

(** ** More about timers *)

Section MoreTimerFacts.

Lemma clear_subset (h : option positive) (tb : Timers.table) (id : positive) :
  is_Some (Timers.live (Timers.clearInterval h tb) !! id) →
  is_Some (Timers.live tb !! id).
Proof.
  destruct h as [t|]; [|done]. unfold Timers.clearInterval. cbn [Timers.live].
  intros [ms Hms]. apply lookup_delete_Some in Hms as [_ Hms]. by exists ms.
Qed.

Lemma clear_empty (h : option positive) (tb : Timers.table) :
  Timers.live tb = ∅ → Timers.live (Timers.clearInterval h tb) = ∅.
Proof.
  intros He. destruct h as [t|]; [|done]. unfold Timers.clearInterval.
  cbn [Timers.live]. rewrite He. apply delete_empty.
Qed.

Lemma clear_owned (h : option positive) (tb : Timers.table) :
  (∀ id, is_Some (Timers.live tb !! id) → h = Some id) →
  Timers.live (Timers.clearInterval h tb) = ∅.
Proof.
  intros Hown. apply map_empty. intros id.
  destruct (Timers.live (Timers.clearInterval h tb) !! id) as [ms|] eqn:E; [|done].
  exfalso. assert (h = Some id) as ->.
  { apply Hown. apply (clear_subset h). by rewrite E. }
  unfold Timers.clearInterval in E. cbn [Timers.live] in E.
  by rewrite lookup_delete_eq in E.
Qed.

Lemma set_on_none (ms : Z) (tb : Timers.table) (id : positive) :
  Timers.live tb = ∅ →
  is_Some (Timers.live (Timers.setInterval ms tb).2 !! id) →
  (Timers.setInterval ms tb).1 = id.
Proof.
  intros He. unfold Timers.setInterval. cbn [fst snd Timers.live]. rewrite He.
  intros [x Hx]. apply lookup_insert_Some in Hx as [[? _]|[_ Hx]]; [done|].
  by rewrite lookup_empty in Hx.
Qed.

Lemma clear_dead (t : positive) (tb : Timers.table) :
  Timers.live tb !! t = None → Timers.clearInterval (Some t) tb = tb.
Proof.
  intros Hd. unfold Timers.clearInterval. destruct tb as [lv nx].
  cbn [Timers.live Timers.next] in *. f_equal. by apply delete_id.
Qed.

Lemma next_clear (h : option positive) (tb : Timers.table) :
  Timers.next (Timers.clearInterval h tb) = Timers.next tb.
Proof. by destruct h. Qed.
End MoreTimerFacts.

Section LadderInvariants.
Import Ladder LadderCards.

(** *** Timers *)

Lemma timers_kept_same (st st' : State) :
  pollRef st' = pollRef st → timers st' = timers st → mounted st' = mounted st →
  timers_kept st → timers_kept st'.
Proof.
  unfold timers_kept, owns_timers. intros -> -> ->. done.
Qed.

Lemma timers_kept_clear (st st' : State) :
  pollRef st' = pollRef st → mounted st' = mounted st →
  timers st' = Timers.clearInterval (pollRef st) (timers st) →
  timers_kept st → timers_kept st'.
Proof.
  unfold timers_kept, owns_timers. intros -> -> -> [Hown Hdead]. split.
  - intros id Hid. apply Hown. by apply clear_subset in Hid.
  - intros Hm. by apply clear_empty, Hdead.
Qed.

Lemma timers_kept_commit (st : State) :
  timers_kept st → timers_kept (commit st).
Proof.
  intros Hk. pose proof Hk as [Hown _]. unfold commit.
  destruct (mounted st) eqn:Hm; cbn [andb]; [|done].
  destruct (negb _); [|done].
  assert (Timers.live (timers (set_dep (current_dep st) (cleanup st))) = ∅) as He.
  { apply clear_owned, Hown. }
  unfold effect. destruct (isRunning _).
  - destruct (Timers.setInterval 2000 _) as [id tb] eqn:Es.
    split; [|cbn; congruence].
    intros id' Hid'. cbn [pollRef set_ref]. f_equal.
    change id with (id, tb).1. rewrite <- Es. apply set_on_none; [done|].
    rewrite Es. exact Hid'.
  - split; [|cbn; congruence].
    intros id Hid. rewrite He in Hid. rewrite lookup_empty in Hid.
    by destruct Hid.
Qed.

Lemma resume_timers (k : Await) (r : Reply) (st st' : State) :
  resume k r st = Some st' →
  pollRef st' = pollRef st ∧ mounted st' = mounted st ∧
  (timers st' = timers st ∨
   timers st' = Timers.clearInterval (pollRef st) (timers st)).
Proof.
  destruct k, r; cbn [resume]; try done;
    try (intros [= <-]; split_and!; [reflexivity|reflexivity|by left]).
  repeat case_decide; intros [= <-];
    (split_and!; [reflexivity|reflexivity|first [by left|by right]]).
Qed.

Lemma timers_kept_step (st : State) (e : Event) :
  timers_kept st → timers_kept (step st e).
Proof.
  intros Hk. destruct e as [|id|i r|]; unfold step.
  - destruct (_ && _); [|done]. apply timers_kept_commit.
    by apply (timers_kept_same st).
  - destruct (Timers.is_live _ _); [|done]. apply timers_kept_commit.
    by apply (timers_kept_same st).
  - destruct (inflight st !! i) as [k|]; [|done].
    destruct (resume k r (drop_request i st)) as [st'|] eqn:E; [|done].
    apply timers_kept_commit.
    apply resume_timers in E as (Hr & Hm & [Ht|Ht]).
    + by apply (timers_kept_same st).
    + by apply (timers_kept_clear st).
  - destruct (mounted st) eqn:Hm; [|done].
    destruct Hk as [Hown _]. split.
    + intros id Hid. exfalso.
      assert (Timers.live (timers (set_unmounted (cleanup st))) = ∅) as He
        by apply clear_owned, Hown.
      rewrite He, lookup_empty in Hid. by destruct Hid.
    + intros _. apply clear_owned, Hown.
Qed.

Lemma timers_kept_init : timers_kept init.
Proof.
  split; [|done]. intros id Hid. cbn in Hid.
  rewrite lookup_empty in Hid. by destruct Hid.
Qed.

Lemma timers_kept_run (st : State) (evs : list Event) :
  timers_kept st → timers_kept (run st evs).
Proof.
  revert st. induction evs as [|e evs IH]; intros st Hst; [done|].
  apply IH. by apply timers_kept_step.
Qed.

End LadderInvariants.

Section LadderAttempts.
Import Ladder LadderCards.

Lemma count_snoc {A : Type} (P : A → Prop) `{!∀ x, Decision (P x)}
    (l : list A) (k : A) :
  length (filter P (l ++ [k]))
  = length (filter P l) + (if decide (P k) then 1 else 0).
Proof.
  rewrite filter_app, length_app, filter_cons, filter_nil.
  by case_decide.
Qed.

Lemma count_delete {A : Type} (P : A → Prop) `{!∀ x, Decision (P x)}
    (l : list A) (i : nat) (k : A) :
  l !! i = Some k →
  length (filter P (delete i l)) + (if decide (P k) then 1 else 0)
  = length (filter P l).
Proof.
  revert i. induction l as [|x l IH]; intros [|i] Hi; try done.
  - injection Hi as ->. change (delete 0 (k :: l)) with l.
    rewrite filter_cons. case_decide; cbn [length]; lia.
  - change (delete (S i) (x :: l)) with (x :: delete i l).
    change (l !! i = Some k) in Hi.
    rewrite !filter_cons. specialize (IH i Hi).
    destruct (decide (P x)); cbn [length]; lia.
Qed.

Lemma commit_frame (st : State) :
  inflight (commit st) = inflight st ∧ triggering (commit st) = triggering st ∧
  mounted (commit st) = mounted st.
Proof.
  unfold commit. destruct (_ && _); [|done].
  unfold effect. destruct (isRunning _); [|done].
  by destruct (Timers.setInterval _ _).
Qed.

(** What a continuation does to the flag and to the requests in flight. *)
Lemma resume_attempts (k : Await) (r : Reply) (st st' : State) :
  resume k r st = Some st' →
  mounted st' = mounted st ∧
  match k with
  | RunTrigger =>
      (inflight st' = inflight st ++ [RunStatus] ∧ triggering st' = triggering st) ∨
      (inflight st' = inflight st ∧
       triggering st' = if mounted st then false else triggering st)
  | RunStatus =>
      inflight st' = inflight st ∧
      triggering st' = if mounted st then false else triggering st
  | _ =>
      triggering st' = triggering st ∧
      (inflight st' = inflight st ∨ inflight st' = inflight st ++ [PollResults])
  end.
Proof.
  destruct k, r; cbn [resume]; try done;
    try (intros [= <-]; split; [reflexivity|];
         first [ split; [reflexivity|by left]
               | by left | by right
               | split; reflexivity ]).
  repeat case_decide; intros [= <-]; split; try reflexivity;
    (split; [reflexivity|first [by left|by right]]).
Qed.

Lemma one_attempt_step (st : State) (e : Event) :
  one_attempt st → one_attempt (step st e).
Proof.
  unfold one_attempt, attempts_in_flight. intros [Hle Hflag].
  destruct e as [|id|i r|]; unfold step.
  - destruct (mounted st) eqn:Hm; cbn [andb]; [|by rewrite Hm].
    destruct (negb _) eqn:Hc; [|by rewrite Hm].
    apply negb_true_iff, orb_false_iff in Hc as [_ Htr].
    destruct (commit_frame (runLadder st)) as (-> & -> & ->).
    change (inflight (runLadder st)) with (inflight st ++ [RunTrigger]).
    change (triggering (runLadder st)) with (if mounted st then true else triggering st).
    change (mounted (runLadder st)) with (mounted st).
    rewrite Hm, count_snoc, decide_True by (by left).
    assert (length (filter is_attempt (inflight st)) = 0) as ->.
    { specialize (Hflag eq_refl). rewrite Htr in Hflag.
      destruct (length _) as [|[|n]]; [done| |lia].
      by destruct Hflag as [_ ?%(λ H, H eq_refl)]. }
    split; [lia|done].
  - destruct (Timers.is_live _ _); [|done].
    destruct (commit_frame (poll st)) as (-> & -> & ->).
    change (inflight (poll st)) with (inflight st ++ [PollStatus]).
    change (triggering (poll st)) with (triggering st).
    change (mounted (poll st)) with (mounted st).
    rewrite count_snoc, decide_False, Nat.add_0_r; [done|].
    intros [?|?]; done.
  - destruct (inflight st !! i) as [k|] eqn:Hi; [|done].
    destruct (resume k r (drop_request i st)) as [st'|] eqn:E; [|done].
    destruct (commit_frame st') as (-> & -> & ->).
    apply resume_attempts in E as [Hm E].
    change (mounted (drop_request i st)) with (mounted st) in *.
    change (triggering (drop_request i st)) with (triggering st) in *.
    change (inflight (drop_request i st)) with (delete i (inflight st)) in *.
    pose proof (count_delete is_attempt _ _ _ Hi) as Hdel.
    rewrite Hm.
    destruct k;
      try (destruct E as [-> [->| ->]];
           rewrite ?count_snoc, ?decide_False in * by (intros [?|?]; done);
           rewrite ?Nat.add_0_r in *; rewrite Hdel; done).
    + (* the trigger settles *)
      rewrite decide_True in Hdel by (by left).
      destruct E as [[-> ->]|[-> ->]].
      * rewrite count_snoc, decide_True by (by right). rewrite Hdel. done.
      * assert (length (filter is_attempt (delete i (inflight st))) = 0) as ->
          by lia.
        split; [lia|]. intros ->. done.
    + (* the first status settles *)
      rewrite decide_True in Hdel by (by right).
      destruct E as [-> ->].
      assert (length (filter is_attempt (delete i (inflight st))) = 0) as ->
        by lia.
      split; [lia|]. intros ->. done.
  - destruct (mounted st) eqn:Hm; [|by rewrite Hm].
    split; [done|]. intros [=].
Qed.

Lemma one_attempt_init : one_attempt init.
Proof.
  assert (attempts_in_flight init = 0) as E by (vm_compute; done).
  unfold one_attempt. rewrite E. split; [lia|]. done.
Qed.

Lemma one_attempt_run (st : State) (evs : list Event) :
  one_attempt st → one_attempt (run st evs).
Proof.
  revert st. induction evs as [|e evs IH]; intros st Hst; [done|].
  apply IH. by apply one_attempt_step.
Qed.

End LadderAttempts.

Section LadderExtras.
Import Ladder LadderCards.

Ltac page_eval :=
  lazy beta iota zeta delta
    [step commit effect cleanup isRunning current_dep resume runLadder
     runLadder_catch poll setStatus setSlips setExpanded setTriggering
     set_timers set_ref set_dep drop_request set_unmounted suspend emit
     page_status slips expanded triggering pollRef effect_dep timers inflight
     mounted log resting polling init
     lookup list_lookup delete list_delete andb negb orb];
  rewrite ?clear_singleton, ?clear_on_empty, ?set_on_empty,
    ?is_live_singleton, ?is_live_empty;
  cbn [app fmap option_fmap option_map].

Ltac page_step :=
  first [rewrite ladder_run_cons | rewrite ladder_run_nil];
  repeat progress (page_eval; decide_known).

(** X10.  The ladder page never leaks a timer.  In every state the page
    can reach from mounting, whatever the order of clicks, ticks, replies
    and the unmount, the only timer that can be live is the one held in
    [pollRef]; so at most one timer is live, and once the page is
    unmounted none is. *)
Theorem ladder_timers_never_leak (evs : list Event) :
  owns_timers (run init evs) ∧
  (∀ id1 id2,
     is_Some (Timers.live (timers (run init evs)) !! id1) →
     is_Some (Timers.live (timers (run init evs)) !! id2) → id1 = id2) ∧
  (mounted (run init evs) = false → Timers.live (timers (run init evs)) = ∅).
Proof.
  destruct (timers_kept_run init evs timers_kept_init) as [Hown Hdead].
  split_and!; [done| |done].
  intros id1 id2 H1%Hown H2%Hown. congruence.
Qed.

(** X11.  Opening the page while a search is running resumes polling: when
    the status request sent on mount is answered with [running], the poll
    effect sets its 2000 ms timer although no search was started from this
    page; with any other answer no timer is set.  A failure of either
    mount request is swallowed: nothing is logged, nothing changes. *)
Theorem ladder_mount (s : LadderStatus) (l : list Slip) :
  (let st := run init [Settle 0 (StatusBody s)] in
   page_status st = Some s ∧
   Timers.live (timers st)
     = (if decide (status s = running) then {[1%positive := 2000%Z]} else ∅) ∧
   log st = log init ++ [call_setStatus s]) ∧
  slips (run init [Settle 1 (SlipsBody l)]) = l ∧
  run init [Settle 0 Rejected; Settle 0 Rejected]
  = {| page_status := None; slips := []; expanded := None; triggering := false;
       pollRef := None; effect_dep := None; timers := Timers.empty;
       inflight := []; mounted := true; log := log init |}.
Proof.
  split_and!.
  - cbn zeta. unfold Timers.empty.
    destruct (decide (status s = running)) as [Hs|Hs];
      repeat page_step; rewrite ?Hs; repeat (page_eval; decide_known); done.
  - repeat page_step. done.
  - repeat page_step. done.
Qed.

(** X12.  A search that has already ended when [runLadder] fetches its
    first status shows no picks: [runLadder] empties the slip list, and
    results are requested only by the interval callback, which is never
    installed for a status other than [running].  After such an attempt,
    also one answered [done], the list is empty, no results request has
    been made, nothing is in flight and no timer is live, so nothing more
    happens until the user acts. *)
Theorem ladder_finished_before_first_status (s : option LadderStatus)
    (sl : list Slip) (ex : option Z) (ref : option positive) (nx : positive)
    (lg : list Call) (tm : LadderStatus) :
  status <$> s ≠ Some running → status tm ≠ running →
  let st0 := resting s sl ex ref nx lg in
  let st1 := run st0 (attempt 0 tm) in
  slips st1 = [] ∧ page_status st1 = Some tm ∧
  count call_results (calls_since st0 st1) = 0 ∧
  inflight st1 = [] ∧ Timers.live (timers st1) = ∅ ∧
  (∀ id, step st1 (Tick id) = st1) ∧ (∀ i r, step st1 (Settle i r) = st1).
Proof.
  intros Hs Htm. cbn zeta.
  rewrite (ladder_attempt_terminal s sl ex ref nx lg tm Hs Htm).
  split_and!; try done.
  unfold calls_since, resting. cbn [log].
  rewrite drop_app_length. count_calls.
Qed.

Lemma ladder_finished_before_first_status_witness :
  slips (run (resting None Examples.ladder_slips (Some 0%Z) None 1 [])
             (attempt 0 (Examples.ladder_status done 90))) = [] ∧
  count call_results
    (calls_since (resting None Examples.ladder_slips (Some 0%Z) None 1 [])
       (run (resting None Examples.ladder_slips (Some 0%Z) None 1 [])
            (attempt 0 (Examples.ladder_status done 90)))) = 0.
Proof.
  destruct (ladder_finished_before_first_status None Examples.ladder_slips
              (Some 0%Z) None 1%positive [] (Examples.ladder_status done 90))
    as (H1 & _ & H2 & _); [discriminate|discriminate|].
  split; [exact H1|exact H2].
Defined.

(** X13.  The ladder page never has two start attempts under way.  In
    every state reachable from mounting at most one request of [runLadder]
    (the trigger or its first status fetch) is in flight; on the mounted
    page [triggering] is true exactly while one is; and a click on the
    button while one is in flight does nothing. *)
Theorem ladder_one_start_attempt (evs : list Event) :
  one_attempt (run init evs) ∧
  (0 < attempts_in_flight (run init evs) →
   step (run init evs) ClickRun = run init evs).
Proof.
  pose proof (one_attempt_run init evs one_attempt_init) as Hone.
  split; [done|]. destruct Hone as [Hle Hflag]. intros Hpos.
  unfold step. destruct (mounted (run init evs)); [|done].
  destruct (Hflag eq_refl) as [_ Htr]. rewrite Htr by lia.
  by rewrite orb_true_r.
Qed.

Lemma ladder_one_start_attempt_witness :
  step (run init [ClickRun]) ClickRun = run init [ClickRun].
Proof.
  apply (proj2 (ladder_one_start_attempt [ClickRun])).
  vm_compute. lia.
Defined.

End LadderExtras.

(* ================================================================= *)
(** * Properties of the dashboard beyond the claims *)

Section DashboardInvariants.
Import Dashboard RefreshLoop.

Lemma refresh_timers_same (st st' : State) :
  effect_timer st' = effect_timer st → timers st' = timers st →
  mounted st' = mounted st → timers_kept st → timers_kept st'.
Proof. unfold timers_kept, owns_timers. intros -> -> ->. done. Qed.

Lemma refresh_timers_clear (h : option positive) (st st' : State) :
  effect_timer st' = effect_timer st → mounted st' = mounted st →
  timers st' = Timers.clearInterval h (timers st) →
  timers_kept st → timers_kept st'.
Proof.
  unfold timers_kept, owns_timers. intros -> -> -> [Hown Hdead]. split.
  - intros id Hid. apply Hown. by apply clear_subset in Hid.
  - intros Hm. by apply clear_empty, Hdead.
Qed.

Lemma refresh_timers_rerun (st : State) :
  mounted st = true → timers_kept st → timers_kept (rerun_effect st).
Proof.
  intros Hm [Hown _]. unfold rerun_effect.
  assert (Timers.live (timers (cleanup st)) = ∅) as He by apply clear_owned, Hown.
  unfold effect. destruct (refreshing _).
  - destruct (Timers.setInterval 1500 _) as [id tb] eqn:Es.
    split; [|cbn; congruence].
    intros id' Hid'. cbn [effect_timer set_effect]. f_equal.
    change id with (id, tb).1. rewrite <- Es. apply set_on_none; [done|].
    rewrite Es. exact Hid'.
  - split; [|cbn; congruence].
    intros id Hid. cbn in Hid. change (timers (cleanup st)) with
      (Timers.clearInterval (effect_timer st) (timers st)) in He.
    rewrite He, lookup_empty in Hid. by destruct Hid.
Qed.

Lemma refresh_timers_commit (st : State) :
  timers_kept st → timers_kept (commit st).
Proof.
  intros Hk. unfold commit.
  destruct (mounted st) eqn:Hm; cbn [andb]; [|done].
  destruct (negb _); [|done]. by apply refresh_timers_rerun.
Qed.

Lemma refresh_resume_timers (k : Await) (r : Reply) (st st' : State) :
  resume k r st = Some st' →
  effect_timer st' = effect_timer st ∧ mounted st' = mounted st ∧
  (timers st' = timers st ∨
   ∃ h, timers st' = Timers.clearInterval h (timers st)).
Proof.
  destruct k, r; cbn [resume]; try done;
    try (intros [= <-]; split_and!; [reflexivity|reflexivity|by left]).
  destruct (running s); intros [= <-];
    (split_and!; [reflexivity|reflexivity|]); [by left|right].
  by eexists.
Qed.

Lemma refresh_timers_step (st : State) (e : Event) :
  timers_kept st → timers_kept (step st e).
Proof.
  intros Hk. destruct e as [| |id|i r| |failure|]; unfold step.
  - destruct (_ && _); [|done]. apply refresh_timers_commit.
    by apply (refresh_timers_same st).
  - destruct (mounted st) eqn:Hm; [|done]. apply refresh_timers_rerun; [done|].
    by apply (refresh_timers_same st).
  - destruct (Timers.is_live _ _); [|done]. apply refresh_timers_commit.
    by apply (refresh_timers_same st).
  - destruct (inflight st !! i) as [k|]; [|done].
    destruct (resume k r (drop_request i st)) as [st'|] eqn:E; [|done].
    apply refresh_timers_commit.
    apply refresh_resume_timers in E as (Hr & Hm & [Ht|[h Ht]]).
    + by apply (refresh_timers_same st).
    + by apply (refresh_timers_clear h st).
  - apply refresh_timers_commit. unfold timeout.
    destruct (timeouts st); [done|]. by apply (refresh_timers_same st).
  - apply refresh_timers_commit. unfold fetchData_rest.
    destruct (fetching st); [done|]. by apply (refresh_timers_same st).
  - destruct (mounted st) eqn:Hm; [|done].
    destruct Hk as [Hown _].
    assert (Timers.live (timers (set_unmounted (cleanup st))) = ∅) as He
      by apply clear_owned, Hown.
    split; [|done].
    intros id Hid. rewrite He, lookup_empty in Hid. by destruct Hid.
Qed.

Lemma refresh_timers_init : timers_kept init.
Proof.
  split; [|done]. intros id Hid. cbn in Hid.
  rewrite lookup_empty in Hid. by destruct Hid.
Qed.

Lemma refresh_timers_run (st : State) (evs : list Event) :
  timers_kept st → timers_kept (run st evs).
Proof.
  revert st. induction evs as [|e evs IH]; intros st Hst; [done|].
  apply IH. by apply refresh_timers_step.
Qed.

End DashboardInvariants.

Section DashboardExtras.
Import Dashboard RefreshLoop.

(** X14.  The dashboard never leaks its interval timer.  In every state
    the page can reach from mounting, whatever the order of clicks, filter
    changes, ticks, replies and the unmount, the only interval timer that
    can be live is the one the last run of the poll effect created; so at
    most one is live, and once the page is unmounted none is.  The
    one-shot timers that [setTimeout(fetchData, 500)] schedules are not
    covered: no handle of theirs is kept, the unmount leaves them pending,
    and each one still pending fires and calls [fetchData]. *)
Theorem dashboard_timers_never_leak (evs : list Event) :
  owns_timers (run init evs) ∧
  (∀ id1 id2,
     is_Some (Timers.live (timers (run init evs)) !! id1) →
     is_Some (Timers.live (timers (run init evs)) !! id2) → id1 = id2) ∧
  (mounted (run init evs) = false → Timers.live (timers (run init evs)) = ∅) ∧
  timeouts (step (run init evs) Unmount) = timeouts (run init evs) ∧
  (∀ n, timeouts (run init evs) = S n →
        timeouts (step (run init evs) Timeout) = n ∧
        count call_fetchData
          (calls_since (run init evs) (step (run init evs) Timeout)) = 1).
Proof.
  destruct (refresh_timers_run init evs refresh_timers_init) as [Hown Hdead].
  split_and!; [done| |done| |].
  - intros id1 id2 H1%Hown H2%Hown. congruence.
  - unfold step. by destruct (mounted _).
  - intros n Hn. generalize dependent (run init evs).
    intros st _ _ Hn. destruct st as [rf rs err dep tm tb fl fe to mt lg].
    cbn [timeouts] in Hn. subst to.
    unfold calls_since, count.
    assert (∀ st', log (commit st') = log st') as Hlog.
    { intros st'. unfold commit. destruct (_ && _); [|done].
      unfold rerun_effect, effect, cleanup, set_timers.
      by repeat case_match. }
    assert (∀ st', timeouts (commit st') = timeouts st') as Hto.
    { intros st'. unfold commit. destruct (_ && _); [|done].
      unfold rerun_effect, effect, cleanup, set_timers.
      by repeat case_match. }
    unfold step. rewrite Hlog, Hto. unfold timeout, fetchData, emit.
    cbn [timeouts log]. rewrite drop_app_length. done.
Qed.

(** X15.  A refresh whose status requests are each answered before the
    next tick, [running] for the N answers the timer's callback gets first
    and then not running: the page makes N+2 status requests (one by
    [handleRefresh], whose answer is displayed but not examined, and N+1
    by the callback), calls [setRefreshing(false)] once and schedules
    [fetchData] once, 500 ms later; at the end the status on display is
    the last one, the button is enabled again, no timer is live and
    nothing is in flight. *)
Theorem refresh_completes (rs0 : option RefreshStatus) (err : option string)
    (nx : positive) (lg : list Call) (r : RefreshStatus)
    (rs : list RefreshStatus) (tm : RefreshStatus) :
  Forall (λ r, running r = true) rs → running tm = false →
  let st0 := resting rs0 err nx lg in
  let st1 := run st0 (attempt 0 r ++ rounds nx rs ++ round nx tm) in
  let calls := calls_since st0 st1 in
  count call_refresh calls = 1 ∧
  count call_refreshStatus calls = length rs + 2 ∧
  count (call_setRefreshing false) calls = 1 ∧
  count (call_setTimeout_fetchData 500) calls = 1 ∧
  refreshStatus st1 = Some tm ∧ refreshing st1 = false ∧
  Timers.live (timers st1) = ∅ ∧ inflight st1 = [] ∧
  (∀ id, step st1 (Tick id) = st1).
Proof.
  intros Hrs Htm. cbn zeta.
  rewrite (refresh_served rs0 err nx lg r rs tm Hrs Htm).
  erewrite !dashboard_calls_since by reflexivity.
  rewrite !dashboard_count_app, !dashboard_count_rounds.
  assert (∀ c, (∀ r, call_setRefreshStatus r ≠ c) →
            length (filter (λ r, call_setRefreshStatus r = c) rs) = 0) as Hnone.
  { intros c Hc. clear Hrs. induction rs as [|r' rs' IH]; [done|].
    rewrite filter_cons. rewrite decide_False by apply Hc. apply IH. }
  rewrite !Hnone by done.
  split_and!; try done; count_calls.
Qed.

Lemma refresh_completes_witness :
  count call_refreshStatus
    (calls_since (resting None None 1 [])
       (run (resting None None 1 [])
          (attempt 0 (Examples.refresh_status true 0)
           ++ rounds 1 [Examples.refresh_status true 40;
                        Examples.refresh_status true 80]
           ++ round 1 (Examples.refresh_status false 100)))) = 4.
Proof.
  apply (refresh_completes None None 1%positive [] (Examples.refresh_status true 0)
           [Examples.refresh_status true 40; Examples.refresh_status true 80]
           (Examples.refresh_status false 100)).
  - repeat constructor.
  - reflexivity.
Defined.

(** X16.  A change of the filters while a refresh is polling restarts the
    poll timer and does not disturb the refresh: the old handle is
    cleared and no longer fires, a new 1500 ms timer takes its place,
    [fetchData] is called (it clears the error message and its requests
    are in flight), and the loop goes on with the new timer until a status
    says the refresh is over, where it ends as it would have ended without
    the change, the reload scheduled. *)
Theorem filters_change_during_refresh (t : positive) (rs0 : option RefreshStatus)
    (err : option string) (nx : positive) (lg : list Call)
    (rs : list RefreshStatus) (tm : RefreshStatus) :
  Forall (λ r, running r = true) rs → running tm = false →
  let st0 := polling t rs0 err [] nx lg in
  step st0 FiltersChanged
  = busy 1 0 (polling nx rs0 None [] (Pos.succ nx) (lg ++ [call_fetchData])) ∧
  (t ≠ nx → step (step st0 FiltersChanged) (Tick t) = step st0 FiltersChanged) ∧
  run st0 (FiltersChanged :: rounds nx rs ++ round nx tm)
  = busy 1 1
      (resting (Some tm) None (Pos.succ nx)
         (lg ++ [call_fetchData]
             ++ (rs ≫= λ r, [call_refreshStatus; call_setRefreshStatus r])
             ++ [call_refreshStatus; call_setRefreshStatus tm;
                 call_setRefreshing false; call_setTimeout_fetchData 500])).
Proof.
  intros Hrs Htm. cbn zeta.
  assert (step (polling t rs0 err [] nx lg) FiltersChanged
          = busy 1 0 (polling nx rs0 None [] (Pos.succ nx) (lg ++ [call_fetchData])))
    as E.
  { unfold polling, busy, step, rerun_effect, cleanup, effect, fetchData, emit,
      set_timers.
    cbn [mounted timers effect_timer refreshing log error refreshStatus
         effect_refreshing inflight fetching timeouts].
    rewrite clear_singleton, set_on_empty. done. }
  split_and!; [done| |].
  - intros Hne. rewrite E. unfold step, polling, busy. cbn [timers].
    rewrite is_live_None; [done|]. cbn. by rewrite lookup_singleton_ne.
  - rewrite dashboard_run_cons, E, dashboard_run_app,
      (refresh_rounds_running _ _ _ _ _ _ _ _ Hrs),
      (refresh_round_terminal _ _ _ _ _ _ _ _ Htm).
    by rewrite <- !app_assoc.
Qed.

Lemma filters_change_during_refresh_witness :
  run (polling 1 None (Some "HTTP 500") [] 2 [])
      (FiltersChanged :: rounds 2 [Examples.refresh_status true 40]
                         ++ round 2 (Examples.refresh_status false 100))
  = busy 1 1
      (resting (Some (Examples.refresh_status false 100)) None 3
         ([] ++ [call_fetchData]
             ++ ([Examples.refresh_status true 40]
                   ≫= λ r, [call_refreshStatus; call_setRefreshStatus r])
             ++ [call_refreshStatus;
                 call_setRefreshStatus (Examples.refresh_status false 100);
                 call_setRefreshing false; call_setTimeout_fetchData 500])).
Proof.
  apply (filters_change_during_refresh 1 None (Some "HTTP 500") 2 []
           [Examples.refresh_status true 40] (Examples.refresh_status false 100)).
  - repeat constructor.
  - reflexivity.
Defined.

End DashboardExtras.

Section TableExtras.
Import DashboardTable.

Lemma sorted_trivially {A : Type} (l : list A) :
  StronglySorted (λ _ _, True) l.
Proof.
  induction l as [|x l IH]; constructor; [done|].
  by apply Forall_forall.
Qed.

(** X17.  The dashboard's table shows exactly the props it was given,
    each as often as it occurs, whatever the sort key; sorted by score it
    is in falling order of [value_score], sorted by line or by odds in
    rising order of that field.  (The order by name is that of
    [localeCompare], which depends on the browser's locale.) *)
Theorem props_table_sorted (localeCompare : string → string → JS.number)
    (sortKey : SortKey) (props : list PropRow) :
  sorted localeCompare sortKey props ≡ₚ props ∧
  StronglySorted (in_order sortKey) (sorted localeCompare sortKey props).
Proof.
  split; [apply sort_perm|].
  unfold sorted. destruct sortKey.
  - apply (sort_sorted _ _ (λ _, True)); [| | |by apply Forall_forall].
    + intros a b c _ _ _. cbn. intros H1 H2. by apply Qle_trans with (value_score b).
    + intros a b _ _. cbn [order field in_order].
      rewrite positive_sub. apply Qlt_le_weak.
    + intros a b _ _. cbn [order field in_order]. by rewrite not_positive_sub.
  - apply (sort_sorted _ _ (λ _, True)); [| | |by apply Forall_forall].
    + intros a b c _ _ _. cbn. intros H1 H2. by apply Qle_trans with (line b).
    + intros a b _ _. cbn [order field in_order].
      rewrite positive_sub. apply Qlt_le_weak.
    + intros a b _ _. cbn [order field in_order]. by rewrite not_positive_sub.
  - apply (sort_sorted _ _ (λ _, True)); [| | |by apply Forall_forall].
    + intros a b c _ _ _. cbn. intros H1 H2. by apply Qle_trans with (over_odds b).
    + intros a b _ _. cbn [order field in_order].
      rewrite positive_sub. apply Qlt_le_weak.
    + intros a b _ _. cbn [order field in_order]. by rewrite not_positive_sub.
  - apply sorted_trivially.
Qed.

End TableExtras.

(* ================================================================= *)
(** * The two copies of autoCheck *)

Section CopiesFacts.
Import AutoCheck Copies.

Lemma handed_out_clear (h : option positive) (tb : Timers.table) :
  handed_out tb → handed_out (Timers.clearInterval h tb).
Proof.
  intros Hh id Hid.
  rewrite next_clear.
  apply Hh. by apply (clear_subset h).
Qed.

Lemma handed_out_set (ms : Z) (tb : Timers.table) :
  handed_out tb → handed_out (Timers.setInterval ms tb).2.
Proof.
  intros Hh id [x Hid]. unfold Timers.setInterval in *.
  cbn [snd Timers.live Timers.next] in *.
  apply lookup_insert_Some in Hid as [[<- _]|[_ Hid]]; [lia|].
  assert (id < Timers.next tb)%positive by (apply Hh; by exists x). lia.
Qed.

Lemma refs_agree_clear (r1 r2 : option positive) (tb : Timers.table) :
  refs_agree r1 r2 tb →
  Timers.clearInterval r1 tb = Timers.clearInterval r2 tb.
Proof.
  intros [_ [->|(-> & t & -> & Hd)]]; [done|].
  by rewrite clear_dead.
Qed.

(** After the ref's timer is cleared, the copy that resets the ref and
    the copy that keeps it still agree. *)
Lemma refs_agree_reset (r1 r2 : option positive) (tb : Timers.table) :
  refs_agree r1 r2 tb →
  refs_agree None r2 (Timers.clearInterval r2 tb) ∧
  refs_agree r1 r2 (Timers.clearInterval r2 tb).
Proof.
  intros [Hlt Hag]. unfold refs_agree. rewrite next_clear.
  assert (∀ t, r2 = Some t →
            Timers.live (Timers.clearInterval r2 tb) !! t = None) as Hdead.
  { intros t ->. by apply clear_not_live. }
  split; (split; [done|]).
  - destruct r2 as [t|]; [right|by left]. split; [done|]. exists t. eauto.
  - destruct Hag as [->|(-> & t & -> & Hd)]; [by left|right].
    split; [done|]. exists t. eauto.
Qed.

Lemma refs_agree_set (r1 r2 : option positive) (ms : Z) (tb : Timers.table) :
  refs_agree r1 r2 tb →
  refs_agree (Some (Timers.setInterval ms tb).1) (Some (Timers.setInterval ms tb).1)
    (Timers.setInterval ms tb).2.
Proof.
  intros _. split; [|by left].
  intros t [= <-]. unfold Timers.setInterval. cbn. lia.
Qed.

End CopiesFacts.

Section CopiesStep.
Import AutoCheck Copies.

Ltac page_open :=
  lazy beta iota zeta delta
    [step resume autoCheck poll autoCheck_catch load_if_done load load_rest
     unmount setCheckStatus setChecking set_ref set_timers drop_request
     suspend emit checkStatus checking checkPollRef timers inflight loads
     mounted log in_step same_page andb negb].

Lemma in_step_fields (cs : option ResultsStatus) (ck : bool)
    (r1 r2 : option positive) (tb : Timers.table) (fl : list Await) (ld : nat)
    (mt : bool) (lg : list Call) :
  handed_out tb → refs_agree r1 r2 tb →
  in_step
    {| checkStatus := cs; checking := ck; checkPollRef := r1; timers := tb;
       inflight := fl; loads := ld; mounted := mt; log := lg |}
    {| checkStatus := cs; checking := ck; checkPollRef := r2; timers := tb;
       inflight := fl; loads := ld; mounted := mt; log := lg |}.
Proof. intros Hh Hr. by split_and!. Qed.

Lemma in_step_inv (s1 s2 : State) :
  in_step s1 s2 →
  ∃ cs ck r1 r2 tb fl ld mt lg,
    s1 = {| checkStatus := cs; checking := ck; checkPollRef := r1; timers := tb;
            inflight := fl; loads := ld; mounted := mt; log := lg |} ∧
    s2 = {| checkStatus := cs; checking := ck; checkPollRef := r2; timers := tb;
            inflight := fl; loads := ld; mounted := mt; log := lg |} ∧
    handed_out tb ∧ refs_agree r1 r2 tb.
Proof.
  destruct s1 as [cs1 ck1 r1 tb1 fl1 ld1 mt1 lg1],
           s2 as [cs2 ck2 r2 tb2 fl2 ld2 mt2 lg2].
  intros [(E1 & E2 & E3 & E4 & E5 & E6 & E7) [Hh Hr]]. cbn in *. subst.
  by exists cs2, ck2, r1, r2, tb2, fl2, ld2, mt2, lg2.
Qed.

Lemma resume_in_step (k : Await) (r : option ResultsStatus) (s1 s2 : State) :
  in_step s1 s2 → in_step (resume true k r s1) (resume false k r s2).
Proof.
  intros (cs & ck & r1 & r2 & tb & fl & ld & mt & lg & -> & -> & Hh & Hr)%in_step_inv.
  destruct k, r as [s|]; unfold resume, autoCheck_catch, load_if_done, load.
  - by apply in_step_fields.
  - by apply in_step_fields.
  - case_decide.
    + cbn [timers setCheckStatus emit].
      pose proof (handed_out_set 2000 tb Hh) as Hh'.
      pose proof (refs_agree_set r1 r2 2000 tb Hr) as Hr'.
      destruct (Timers.setInterval 2000 tb) as [id tb'].
      by apply in_step_fields.
    + case_decide; by apply in_step_fields.
  - by apply in_step_fields.
  - case_decide; [|by apply in_step_fields].
    cbn [timers checkPollRef setCheckStatus emit].
    rewrite (refs_agree_clear r1 r2 tb Hr).
    destruct (refs_agree_reset r1 r2 tb Hr) as [Hreset _].
    pose proof (handed_out_clear r2 tb Hh) as Hh'.
    case_decide; by apply in_step_fields.
  - by apply in_step_fields.
Qed.

Lemma step_in_step (s1 s2 : State) (e : Event) :
  in_step s1 s2 → in_step (step true s1 e) (step false s2 e).
Proof.
  intros Hs. pose proof Hs as
    (cs & ck & r1 & r2 & tb & fl & ld & mt & lg & -> & -> & Hh & Hr)%in_step_inv.
  destruct e as [|id|i r|ok|]; unfold step; cbn [mounted checking timers inflight].
  - destruct (mt && negb ck); [|done]. by apply in_step_fields.
  - destruct (Timers.is_live id tb); [|done]. by apply in_step_fields.
  - destruct (fl !! i) as [k|]; [|done].
    apply resume_in_step. by apply in_step_fields.
  - unfold load_rest. cbn [loads]. destruct ld; by apply in_step_fields.
  - destruct mt; [|done]. unfold unmount. cbn [timers checkPollRef].
    rewrite (refs_agree_clear r1 r2 tb Hr).
    destruct (refs_agree_reset r1 r2 tb Hr) as [_ Hkeep].
    apply in_step_fields; [by apply handed_out_clear|done].
Qed.

Lemma init_in_step : in_step init init.
Proof.
  apply in_step_fields.
  - intros id Hid. cbn in Hid. rewrite lookup_empty in Hid. by destruct Hid.
  - split; [done|by left].
Qed.

Lemma run_in_step (s1 s2 : State) (evs : list Event) :
  in_step s1 s2 → in_step (run true s1 evs) (run false s2 evs).
Proof.
  revert s1 s2. induction evs as [|e evs IH]; intros s1 s2 Hs; [done|].
  apply IH. by apply step_in_step.
Qed.

(** X18.  The two copies of [autoCheck] behave alike.  The prop-results
    copy resets [checkPollRef] after clearing its timer and the history
    copy does not; for every sequence of clicks, ticks, replies and the
    unmount, the two pages reach states with the same status on display,
    the same [checking] flag, the same live timers, the same requests in
    flight, the same reloads under way and the same calls made: the handle the history copy keeps is
    that of a dead timer, and clearing it again changes nothing. *)
Theorem autoCheck_copies_agree (evs : list Event) :
  same_page (PropResults.run init evs) (History.run init evs) ∧
  refs_agree (checkPollRef (PropResults.run init evs))
             (checkPollRef (History.run init evs))
             (timers (History.run init evs)).
Proof.
  destruct (run_in_step init init evs init_in_step) as (Hpage & _ & Hrefs).
  done.
Qed.

End CopiesStep.

(* ================================================================= *)
(** * The analytics page's factor summary *)

Section FactorFacts.
Import JS AnalyticsPage.
Local Open Scope Q_scope.

Lemma round64_below p q : 0 <= p -> p <= q -> below (round64 p) (round64 q).
Proof.
  intros H0 Hpq. assert (0 <= q) as Hq by lra.
  pose proof (nearest_mono p q H0 Hpq) as Hm.
  pose proof (nearest_nonneg p H0) as Hp0.
  destruct (round64_nonneg p H0) as [[-> Hp]|[-> Hp]],
           (round64_nonneg q Hq) as [[-> Hq']|[-> Hq']]; cbn.
  - done.
  - lra.
  - split; [done|]. by apply nearest_idem.
  - split_and!; [done|by apply nearest_idem|by apply nearest_idem|done].
Qed.

Lemma add_below x y x' y' : below x y -> below x' y' -> below (add x x') (add y y').
Proof.
  destruct x as [a| | |], y as [b| | |]; try done;
    destruct x' as [a'| | |], y' as [b'| | |]; try done; cbn [below add].
  - intros (A0 & _ & _ & Hab) (A0' & _ & _ & Hab'). apply round64_below; lra.
  - intros (A0 & _ & _ & Hab) (A0' & _).
    destruct (round64_nonneg (a + a')) as [[-> _]|[-> _]]; [lra|done|].
    cbn. split; [apply nearest_nonneg; lra|apply nearest_idem; lra].
  - intros (A0 & _) (A0' & _).
    destruct (round64_nonneg (a + a')) as [[-> _]|[-> _]]; [lra|done|].
    cbn. split; [apply nearest_nonneg; lra|apply nearest_idem; lra].
  - intros (A0 & _) (A0' & _).
    destruct (round64_nonneg (a + a')) as [[-> _]|[-> _]]; [lra|done|].
    cbn. split; [apply nearest_nonneg; lra|apply nearest_idem; lra].
Qed.

Lemma add_keeps_below x y y' : below x y -> below (Fin 0) y' -> below x (add y y').
Proof.
  destruct x as [a| | |], y as [b| | |]; try done;
    destruct y' as [b'| | |]; try done; cbn [below add].
  - intros (A0 & Ha & Hb & Hab) (_ & _ & _ & Hb').
    destruct (round64_nonneg (b + b')) as [[-> _]|[-> _]]; [lra|done|].
    cbn. split_and!; [done|done|apply nearest_idem; lra|].
    rewrite <- Ha. apply nearest_mono; lra.
  - by intros (A0 & Ha & Hb & Hab) _.
Qed.

Lemma literal_below p q : 0 <= p -> p <= q -> below (literal p) (literal q).
Proof. apply round64_below. Qed.

Lemma below_zero_l x y : below x y -> below (Fin 0) y.
Proof.
  destruct x as [a| | |], y as [b| | |]; try done; cbn.
  intros (A0 & Ha & Hb & Hab). split_and!; [lra|by rewrite (nearest_zero 0)|done|lra].
Qed.

Lemma sum_below (P : Bucket -> Prop) `{!∀ b, Decision (P b)} (f g : Bucket -> Q)
    (xs : list Bucket) (x y : number) :
  Forall (λ b, 0 <= f b /\ f b <= g b) xs -> below x y ->
  below (fold_left (λ s b, add s (literal (f b))) (filter P xs) x)
        (fold_left (λ s b, add s (literal (g b))) xs y).
Proof.
  intros Hxs. revert x y. induction Hxs as [|b xs [Hf Hfg] Hxs IH]; intros x y Hxy.
  - done.
  - rewrite filter_cons. cbn [fold_left].
    pose proof (literal_below (f b) (g b) Hf Hfg) as Hl.
    destruct (decide (P b)); cbn [fold_left]; apply IH.
    + by apply add_below.
    + apply add_keeps_below; [done|]. by apply (below_zero_l (literal (f b))).
Qed.

Lemma below_zero : below (Fin 0) (Fin 0).
Proof. cbn. split_and!; [lra|by rewrite (nearest_zero 0)|by rewrite (nearest_zero 0)|lra]. Qed.

Lemma sum_below_filter (f g : Bucket -> Q) (xs : list Bucket) :
  Forall (λ b, 0 <= f b /\ f b <= g b) xs ->
  below (sum f (filter is_high xs)) (sum g xs).
Proof. intros Hxs. apply (sum_below is_high f g xs); [done|apply below_zero]. Qed.

Lemma sum_below_same (f g : Bucket -> Q) (xs : list Bucket) :
  Forall (λ b, 0 <= f b /\ f b <= g b) xs -> below (sum f xs) (sum g xs).
Proof.
  intros Hxs.
  assert (filter (λ _ : Bucket, True) xs = xs) as E.
  { clear Hxs. induction xs as [|b xs IH]; [done|].
    rewrite filter_cons, decide_True by done. by rewrite IH. }
  pose proof (sum_below (λ _, True) f g xs (Fin 0) (Fin 0) Hxs below_zero) as H.
  rewrite E in H. exact H.
Qed.

Lemma below_Fin x (b : Q) :
  below x (Fin b) -> exists a, x = Fin a /\ 0 <= a /\ a <= b.
Proof.
  destruct x as [a| | |]; try done. cbn. intros (A0 & _ & _ & Hab). by exists a.
Qed.

End FactorFacts.

Section FactorExtras.
Import AnalyticsPage.

(** X19.  The factor summary always has the eight rows of [FACTOR_ORDER],
    in that order, whatever the server sent; a factor without calibration
    data (absent, or with no bucket) gets the row of zeros: both sample
    sizes 0 and both rates 0, never [NaN]. *)
Theorem factor_summary_rows (fc : list (string * list Bucket)) :
  name <$> factorSummary fc = FACTOR_ORDER ∧
  ∀ n, default [] (JS.get n fc) = [] →
       factorRow fc n
       = {| name := n; overall_pct := JS.of_Z 0; overall_n := JS.Fin 0;
            high_pct := JS.of_Z 0; high_n := JS.Fin 0 |}.
Proof.
  split; [done|]. intros n Hn. unfold factorRow. rewrite Hn. done.
Qed.

Lemma factor_summary_rows_witness :
  factorRow [("Consistency", [{| bucket := 60; total := 4; hits := 3 |}])] "Injury"
  = {| name := "Injury"; overall_pct := JS.of_Z 0; overall_n := JS.Fin 0;
       high_pct := JS.of_Z 0; high_n := JS.Fin 0 |}.
Proof.
  apply (proj2 (factor_summary_rows
                  [("Consistency", [{| bucket := 60; total := 4; hits := 3 |}])])).
  reflexivity.
Defined.

(** X20.  When every bucket of a factor has no more hits than picks (and
    no negative count) and the picks do not add up to [Infinity], the
    summary row is sound, rounding included: both sample sizes are finite,
    the high-score sample is part of the overall sample
    ([0 <= high_n <= overall_n]), and both rates are whole percentages
    between 0 and 100, 0 for an empty sample. *)
Theorem factor_summary_bounds (fc : list (string * list Bucket)) (n : string) :
  Forall counted (default [] (JS.get n fc)) →
  JS.is_finite (overall_n (factorRow fc n)) →
  ∃ hn on : Q,
    high_n (factorRow fc n) = JS.Fin hn ∧
    overall_n (factorRow fc n) = JS.Fin on ∧
    (0 <= hn)%Q ∧ (hn <= on)%Q ∧
    (∃ z : Z, overall_pct (factorRow fc n) = JS.of_Z z ∧ (0 ≤ z ≤ 100)%Z ∧
              ((on == 0)%Q → z = 0%Z)) ∧
    (∃ z : Z, high_pct (factorRow fc n) = JS.of_Z z ∧ (0 ≤ z ≤ 100)%Z ∧
              ((hn == 0)%Q → z = 0%Z)).
Proof.
  intros Hc. unfold factorRow. cbn [high_n overall_n overall_pct high_pct].
  set (buckets := default [] (JS.get n fc)) in *.
  assert (Forall (λ b, (0 <= total b)%Q ∧ (total b <= total b)%Q) buckets) as Htot.
  { eapply Forall_impl; [exact Hc|]. intros b [? ?]. split; lra. }
  assert (Forall (λ b, (0 <= hits b)%Q ∧ (hits b <= total b)%Q)
            (filter is_high buckets)) as Hhigh.
  { apply Forall_forall. intros b [_ Hb]%list_elem_of_filter.
    by apply (proj1 (Forall_forall _ _) Hc). }
  pose proof (sum_below_same hits total buckets Hc) as B1.
  pose proof (sum_below_filter total total buckets Htot) as B2.
  pose proof (sum_below_same hits total _ Hhigh) as B3.
  destruct (sum total buckets) as [on| | |]; try done. intros _.
  apply below_Fin in B1 as (ah & -> & Hah0 & Hah).
  apply below_Fin in B2 as (hn & E2 & Hhn0 & Hhn). rewrite E2 in *.
  apply below_Fin in B3 as (hh & -> & Hhh0 & Hhh).
  exists hn, on. split_and!; try done.
  - by apply pct_finite.
  - by apply pct_finite.
Qed.

Lemma factor_summary_bounds_witness :
  ∃ hn on : Q,
    high_n (factorRow
      [("Consistency", [{| bucket := 50; total := 10; hits := 4 |};
                        {| bucket := 60; total := 4; hits := 3 |}])]
      "Consistency") = JS.Fin hn ∧
    overall_n (factorRow
      [("Consistency", [{| bucket := 50; total := 10; hits := 4 |};
                        {| bucket := 60; total := 4; hits := 3 |}])]
      "Consistency") = JS.Fin on ∧
    (0 <= hn)%Q ∧ (hn <= on)%Q.
Proof.
  destruct (factor_summary_bounds
              [("Consistency", [{| bucket := 50; total := 10; hits := 4 |};
                                {| bucket := 60; total := 4; hits := 3 |}])]
              "Consistency") as (hn & on & H1 & H2 & H3 & H4 & _).
  - repeat constructor; done.
  - vm_compute. exact I.
  - exists hn, on. by split_and!.
Defined.

(** Without the proviso the row is not sound: two buckets of 1e308 picks
    add up to [Infinity], and the rate [Infinity / Infinity * 100] is
    [NaN]. *)
Example factor_sums_overflow :
  let row := factorRow
    [("Consistency",
      [{| bucket := 60; total := inject_Z (10 ^ 308); hits := inject_Z (10 ^ 308) |};
       {| bucket := 70; total := inject_Z (10 ^ 308); hits := inject_Z (10 ^ 308) |}])]
    "Consistency" in
  overall_n row = JS.PosInf ∧ overall_pct row = JS.NaN.
Proof. vm_compute. done. Qed.

End FactorExtras.

(* ================================================================= *)
(** * The history page *)

Section OutcomeExtras.
Import PropResults OutcomeForm.

(** X21.  Marking a leg in the outcome form.  After [toggleLeg(id, result)]
    the leg carries [result], unless it carried exactly that result
    before, in which case its mark is removed; no other leg changes.
    Pressing the other button next always leaves the other result.  The
    form passes [undefined] instead of an empty object: [legs_arg] is
    [None] exactly for the form without marks, as after marking one leg
    and unmarking it again. *)
Theorem toggle_leg (id : Z) (result : LegResult) (r : gmap Z LegResult) :
  toggleLeg id result r !! id
    = (if decide (r !! id = Some result) then None else Some result) ∧
  (∀ id', id' ≠ id → toggleLeg id result r !! id' = r !! id') ∧
  (∀ other, other ≠ result →
     toggleLeg id other (toggleLeg id result r) !! id = Some other) ∧
  (legs_arg r = None ↔ r = ∅) ∧
  legs_arg (toggleLeg id result (toggleLeg id result ∅)) = None.
Proof.
  assert (∀ res r0, toggleLeg id res r0 !! id
            = (if decide (r0 !! id = Some res) then None else Some res)) as Hat.
  { intros res r0. unfold toggleLeg. case_decide.
    - apply lookup_delete_eq.
    - apply lookup_insert_eq. }
  split_and!.
  - apply Hat.
  - intros id' Hne. unfold toggleLeg. case_decide.
    + by rewrite lookup_delete_ne.
    + by rewrite lookup_insert_ne.
  - intros other Hne. rewrite Hat. rewrite decide_False; [done|].
    rewrite Hat. case_decide; congruence.
  - unfold legs_arg. case_decide as Hs.
    + apply map_size_empty_iff in Hs. done.
    + split; [done|]. intros ->. by rewrite map_size_empty in Hs.
  - unfold legs_arg, toggleLeg.
    rewrite (decide_False (P := (∅ : gmap Z LegResult) !! id = Some result))
      by (by rewrite lookup_empty).
    rewrite (decide_True (P := <[id:=result]> (∅ : gmap Z LegResult) !! id = Some result))
      by apply lookup_insert_eq.
    rewrite delete_insert_eq, delete_empty.
    rewrite decide_True; [done|apply map_size_empty].
Qed.

End OutcomeExtras.

Section MarkOutcomeFacts.
Import MarkOutcome.

Lemma NoDup_delete {A : Type} (l : list A) (i : nat) :
  NoDup l → NoDup (delete i l).
Proof.
  intros Hnd. apply (sublist_NoDup _ l); [done|apply sublist_delete].
Qed.

Lemma elem_of_delete_NoDup {A : Type} (l : list A) (i : nat) (k x : A) :
  NoDup l → l !! i = Some k → (x ∈ delete i l) ↔ x ∈ l ∧ x ≠ k.
Proof.
  revert i. induction l as [|y l IH]; intros [|i] Hnd Hi; try done.
  - injection Hi as ->. change (delete 0 (k :: l)) with l.
    apply NoDup_cons in Hnd as [Hk _]. rewrite elem_of_cons. split.
    + intros Hx. split; [by right|]. by intros ->.
    + by intros [[?|?] ?].
  - change (delete (S i) (y :: l)) with (y :: delete i l).
    change (l !! i = Some k) in Hi.
    apply NoDup_cons in Hnd as [Hy Hnd].
    rewrite !elem_of_cons, (IH i Hnd Hi). split.
    + intros [->|[? ?]]; [|tauto]. split; [by left|].
      intros ->. apply Hy. by eapply list_elem_of_lookup_2.
    + intros [[?|?] ?]; tauto.
Qed.

Lemma disabled_true (slip : Z) (st : State) :
  disabled slip st = true ↔ pending st !! slip = Some true.
Proof. unfold disabled. by rewrite bool_decide_eq_true. Qed.

Lemma one_request_step (st : State) (e : Event) :
  one_request_each st → one_request_each (step st e).
Proof.
  destruct st as [pd fl mt lg]. unfold one_request_each.
  cbn [inflight mounted]. intros [Hnd Hdis].
  assert (mt = true → ∀ s, pd !! s = Some true ↔ s ∈ fl) as Hp.
  { intros Hm s. rewrite <- (Hdis Hm s). symmetry. apply disabled_true. }
  destruct e as [slip|i ok|]; unfold step; cbn [mounted inflight].
  - destruct mt; cbn [andb]; [|done].
    destruct (disabled slip _) eqn:Ed; cbn [negb]; [done|].
    assert (slip ∉ fl) as Hnin.
    { intros Hin%(Hdis eq_refl). congruence. }
    unfold markOutcome, setPending, emit. cbn [pending inflight mounted log].
    split.
    + apply NoDup_app. split_and!; [done| |apply NoDup_singleton].
      by intros x Hx ->%list_elem_of_singleton.
    + intros _ s. rewrite disabled_true, elem_of_app, list_elem_of_singleton.
      cbn [pending]. destruct (decide (s = slip)) as [->|Hne].
      * rewrite lookup_insert_eq. tauto.
      * rewrite lookup_insert_ne by done. rewrite (Hp eq_refl s). tauto.
  - destruct (fl !! i) as [slip|] eqn:Hi; [|done].
    assert (NoDup (delete i fl)) as Hnd' by (by apply NoDup_delete).
    unfold resume, drop_request, setPending, emit.
    destruct ok; cbn [pending inflight mounted log]; (split; [done|]);
      intros ->; intros s;
      rewrite disabled_true, (elem_of_delete_NoDup fl i slip s Hnd Hi);
      cbn [pending];
      (destruct (decide (s = slip)) as [->|Hne];
       [rewrite lookup_insert_eq; split; [done|tauto]
       |rewrite lookup_insert_ne by done; rewrite (Hp eq_refl s); tauto]).
  - split; [done|]. intros [=].
Qed.

Lemma one_request_run (st : State) (evs : list Event) :
  one_request_each st → one_request_each (run st evs).
Proof.
  revert st. induction evs as [|e evs IH]; intros st Hst; [done|].
  apply IH. by apply one_request_step.
Qed.

Lemma one_request_init : one_request_each init.
Proof.
  split; [apply NoDup_nil_2|]. intros _ slip.
  rewrite disabled_true. cbn. rewrite lookup_empty, elem_of_nil. done.
Qed.

End MarkOutcomeFacts.

Section MarkOutcomeExtras.
Import MarkOutcome.

(** X22.  Recording outcomes on the history page.  Whatever the order of
    saves, replies and the unmount, no slip ever has two [recordOutcome]
    requests in flight, and on the mounted page a slip's "Save Result"
    button is disabled exactly while its request is in flight.  When the
    request of a slip settles, [pending] of that slip is set back to
    false whether it succeeded or failed; [load()] is called only after a
    success, and a failure is not caught. *)
Theorem mark_outcome_one_request (evs : list Event) :
  one_request_each (run init evs) ∧
  ∀ i slip ok,
    mounted (run init evs) = true → inflight (run init evs) !! i = Some slip →
    let st' := step (run init evs) (Settle i ok) in
    disabled slip st' = false ∧ (slip ∉ inflight st') ∧
    log st' = log (run init evs)
              ++ (if ok then [call_load; call_setPending slip false]
                  else [call_setPending slip false; unhandled_rejection]).
Proof.
  pose proof (one_request_run init evs one_request_init) as Hone.
  split; [done|]. intros i slip ok Hm Hi. cbn zeta.
  pose proof (one_request_step _ (Settle i ok) Hone) as [Hnd' Hdis'].
  destruct Hone as [Hnd _].
  assert (slip ∉ inflight (step (run init evs) (Settle i ok))) as Hnin.
  { unfold step. rewrite Hi. destruct ok;
      cbn [resume setPending emit drop_request inflight];
      rewrite (elem_of_delete_NoDup _ i slip slip Hnd Hi); tauto. }
  split_and!; [|done|].
  - destruct (disabled slip _) eqn:Ed; [|done].
    exfalso. apply Hnin. apply Hdis'; [|done].
    unfold step. rewrite Hi. by destruct ok.
  - unfold step. rewrite Hi. destruct ok;
      cbn [resume setPending emit drop_request log]; by rewrite <- app_assoc.
Qed.

Lemma mark_outcome_one_request_witness :
  disabled 7 (step (run init [Save 7]) (Settle 0 false)) = false ∧
  (7%Z ∉ inflight (step (run init [Save 7]) (Settle 0 false))) ∧
  log (step (run init [Save 7]) (Settle 0 false))
  = log (run init [Save 7]) ++ [call_setPending 7 false; unhandled_rejection].
Proof.
  apply (proj2 (mark_outcome_one_request [Save 7%Z]) 0 7%Z false); reflexivity.
Defined.

End MarkOutcomeExtras.

Section TextExtras.
Import Text.

Lemma replace_length (x y : N) (s : units) : length (replace x y s) = length s.
Proof.
  induction s as [|c s IH]; [done|]. cbn [replace].
  case_decide; cbn [length]; congruence.
Qed.

Lemma replace_absent (x y : N) (s : units) : x ∉ s → replace x y s = s.
Proof.
  induction s as [|c s IH]; [done|].
  intros [Hc Hs]%not_elem_of_cons. cbn [replace].
  rewrite decide_False by done. f_equal. by apply IH.
Qed.

Lemma replace_first (x y : N) (d s : units) :
  x ∉ d → replace x y (d ++ x :: s) = d ++ y :: s.
Proof.
  induction d as [|c d IH]; intros Hd; cbn [replace app].
  - by rewrite decide_True.
  - apply not_elem_of_cons in Hd as [Hc Hd].
    rewrite decide_False by done. f_equal. by apply IH.
Qed.

(** X23.  [formatDate].  The empty string gives the dash; any other
    string gives its first 16 code units with the first ["T"] among them,
    if there is one, replaced by a space, so the result never has more
    than 16 units.  A timestamp [<date>T<hh:mm>...] with a 10-unit date
    comes out as [<date> <hh:mm>]; a string with no ["T"] among its first
    16 units comes out cut to 16 units and otherwise unchanged. *)
Theorem format_date (s : units) :
  formatDate [] = [dash] ∧
  length (formatDate s) ≤ 16 ∧
  (s ≠ [] → T ∉ take 16 s → formatDate s = take 16 s) ∧
  (∀ d rest, take 16 s = d ++ T :: rest → T ∉ d →
             formatDate s = d ++ space :: rest) ∧
  (∀ d t rest, s = d ++ T :: t ++ rest → length d = 10 → T ∉ d → length t = 5 →
               formatDate s = d ++ space :: t).
Proof.
  split_and!.
  - done.
  - destruct s as [|c s]; [cbn; lia|].
    unfold formatDate. rewrite replace_length, length_take. lia.
  - intros Hne Hno. destruct s as [|c s]; [done|].
    unfold formatDate. by apply replace_absent.
  - intros d rest Htake Hd. destruct s as [|c s]; [by destruct d|].
    unfold formatDate. rewrite Htake. by apply replace_first.
  - intros d t rest -> Hd HT Ht.
    assert (take 16 (d ++ T :: t ++ rest) = d ++ T :: t) as Htake.
    { rewrite (app_comm_cons t rest T), app_assoc.
      apply take_app_length'. rewrite length_app. cbn [length]. lia. }
    destruct d as [|c d]; [done|].
    change (formatDate ((c :: d) ++ T :: t ++ rest))
      with (replace T space (take 16 ((c :: d) ++ T :: t ++ rest))).
    rewrite Htake. by apply replace_first.
Qed.

Lemma format_date_witness :
  formatDate (ascii "2025-01-15T09:00:07") = ascii "2025-01-15 09:00".
Proof.
  apply (proj2 (proj2 (proj2 (proj2 (format_date (ascii "2025-01-15T09:00:07")))))
           (ascii "2025-01-15") (ascii "09:00") (ascii ":07")).
  - reflexivity.
  - reflexivity.
  - vm_compute. intros H. repeat (apply elem_of_cons in H as [H|H]; [done|]).
    by apply elem_of_nil in H.
  - reflexivity.
Defined.

End TextExtras.

(* ================================================================= *)
(** * Labels and cards *)

Section LabelExtras.
Import Bookmakers.

(** X24.  [bookmakerLabel].  A bookmaker the table knows gets its label;
    any other key that is not the name of an inherited property comes
    back unchanged; applying the function to its own result changes
    nothing.  The copies of the ladder and prop-results pages and the
    dashboard's copy agree on every key except ["bovada"], which only the
    dashboard's copy knows. *)
Theorem bookmaker_label (b : string) :
  (b ∉ JS.inherited_keys →
   ∃ l, bookmakerLabel b = text l ∧ bookmakerLabel l = text l ∧
        (JS.get b labels = None → l = b)) ∧
  (∀ l, JS.get b labels = Some l → bookmakerLabel b = text l) ∧
  (b ≠ "bovada" → dashboard_bookmakerLabel b = bookmakerLabel b) ∧
  dashboard_bookmakerLabel "bovada" = text "Bovada" ∧
  bookmakerLabel "bovada" = text "bovada".
Proof.
  split_and!; [|by intros l Hl; unfold bookmakerLabel, lookup_or_self; rewrite Hl
               | |done|done].
  - intros Hb. unfold bookmakerLabel, lookup_or_self.
    destruct (JS.get b labels) as [l|] eqn:E.
    + exists l. split; [done|]. split; [|done].
      apply get_Some_elem_of in E. unfold labels in E.
      repeat (apply elem_of_cons in E as [[= -> ->]|E]; [by vm_compute|]).
      by apply elem_of_nil in E.
    + exists b. rewrite E. by rewrite decide_False.
  - intros Hb. unfold dashboard_bookmakerLabel, bookmakerLabel, lookup_or_self.
    assert (JS.get b dashboard_labels = JS.get b labels) as ->; [|done].
    unfold dashboard_labels, labels. cbn [JS.get].
    repeat case_decide; congruence.
Qed.

Lemma bookmaker_label_witness :
  ∃ l, bookmakerLabel "unibet" = text l ∧ bookmakerLabel l = text l ∧
       (JS.get "unibet" labels = None → l = "unibet").
Proof.
  apply (proj1 (bookmaker_label "unibet")).
  vm_compute. intros H. repeat (apply elem_of_cons in H as [H|H]; [done|]).
  by apply elem_of_nil in H.
Defined.

End LabelExtras.

Section SlipCardExtras.
Import Ladder SlipsPage.

Lemma filteredSlips_filter (f : LegFilter) (slips : list Slip) :
  filteredSlips f slips = filter (passes f) slips.
Proof.
  destruct f; cbn [filteredSlips].
  - symmetry. apply filter_all. intros s _. by left.
  - apply list_filter_iff. intros s. unfold passes.
    split; [by right|by intros [?|?]].
  - apply list_filter_iff. intros s. unfold passes.
    split; [by right|by intros [?|?]].
  - apply list_filter_iff. intros s. unfold passes.
    split; [by right|by intros [?|?]].
Qed.

Lemma indexed_slips (f : LegFilter) (slips : list Slip) (n : nat) :
  (filter (λ c, passes f c.2) (imap (λ j slip, (n + j, slip)) slips)).*2
  = filter (passes f) slips.
Proof.
  revert n. induction slips as [|s slips IH]; intros n; [done|].
  rewrite imap_cons, !filter_cons. cbn [snd].
  assert (imap ((λ j slip, (n + j, slip)) ∘ S) slips
          = imap (λ j slip, (S n + j, slip)) slips) as ->.
  { apply imap_ext. intros j x _. cbn. f_equal. lia. }
  case_decide; rewrite ?fmap_cons, IH; done.
Qed.

Lemma indexed_positions (slips : list Slip) :
  (imap (λ j slip, (j, slip)) slips).*1 = seq 0 (length slips).
Proof.
  rewrite fmap_imap, <- (list_fmap_id (seq 0 (length slips))).
  rewrite <- (imap_seq_0 slips id). by apply imap_ext.
Qed.

(** X25.  The slip cards under a leg filter.  The cards shown are the
    slips that [filteredSlips] counts, in the same order; each card
    carries the position of its slip in the unfiltered list, which is
    what [saveSlip] sends as [slip_index]; and no two cards carry the
    same position. *)
Theorem slip_cards_keep_index (f : LegFilter) (slips : list Slip) :
  (cards f slips).*2 = filteredSlips f slips ∧
  (∀ idx slip, (idx, slip) ∈ cards f slips →
               slips !! idx = Some slip ∧ passes f slip) ∧
  NoDup (cards f slips).*1.
Proof.
  unfold cards. split_and!.
  - rewrite filteredSlips_filter. apply (indexed_slips f slips 0).
  - intros idx slip [Hp Hin]%list_elem_of_filter. split; [|done].
    apply list_elem_of_lookup in Hin as [j Hj].
    rewrite list_lookup_imap in Hj.
    destruct (slips !! j) as [s'|] eqn:E; [|done].
    cbn in Hj. by injection Hj as <- <-.
  - apply (sublist_NoDup _ (imap (λ j slip, (j, slip)) slips).*1).
    + rewrite indexed_positions. apply NoDup_seq.
    + apply fmap_sublist, sublist_filter.
Qed.

Lemma slip_cards_keep_index_witness :
  Examples.ladder_slips !! 2 = Some (Examples.slip (Some multi) ["Brunson"; "Hart"; "Towns"]) ∧
  passes three (Examples.slip (Some multi) ["Brunson"; "Hart"; "Towns"]).
Proof.
  apply (proj1 (proj2 (slip_cards_keep_index three Examples.ladder_slips))).
  unfold cards. apply list_elem_of_filter. split.
  - by right.
  - apply list_elem_of_lookup. by exists 2.
Defined.

End SlipCardExtras.

(* ================================================================= *)
(** * The query of the prop-results table *)

Section QueryFacts.
Import Query.

Lemma get_set_eq (k : string) (v : Value) (qs : list (string * Value)) :
  JS.get k (set k v qs) = Some v.
Proof. unfold set. by rewrite get_upsert_eq. Qed.

Lemma get_set_ne (k k' : string) (v : Value) (qs : list (string * Value)) :
  k ≠ k' → JS.get k' (set k v qs) = JS.get k' qs.
Proof. intros Hne. unfold set. by rewrite get_upsert_ne. Qed.

Lemma get_set_text_ne (k k' : string) (o : option string)
    (qs : list (string * Value)) :
  k ≠ k' → JS.get k' (set_text k o qs) = JS.get k' qs.
Proof.
  intros Hne. unfold set_text. destruct o as [s|]; [|done].
  destruct (nonempty s); [|done]. by apply get_set_ne.
Qed.

Lemma get_set_number_ne (k k' : string) (o : option Q)
    (qs : list (string * Value)) :
  k ≠ k' → JS.get k' (set_number k o qs) = JS.get k' qs.
Proof.
  intros Hne. unfold set_number. destruct o; [|done]. by apply get_set_ne.
Qed.

Lemma get_set_flag_ne (k k' : string) (o : option bool)
    (qs : list (string * Value)) :
  k ≠ k' → JS.get k' (set_flag k o qs) = JS.get k' qs.
Proof.
  intros Hne. unfold set_flag. destruct o as [[]|]; [|done..].
  by apply get_set_ne.
Qed.

Lemma get_set_boolean_ne (k k' : string) (o : option bool)
    (qs : list (string * Value)) :
  k ≠ k' → JS.get k' (set_boolean k o qs) = JS.get k' qs.
Proof.
  intros Hne. unfold set_boolean. destruct o; [|done]. by apply get_set_ne.
Qed.

Lemma filled_set (k : string) (v : Value) (qs : list (string * Value)) :
  v ≠ text "" → filled qs → filled (set k v qs).
Proof.
  intros Hv [Hnd Hf]. unfold set. split; [by apply upsert_NoDup|].
  by apply (upsert_Forall (λ v, v ≠ text "")).
Qed.

Lemma filled_set_text (k : string) (o : option string) (qs : list (string * Value)) :
  filled qs → filled (set_text k o qs).
Proof.
  intros Hq. unfold set_text. destruct o as [s|]; [|done].
  destruct (nonempty s) eqn:E; [|done]. apply filled_set; [|done].
  intros [= ->]. done.
Qed.

Lemma filled_set_number (k : string) (o : option Q) (qs : list (string * Value)) :
  filled qs → filled (set_number k o qs).
Proof. intros Hq. destruct o; [|done]. by apply filled_set. Qed.

Lemma filled_set_flag (k : string) (o : option bool) (qs : list (string * Value)) :
  filled qs → filled (set_flag k o qs).
Proof. intros Hq. destruct o as [[]|]; [|done..]. by apply filled_set. Qed.

Lemma filled_set_boolean (k : string) (o : option bool) (qs : list (string * Value)) :
  filled qs → filled (set_boolean k o qs).
Proof.
  intros Hq. destruct o as [b|]; [|done]. apply filled_set; [|done].
  by destruct b.
Qed.

Lemma propResults_filled (p : Params) : filled (propResults p).
Proof.
  unfold propResults.
  apply filled_set_boolean, filled_set_flag, filled_set_flag, filled_set_number,
    filled_set_text, filled_set_text, filled_set_number, filled_set_text,
    filled_set_text, filled_set_text, filled_set_text.
  split; [apply NoDup_nil_2|constructor].
Qed.

End QueryFacts.

Section QueryExtras.
Import Query.

Ltac get_through :=
  unfold load_query, propResults;
  repeat first [ rewrite get_set_boolean_ne by done
               | rewrite get_set_flag_ne by done
               | rewrite get_set_number_ne by done
               | rewrite get_set_text_ne by done ];
  cbn [load_params market player date_from date_to min_score result side limit
       picks_only active_only graded_only].

(** X26.  The query [load()] sends for the prop-results table.  It names
    no parameter twice and never sends an empty value; [limit=500] and
    [graded_only] are always sent, the latter as ["true"] or ["false"];
    [picks_only] and [active_only] are sent (as ["true"]) only when
    switched on; [min_score] is sent only when the slider is above 0; a
    text filter is sent only when it is not empty. *)
Theorem results_query (f : Filters) :
  filled (load_query f) ∧
  JS.get "limit" (load_query f) = Some (numeral (500 # 1)) ∧
  JS.get "graded_only" (load_query f)
    = Some (text (if gradedOnly f then "true" else "false")) ∧
  JS.get "picks_only" (load_query f)
    = (if picksOnly f then Some (text "true") else None) ∧
  JS.get "active_only" (load_query f)
    = (if activeOnly f then Some (text "true") else None) ∧
  JS.get "min_score" (load_query f)
    = (if Qle_bool (minScore f) 0 then None else Some (numeral (minScore f))) ∧
  JS.get "player" (load_query f)
    = (if nonempty (playerFilter f) then Some (text (playerFilter f)) else None) ∧
  JS.get "market" (load_query f)
    = (if nonempty (marketFilter f) then Some (text (marketFilter f)) else None).
Proof.
  split_and!.
  - apply propResults_filled.
  - get_through. apply get_set_eq.
  - get_through. apply get_set_eq.
  - get_through. destruct (picksOnly f); cbn [set_flag].
    + apply get_set_eq.
    + by get_through.
  - get_through. destruct (activeOnly f); cbn [set_flag].
    + apply get_set_eq.
    + by get_through.
  - get_through. destruct (Qle_bool (minScore f) 0); cbn [set_number].
    + by get_through.
    + apply get_set_eq.
  - get_through. unfold or_undefined, set_text at 1.
    destruct (nonempty (playerFilter f)) eqn:E; [rewrite E; apply get_set_eq|].
    by get_through.
  - get_through. unfold or_undefined, set_text.
    destruct (nonempty (marketFilter f)) eqn:E; [rewrite E; apply get_set_eq|done].
Qed.

End QueryExtras.

(* ================================================================= *)
(** * What ends a loop happens once per reply *)

Section TerminalFacts.
Import Terminal.

Lemma occurrences_cons {A : Type} (p : A → bool) (x : A) (l : list A) :
  occurrences p (x :: l) = (if p x then 1 else 0) + occurrences p l.
Proof.
  unfold occurrences. rewrite filter_cons.
  destruct (p x); [by rewrite decide_True|by rewrite decide_False].
Qed.

Ltac check_open :=
  lazy beta iota zeta delta
    [AutoCheck.step AutoCheck.resume AutoCheck.autoCheck AutoCheck.poll
     AutoCheck.autoCheck_catch AutoCheck.load_if_done AutoCheck.load
     AutoCheck.load_rest
     AutoCheck.unmount AutoCheck.setCheckStatus AutoCheck.setChecking
     AutoCheck.set_ref AutoCheck.set_timers AutoCheck.drop_request
     AutoCheck.suspend AutoCheck.emit
     AutoCheck.checkStatus AutoCheck.checking AutoCheck.checkPollRef
     AutoCheck.timers AutoCheck.inflight AutoCheck.loads AutoCheck.mounted
     AutoCheck.log andb negb check_done].

Ltac ladder_open :=
  lazy beta iota zeta delta
    [Ladder.runLadder Ladder.runLadder_catch Ladder.poll Ladder.setStatus
     Ladder.setSlips Ladder.setExpanded Ladder.setTriggering Ladder.set_timers
     Ladder.set_ref Ladder.set_dep Ladder.drop_request Ladder.set_unmounted
     Ladder.suspend Ladder.emit
     Ladder.page_status Ladder.slips Ladder.expanded Ladder.triggering
     Ladder.pollRef Ladder.effect_dep Ladder.timers Ladder.inflight
     Ladder.mounted Ladder.log andb negb orb].

Ltac refresh_open :=
  lazy beta iota zeta delta
    [Dashboard.handleRefresh Dashboard.poll Dashboard.cleanup
     Dashboard.fetchData Dashboard.fetchData_rest
     Dashboard.setTimeout_fetchData Dashboard.timeout
     Dashboard.setRefreshing Dashboard.setRefreshStatus Dashboard.setError
     Dashboard.set_timers Dashboard.set_effect Dashboard.drop_request
     Dashboard.set_unmounted Dashboard.suspend Dashboard.emit
     Dashboard.refreshing Dashboard.refreshStatus Dashboard.error
     Dashboard.effect_refreshing Dashboard.effect_timer Dashboard.timers
     Dashboard.inflight Dashboard.fetching Dashboard.timeouts
     Dashboard.mounted Dashboard.log andb negb].

Lemma check_step_load (nulls : bool) (st : AutoCheck.State) (e : AutoCheck.Event) :
  AutoCheck.count AutoCheck.call_load (AutoCheck.log (AutoCheck.step nulls st e))
  ≤ AutoCheck.count AutoCheck.call_load (AutoCheck.log st)
    + (if check_done e then 1 else 0).
Proof.
  destruct st as [cs ck ref tb fl ld mt lg].
  destruct e as [|id|i r|ok|]; unfold AutoCheck.step;
    cbn [AutoCheck.mounted AutoCheck.checking AutoCheck.timers AutoCheck.inflight
         check_done].
  - destruct (mt && negb ck); check_open; rewrite ?ac_count_app; count_calls.
  - destruct (Timers.is_live id tb); check_open; rewrite ?ac_count_app; count_calls.
  - destruct (fl !! i) as [k|]; [|check_open; lia].
    destruct k, r as [s|]; unfold AutoCheck.resume;
      try (check_open; rewrite ?ac_count_app; count_calls).
    + destruct (decide (AutoCheck.status s = AutoCheck.running)) as [Hs|Hs].
      * check_open. destruct (Timers.setInterval 2000 tb) as [t tb'].
        check_open. rewrite ?ac_count_app. count_calls.
      * unfold AutoCheck.load_if_done.
        destruct (decide (AutoCheck.status s = AutoCheck.done)) as [Hd|Hd];
          rewrite ?(bool_decide_eq_true_2 _ Hd), ?(bool_decide_eq_false_2 _ Hd);
          check_open; rewrite ?ac_count_app; count_calls.
    + destruct (decide (AutoCheck.status s ≠ AutoCheck.running)) as [Hs|Hs];
        [|check_open; rewrite ?ac_count_app; count_calls].
      unfold AutoCheck.load_if_done.
      destruct (decide (AutoCheck.status s = AutoCheck.done)) as [Hd|Hd];
        rewrite ?(bool_decide_eq_true_2 _ Hd), ?(bool_decide_eq_false_2 _ Hd);
        destruct nulls; check_open; rewrite ?ac_count_app; count_calls.
  - destruct ld; check_open; rewrite ?ac_count_app; count_calls.
  - destruct mt; check_open; lia.
Qed.

Lemma ladder_commit_log (st : Ladder.State) :
  Ladder.log (Ladder.commit st) = Ladder.log st.
Proof.
  unfold Ladder.commit. destruct (_ && _); [|done].
  unfold Ladder.effect. destruct (Ladder.isRunning _); [|done].
  by destruct (Timers.setInterval _ _).
Qed.

Lemma ladder_step_results (st : Ladder.State) (e : Ladder.Event) :
  Ladder.count Ladder.call_results (Ladder.log (Ladder.step st e))
  ≤ Ladder.count Ladder.call_results (Ladder.log st)
    + (if ladder_done e then 1 else 0).
Proof.
  destruct e as [|id|i r|]; unfold Ladder.step; cbn [ladder_done].
  - destruct (_ && _); [|lia]. rewrite ladder_commit_log.
    ladder_open. rewrite ?ladder_count_app. count_calls.
  - destruct (Timers.is_live _ _); [|lia]. rewrite ladder_commit_log.
    ladder_open. rewrite ?ladder_count_app. count_calls.
  - destruct (Ladder.inflight st !! i) as [k|]; [|destruct r; try case_bool_decide; lia].
    destruct (Ladder.resume k r (Ladder.drop_request i st)) as [st'|] eqn:E;
      [|destruct r; try case_bool_decide; lia].
    rewrite ladder_commit_log.
    destruct k, r as [| |s|l]; cbn [Ladder.resume] in E; try done;
      try (injection E as <-; ladder_open; rewrite ?ladder_count_app;
           try case_bool_decide; count_calls).
    revert E. repeat case_decide; intros [= <-]; ladder_open;
      rewrite ?ladder_count_app; try case_bool_decide;
      try (exfalso; congruence); count_calls.
  - destruct (Ladder.mounted st); [|lia]. unfold Ladder.cleanup.
    repeat case_match; ladder_open; rewrite ?ladder_count_app; count_calls.
Qed.

Lemma dashboard_commit_log (st : Dashboard.State) :
  Dashboard.log (Dashboard.commit st) = Dashboard.log st.
Proof.
  unfold Dashboard.commit. destruct (_ && _); [|done].
  unfold Dashboard.rerun_effect, Dashboard.effect.
  destruct (Dashboard.refreshing _); [|done].
  by destruct (Timers.setInterval _ _).
Qed.

Lemma dashboard_step_timeout (st : Dashboard.State) (e : Dashboard.Event) :
  Dashboard.count (Dashboard.call_setTimeout_fetchData 500)
    (Dashboard.log (Dashboard.step st e))
  ≤ Dashboard.count (Dashboard.call_setTimeout_fetchData 500) (Dashboard.log st)
    + (if refresh_over e then 1 else 0).
Proof.
  destruct e as [| |id|i r| |failure|]; unfold Dashboard.step; cbn [refresh_over].
  - destruct (_ && _); [|lia]. rewrite dashboard_commit_log.
    refresh_open. rewrite ?dashboard_count_app. count_calls.
  - destruct (Dashboard.mounted st); [|lia].
    unfold Dashboard.rerun_effect, Dashboard.effect.
    destruct (Dashboard.refreshing _); [destruct (Timers.setInterval _ _)|];
      refresh_open; rewrite ?dashboard_count_app; count_calls.
  - destruct (Timers.is_live _ _); [|lia]. rewrite dashboard_commit_log.
    refresh_open. rewrite ?dashboard_count_app. count_calls.
  - destruct (Dashboard.inflight st !! i) as [k|];
      [|destruct r as [| |s]; try destruct (Dashboard.running s); cbn; lia].
    destruct (Dashboard.resume k r (Dashboard.drop_request i st)) as [st'|] eqn:E;
      [|destruct r as [| |s]; try destruct (Dashboard.running s); cbn; lia].
    rewrite dashboard_commit_log.
    destruct k, r as [| |s]; cbn [Dashboard.resume] in E; try done;
      try (injection E as <-; refresh_open; rewrite ?dashboard_count_app;
           try destruct (Dashboard.running s); cbn [negb]; count_calls).
    destruct (Dashboard.running s); injection E as <-; refresh_open;
      rewrite ?dashboard_count_app; count_calls.
  - rewrite dashboard_commit_log. unfold Dashboard.timeout.
    destruct (Dashboard.timeouts st); [lia|].
    refresh_open. rewrite ?dashboard_count_app. count_calls.
  - rewrite dashboard_commit_log. unfold Dashboard.fetchData_rest.
    destruct (Dashboard.fetching st); [lia|].
    refresh_open. rewrite ?dashboard_count_app. count_calls.
  - destruct (Dashboard.mounted st); [|lia]. unfold Dashboard.cleanup.
    repeat case_match; refresh_open; rewrite ?dashboard_count_app; count_calls.
Qed.

Lemma check_run_load (nulls : bool) (evs : list AutoCheck.Event)
    (st : AutoCheck.State) :
  AutoCheck.count AutoCheck.call_load (AutoCheck.log (AutoCheck.run nulls st evs))
  ≤ AutoCheck.count AutoCheck.call_load (AutoCheck.log st)
    + occurrences check_done evs.
Proof.
  revert st. induction evs as [|e evs IH]; intros st.
  - unfold AutoCheck.run. cbn. lia.
  - change (AutoCheck.run nulls st (e :: evs))
      with (AutoCheck.run nulls (AutoCheck.step nulls st e) evs).
    rewrite occurrences_cons.
    pose proof (IH (AutoCheck.step nulls st e)).
    pose proof (check_step_load nulls st e). lia.
Qed.

Lemma ladder_run_results (evs : list Ladder.Event) (st : Ladder.State) :
  Ladder.count Ladder.call_results (Ladder.log (Ladder.run st evs))
  ≤ Ladder.count Ladder.call_results (Ladder.log st)
    + occurrences ladder_done evs.
Proof.
  revert st. induction evs as [|e evs IH]; intros st.
  - unfold Ladder.run. cbn. lia.
  - change (Ladder.run st (e :: evs)) with (Ladder.run (Ladder.step st e) evs).
    rewrite occurrences_cons.
    pose proof (IH (Ladder.step st e)).
    pose proof (ladder_step_results st e). lia.
Qed.

Lemma dashboard_run_timeout (evs : list Dashboard.Event) (st : Dashboard.State) :
  Dashboard.count (Dashboard.call_setTimeout_fetchData 500)
    (Dashboard.log (Dashboard.run st evs))
  ≤ Dashboard.count (Dashboard.call_setTimeout_fetchData 500) (Dashboard.log st)
    + occurrences refresh_over evs.
Proof.
  revert st. induction evs as [|e evs IH]; intros st.
  - unfold Dashboard.run. cbn. lia.
  - change (Dashboard.run st (e :: evs))
      with (Dashboard.run (Dashboard.step st e) evs).
    rewrite occurrences_cons.
    pose proof (IH (Dashboard.step st e)).
    pose proof (dashboard_step_timeout st e). lia.
Qed.

End TerminalFacts.

(** X27.  What a loop does when it ends, it does at most once for each
    request that settles with the ending status, on every schedule and from
    every state: the results check reloads the rows ([load()]) at most once
    per request settled with a body whose status is [done], the ladder page
    fetches the slips ([api.ladderResults()]) at most once per status body
    [done], and the dashboard schedules the reload
    ([setTimeout(fetchData, 500)]) at most once per status body that is not
    running.  Replies that come in after the interval was cleared, or after
    the page unmounted, are included: none of them adds a second call for the
    same reply. *)
Theorem end_of_loop_once_per_reply :
  (∀ nulls st evs,
     AutoCheck.count AutoCheck.call_load
       (AutoCheck.log (AutoCheck.run nulls st evs))
     ≤ AutoCheck.count AutoCheck.call_load (AutoCheck.log st)
       + Terminal.occurrences Terminal.check_done evs) ∧
  (∀ st evs,
     Ladder.count Ladder.call_results (Ladder.log (Ladder.run st evs))
     ≤ Ladder.count Ladder.call_results (Ladder.log st)
       + Terminal.occurrences Terminal.ladder_done evs) ∧
  (∀ st evs,
     Dashboard.count (Dashboard.call_setTimeout_fetchData 500)
       (Dashboard.log (Dashboard.run st evs))
     ≤ Dashboard.count (Dashboard.call_setTimeout_fetchData 500)
         (Dashboard.log st)
       + Terminal.occurrences Terminal.refresh_over evs).
Proof.
  split; [|split]; intros.
  - apply check_run_load.
  - apply ladder_run_results.
  - apply dashboard_run_timeout.
Qed.
